(** * A SOCKS5 client for Deno: address codec, negotiation and UDP relay

    Shallow embedding of [client.ts] and [utils.ts].  Bytes and UTF-16 code
    units are integers in [Z]; typed arrays are lists of bytes; effectful code
    runs in a small state-and-exception monad over an explicit world (Deno's
    resource table and a heap of buffers). *)

From Stdlib Require Import ZArith List String Ascii Lia Bool.
From stdpp Require Import base option list gmap.

Local Open Scope Z_scope.

(** ** The JavaScript built-ins the client relies on *)

Module JS.

(** A JavaScript string is a sequence of UTF-16 code units. *)
Definition jsstring := list Z.

Definition js (s : string) : jsstring :=
  map (fun a => Z.of_nat (nat_of_ascii a)) (list_ascii_of_string s).

Definition chr (s : string) : Z :=
  match s with
  | String a _ => Z.of_nat (nat_of_ascii a)
  | EmptyString => 0
  end.

(** The values of type [number] that occur: NaN, the infinities, and the
    finite doubles, written [Real m e] for [m * 2^e]. *)
Inductive number :=
| NaN
| Inf (neg : bool)
| Real (m e : Z).

Definition Int (z : Z) : number := Real z 0.

(** Truncation toward zero of a finite double. *)
Definition trunc (m e : Z) : Z :=
  if 0 <=? e then m * 2 ^ e else Z.quot m (2 ^ (- e)).

Definition ToUint8 (x : number) : Z :=
  match x with
  | Real m e => trunc m e mod 256
  | _ => 0
  end.

Definition ToInt32 (x : number) : Z :=
  match x with
  | Real m e => (trunc m e + 2 ^ 31) mod 2 ^ 32 - 2 ^ 31
  | _ => 0
  end.

(** [x >> k] and [x << k] (for [0 <= k < 32]), [x % d] and [x + y]. *)
Definition shr (x : number) (k : Z) : number := Int (Z.shiftr (ToInt32 x) k).

Definition shl (x : number) (k : Z) : number :=
  Int (ToInt32 (Int (Z.shiftl (ToInt32 x) k))).

Definition rem (x : number) (d : Z) : number :=
  match x with
  | Real m e =>
      if 0 <=? e then Int (Z.rem (m * 2 ^ e) d)
      else Real (Z.rem m (d * 2 ^ (- e))) e
  | _ => NaN
  end.

(** [Uint8Array.from(xs)] converts every element with ToUint8. *)
Definition Uint8Array_from (xs : list number) : list Z := map ToUint8 xs.

(** *** Character classes *)

Definition is_digit (c : Z) : bool := (48 <=? c) && (c <=? 57).

Definition is_hex_digit (c : Z) : bool :=
  is_digit c || ((65 <=? c) && (c <=? 70)) || ((97 <=? c) && (c <=? 102)).

Definition digit_value (c : Z) : Z :=
  if is_digit c then c - 48
  else if (65 <=? c) && (c <=? 70) then c - 55
  else c - 87.

(** StrWhiteSpaceChar: WhiteSpace and LineTerminator. *)
Definition is_whitespace (c : Z) : bool :=
  ((9 <=? c) && (c <=? 13)) || (c =? 32) || (c =? 160) || (c =? 5760)
  || ((8192 <=? c) && (c <=? 8202)) || (c =? 8232) || (c =? 8233)
  || (c =? 8239) || (c =? 8287) || (c =? 12288) || (c =? 65279).

Fixpoint span (p : Z -> bool) (s : jsstring) : jsstring * jsstring :=
  match s with
  | c :: s' =>
      if p c then let '(a, b) := span p s' in (c :: a, b) else ([], s)
  | [] => ([], [])
  end.

Definition trim_start (s : jsstring) : jsstring := snd (span is_whitespace s).

Definition trim (s : jsstring) : jsstring :=
  rev (trim_start (rev (trim_start s))).

(** Value of a digit string in the given radix, most significant first. *)
Definition digits_value (radix : Z) (ds : jsstring) : Z :=
  fold_left (fun acc c => acc * radix + digit_value c) ds 0.

(** *** Rounding to binary64 (round to nearest, ties to even) *)

Definition scale_num (p k : Z) : Z := if 0 <=? k then p else p * 2 ^ (- k).
Definition scale_den (q k : Z) : Z := if 0 <=? k then q * 2 ^ k else q.

(** The double nearest to the non-negative rational [p / q] ([0 < q]). *)
Definition round_binary64 (neg : bool) (p q : Z) : number :=
  if p =? 0 then Real 0 0
  else
    let e0 := Z.log2 p - Z.log2 q in
    let e := if scale_num p e0 <? scale_den q e0 then e0 - 1 else e0 in
    let k := Z.max (e - 52) (- 1074) in
    let n := scale_num p k in
    let d := scale_den q k in
    let m := n / d in
    let r := n mod d in
    let m' := if (d <? 2 * r) || ((d =? 2 * r) && Z.odd m) then m + 1 else m in
    if (m' =? 0) then Real 0 0
    else if 1024 <=? Z.log2 m' + k then Inf neg
    else Real (if neg then - m' else m') k.

(** *** [Number(s)]: StringToNumber *)

Definition strip_sign (s : jsstring) : bool * jsstring :=
  match s with
  | c :: s' =>
      if c =? chr "-" then (true, s')
      else if c =? chr "+" then (false, s')
      else (false, s)
  | [] => (false, s)
  end.

Definition list_eqb (a b : jsstring) : bool := bool_decide (a = b).

(** An optional ExponentPart, then the end of the string. *)
Definition exponent_part (s : jsstring) : option Z :=
  match s with
  | [] => Some 0
  | c :: s' =>
      if (c =? chr "e") || (c =? chr "E") then
        let '(neg, s'') := strip_sign s' in
        let '(ds, rest) := span is_digit s'' in
        match ds, rest with
        | _ :: _, [] =>
            Some (if neg then - digits_value 10 ds else digits_value 10 ds)
        | _, _ => None
        end
      else None
  end.

(** StrUnsignedDecimalLiteral other than Infinity: mantissa and decimal
    exponent. *)
Definition decimal_literal (s : jsstring) : option (Z * Z) :=
  let '(a, rest1) := span is_digit s in
  let '(b, rest2) :=
    match rest1 with
    | c :: r => if c =? chr "." then span is_digit r else ([], rest1)
    | [] => ([], rest1)
    end in
  match a ++ b with
  | [] => None
  | _ :: _ =>
      match exponent_part rest2 with
      | Some ex => Some (digits_value 10 (a ++ b), ex - Z.of_nat (length b))
      | None => None
      end
  end.

Definition non_decimal_literal (s : jsstring) : option Z :=
  match s with
  | z :: x :: ds =>
      if (z =? chr "0") && negb (list_eqb ds []) then
        if ((x =? chr "x") || (x =? chr "X")) && forallb is_hex_digit ds
        then Some (digits_value 16 ds)
        else if ((x =? chr "o") || (x =? chr "O"))
                && forallb (fun c => (48 <=? c) && (c <=? 55)) ds
        then Some (digits_value 8 ds)
        else if ((x =? chr "b") || (x =? chr "B"))
                && forallb (fun c => (48 <=? c) && (c <=? 49)) ds
        then Some (digits_value 2 ds)
        else None
      else None
  | _ => None
  end.

Definition Number (s : jsstring) : number :=
  let t := trim s in
  match t with
  | [] => Real 0 0
  | _ :: _ =>
      match non_decimal_literal t with
      | Some v => round_binary64 false v 1
      | None =>
          let '(neg, u) := strip_sign t in
          if list_eqb u (js "Infinity") then Inf neg
          else
            match decimal_literal u with
            | Some (m, ex) =>
                if 0 <=? ex then round_binary64 neg (m * 10 ^ ex) 1
                else round_binary64 neg m (10 ^ (- ex))
            | None => NaN
            end
      end
  end.

(** *** [parseInt(s, 16)] *)

Definition strip_hex_prefix (s : jsstring) : jsstring :=
  match s with
  | z :: x :: s' =>
      if (z =? chr "0") && ((x =? chr "x") || (x =? chr "X")) then s' else s
  | _ => s
  end.

Definition parseInt16 (s : jsstring) : number :=
  let '(neg, u) := strip_sign (trim_start s) in
  let '(ds, _) := span is_hex_digit (strip_hex_prefix u) in
  match ds with
  | [] => NaN
  | _ :: _ => round_binary64 neg (digits_value 16 ds) 1
  end.

(** *** [String(n)] for an integer [n] (below 10^21 in absolute value) *)

Fixpoint decimal_digits (fuel : nat) (n : Z) (acc : jsstring) : jsstring :=
  match fuel with
  | O => acc
  | S fuel' =>
      let acc' := (48 + n mod 10) :: acc in
      if n <? 10 then acc' else decimal_digits fuel' (n / 10) acc'
  end.

Definition toString (n : Z) : jsstring :=
  if n <? 0 then chr "-" :: decimal_digits (Z.to_nat (Z.log2 (- n)) + 1) (- n) []
  else decimal_digits (Z.to_nat (Z.log2 n) + 1) n [].

(** *** [s.split(sep)] for a one-character separator, and [parts.join(sep)] *)

Fixpoint split (sep : Z) (s : jsstring) : list jsstring :=
  match s with
  | [] => [[]]
  | c :: s' =>
      if c =? sep then [] :: split sep s'
      else
        match split sep s' with
        | seg :: segs => (c :: seg) :: segs
        | [] => [[c]]
        end
  end.

Fixpoint join (sep : Z) (parts : list jsstring) : jsstring :=
  match parts with
  | [] => []
  | [p] => p
  | p :: ps => p ++ sep :: join sep ps
  end.

(** *** Regular expressions: the fragment the two patterns use *)

Inductive regex :=
| Class (p : Z -> bool)
| Cat (r1 r2 : regex)
| Rep (lo hi : nat) (r : regex).

(** Backtracking matcher in continuation-passing style: [rmatch r s k] holds
    when some prefix of [s] matches [r] and [k] accepts the rest. *)
Fixpoint rmatch (r : regex) (s : jsstring) (k : jsstring -> bool) : bool :=
  match r with
  | Class p =>
      match s with
      | c :: s' => p c && k s'
      | [] => false
      end
  | Cat r1 r2 => rmatch r1 s (fun s' => rmatch r2 s' k)
  | Rep lo hi r' =>
      (fix rep (lo hi : nat) (s : jsstring) {struct hi} : bool :=
         match hi with
         | O => match lo with O => k s | S _ => false end
         | S hi' =>
             rmatch r' s (fun s' => rep (Nat.pred lo) hi' s')
             || match lo with O => k s | S _ => false end
         end) lo hi s
  end.

(** [/^r/.test(s)] and [/^r$/.test(s)]. *)
Definition test_prefix (r : regex) (s : jsstring) : bool :=
  rmatch r s (fun _ => true).

Definition test_whole (r : regex) (s : jsstring) : bool :=
  rmatch r s (fun rest => list_eqb rest []).

(** *** [new TextEncoder().encode(s)] *)

Definition is_high_surrogate (c : Z) : bool := (55296 <=? c) && (c <=? 56319).
Definition is_low_surrogate (c : Z) : bool := (56320 <=? c) && (c <=? 57343).

(** Conversion to a USVString: surrogate pairs are combined, lone
    surrogates become U+FFFD. *)
Fixpoint code_points (s : jsstring) : list Z :=
  match s with
  | [] => []
  | c :: s' =>
      if is_high_surrogate c then
        match s' with
        | d :: s'' =>
            if is_low_surrogate d
            then (65536 + (c - 55296) * 1024 + (d - 56320)) :: code_points s''
            else 65533 :: code_points s'
        | [] => [65533]
        end
      else if is_low_surrogate c then 65533 :: code_points s'
      else c :: code_points s'
  end.

Definition utf8_encode_code_point (cp : Z) : list Z :=
  if cp <? 128 then [cp]
  else if cp <? 2048 then
    [Z.lor 192 (Z.shiftr cp 6); Z.lor 128 (Z.land cp 63)]
  else if cp <? 65536 then
    [Z.lor 224 (Z.shiftr cp 12); Z.lor 128 (Z.land (Z.shiftr cp 6) 63);
     Z.lor 128 (Z.land cp 63)]
  else
    [Z.lor 240 (Z.shiftr cp 18); Z.lor 128 (Z.land (Z.shiftr cp 12) 63);
     Z.lor 128 (Z.land (Z.shiftr cp 6) 63); Z.lor 128 (Z.land cp 63)].

Definition TextEncoder_encode (s : jsstring) : list Z :=
  flat_map utf8_encode_code_point (code_points s).

(** *** [new TextDecoder().decode(bytes)] *)

(** The UTF-8 decoder of the Encoding standard.  [needed] counts the
    continuation bytes still expected, [lower] and [upper] bound the next
    one; a malformed sequence yields U+FFFD and the offending byte is
    processed again as a lead byte. *)
Fixpoint utf8_decode (bs : list Z) (cp needed lower upper : Z) : list Z :=
  match bs with
  | [] => if needed =? 0 then [] else [65533]
  | b :: bs' =>
      let lead :=
        if b <=? 127 then b :: utf8_decode bs' 0 0 128 191
        else if (194 <=? b) && (b <=? 223) then
          utf8_decode bs' (Z.land b 31) 1 128 191
        else if (224 <=? b) && (b <=? 239) then
          utf8_decode bs' (Z.land b 15) 2
            (if b =? 224 then 160 else 128) (if b =? 237 then 159 else 191)
        else if (240 <=? b) && (b <=? 244) then
          utf8_decode bs' (Z.land b 7) 3
            (if b =? 240 then 144 else 128) (if b =? 244 then 143 else 191)
        else 65533 :: utf8_decode bs' 0 0 128 191 in
      if needed =? 0 then lead
      else if (lower <=? b) && (b <=? upper) then
        let cp' := Z.lor (Z.shiftl cp 6) (Z.land b 63) in
        if needed =? 1 then cp' :: utf8_decode bs' 0 0 128 191
        else utf8_decode bs' cp' (needed - 1) 128 191
      else 65533 :: lead
  end.

Definition utf16_encode_code_point (cp : Z) : jsstring :=
  if cp <? 65536 then [cp]
  else [55296 + Z.shiftr (cp - 65536) 10; 56320 + Z.land (cp - 65536) 1023].

(** The decoder is created without [ignoreBOM], so a leading byte order mark
    is dropped. *)
Definition TextDecoder_decode (bs : list Z) : jsstring :=
  let cps := utf8_decode bs 0 0 128 191 in
  flat_map utf16_encode_code_point
    match cps with
    | 65279 :: cps' => cps'
    | _ => cps
    end.

End JS.

Import JS.

(** ** client.ts: constants and enumerations *)

Definition SOCKS_VERSION : Z := 5.
Definition USERNAME_PASSWORD_AUTH_VERSION : Z := 1.

Module AddrType.
Definition IPv4 : Z := 1.
Definition DomainName : Z := 3.
Definition IPv6 : Z := 4.
End AddrType.

Module AuthMethod.
Definition NoAuth : Z := 0.
Definition UsernamePassword : Z := 2.
Definition NoneAcceptable : Z := 255.
End AuthMethod.

Module ReplyStatus.
Definition Success : Z := 0.
Definition GeneralError : Z := 1.
Definition RulesetError : Z := 2.
Definition NetworkUnreachable : Z := 3.
Definition HostUnreachable : Z := 4.
Definition ConnectionRefused : Z := 5.
Definition TTLExpired : Z := 6.
Definition UnsupportedCommand : Z := 7.
Definition UnsupportedAddress : Z := 8.
End ReplyStatus.

Module Command.
Definition Connect : Z := 1.
Definition Bind : Z := 2.
Definition UdpAssociate : Z := 3.
End Command.

(** ** client.ts: [decodeError] *)

Definition decodeError (status : Z) : jsstring :=
  if status =? ReplyStatus.GeneralError then
    js "general SOCKS server failure"
  else if status =? ReplyStatus.RulesetError then
    js "connection not allowed by ruleset"
  else if status =? ReplyStatus.NetworkUnreachable then
    js "Network unreachable"
  else if status =? ReplyStatus.HostUnreachable then
    js "Host unreachable"
  else if status =? ReplyStatus.ConnectionRefused then
    js "Connection refused"
  else if status =? ReplyStatus.TTLExpired then
    js "TTL expired"
  else if status =? ReplyStatus.UnsupportedCommand then
    js "Command not supported"
  else if status =? ReplyStatus.UnsupportedAddress then
    js "Address type not supported"
  else
    js "unknown SOCKS error".

(** ** client.ts: [serializeAddress] *)

Definition digit : regex := Class is_digit.
Definition dot : regex := Class (fun c => c =? chr ".").
Definition colon : regex := Class (fun c => c =? chr ":").
(** [[A-F0-9]] under the [i] flag. *)
Definition hex_digit : regex := Class is_hex_digit.

(** [/^(?:\d{1,3}\.){3}\d{1,3}/] *)
Definition v4Pattern (s : jsstring) : bool :=
  test_prefix (Cat (Rep 3 3 (Cat (Rep 1 3 digit) dot)) (Rep 1 3 digit)) s.

(** [/^(?:[A-F0-9]{1,4}:){7}[A-F0-9]{1,4}$/i] *)
Definition v6Pattern (s : jsstring) : bool :=
  test_whole (Cat (Rep 7 7 (Cat (Rep 1 4 hex_digit) colon)) (Rep 1 4 hex_digit)) s.

Definition portBytes (port : Z) : list number :=
  [shr (Int port) 8; rem (Int port) 256].

Definition serializeAddress (hostname : jsstring) (port : Z) : list Z :=
  if v4Pattern hostname then
    Uint8Array_from
      ([Int AddrType.IPv4]
         ++ map Number (split (chr ".") hostname)
         ++ portBytes port)
  else if v6Pattern hostname then
    Uint8Array_from
      ([Int AddrType.IPv6]
         ++ flat_map
              (fun x => let num := parseInt16 x in [shr num 8; rem num 256])
              (split (chr ":") hostname)
         ++ portBytes port)
  else
    let bytes := TextEncoder_encode hostname in
    Uint8Array_from
      ([Int AddrType.DomainName; Int (Z.of_nat (length bytes))]
         ++ map Int bytes
         ++ portBytes port).

(** ** Effects: outcomes of a call, and state passing *)

Inductive exn :=
| Error (message : jsstring)
| UnexpectedEof (message : jsstring)
| BadResource (rid : nat)
| ConnectFailed (message : jsstring).

(** A call returns, throws, or does not complete (it waits on a promise that
    is still pending, or loops). *)
Inductive Outcome (A : Type) :=
| Returned (a : A)
| Threw (e : exn)
| Pends.

Arguments Returned {A} a.
Arguments Threw {A} e.
Arguments Pends {A}.

Definition M (S A : Type) : Type := S -> Outcome A * S.

Definition ret {S A} (a : A) : M S A := fun s => (Returned a, s).

Definition bind {S A B} (m : M S A) (k : A -> M S B) : M S B :=
  fun s =>
    match m s with
    | (Returned a, s') => k a s'
    | (Threw e, s') => (Threw e, s')
    | (Pends, s') => (Pends, s')
    end.

Definition throw {S A} (e : exn) : M S A := fun s => (Threw e, s).

Definition pends {S A} : M S A := fun s => (Pends, s).

(** [try { m } catch (e) { h e }] *)
Definition try_catch {S A} (m : M S A) (h : exn -> M S A) : M S A :=
  fun s =>
    match m s with
    | (Threw e, s') => h e s'
    | r => r
    end.

Definition gets {S A} (f : S -> A) : M S A := fun s => (Returned (f s), s).

Declare Scope m_scope.
Delimit Scope m_scope with M.
Notation "'let*' x ':=' m 'in' k" := (bind m (fun x => k))
  (at level 10, x pattern, m at level 100, k at level 200) : m_scope.
Notation "m ';;' k" := (bind m (fun _ => k))
  (at level 100, k at level 200, right associativity) : m_scope.
Local Open Scope m_scope.

(** ** utils.ts *)

(** A [Deno.Reader]: [read(p)] is given the capacity [p.length] and resolves
    to the bytes it stored at the front of [p] (their number is the count it
    reports) or to [null] at the end of the stream. *)
Definition Reader (S : Type) : Type := nat -> M S (option (list Z)).

(** State of the object made by [uint8ArrayToReader]. *)
Record ArrayReader := { arr : list Z; offset : nat }.

Definition uint8ArrayToReader (a : list Z) : ArrayReader :=
  {| arr := a; offset := 0 |}.

Definition ArrayReader_read : Reader ArrayReader :=
  fun p_length r =>
    if (length (arr r) <=? offset r)%nat then (Returned None, r)
    else
      let n := Nat.min p_length (length (arr r) - offset r) in
      (Returned (Some (take n (drop (offset r) (arr r)))),
       {| arr := arr r; offset := (offset r + n)%nat |}).

(** [out.subarray(nRead)] filled from its start with [chunk]. *)
Definition fill (out : list Z) (nRead : nat) (chunk : list Z) : list Z :=
  take nRead out
    ++ take (length out - nRead) chunk
    ++ drop (nRead + length chunk) out.

Definition eof_message (more : Z) : jsstring :=
  js "reached EOF but we expected to read " ++ toString more ++ js " more bytes".

Section readN.
Context {S : Type} (reader : Reader S).

(** The [while (nRead < n)] loop, run for at most [fuel] iterations. *)
Fixpoint readN_loop (fuel n : nat) (out : list Z) (nRead : nat)
  : M S (list Z) :=
  if (nRead <? n)%nat then
    match fuel with
    | O => pends
    | Datatypes.S fuel' =>
        let* m := reader (n - nRead)%nat in
        match m with
        | None =>
            throw (UnexpectedEof (eof_message (Z.of_nat n - Z.of_nat nRead)))
        | Some chunk =>
            readN_loop fuel' n (fill out nRead chunk)
              (nRead + length chunk)%nat
        end
    end
  else ret out.

Definition readN_fuel (fuel n : nat) : M S (list Z) :=
  readN_loop fuel n (replicate n 0) 0%nat.

(** A reader that honours [Deno.Reader]'s contract stores at least one byte
    per call, so [n] iterations are always enough (lemma
    [readN_fuel_enough]). *)
Definition readN (n : nat) : M S (list Z) := readN_fuel n n.
End readN.

(** ** client.ts: [deserializeAddress] *)

Record Address := { hostname : jsstring; port : Z; bytesRead : Z }.

(** The loop over the 16 bytes of [buff], two at a time. *)
Fixpoint ipv6_parts (buff : list Z) : list Z :=
  match buff with
  | hi :: lo :: rest => (Z.shiftl hi 8 + lo) :: ipv6_parts rest
  | _ => []
  end.

Section deserializeAddress.
Context {S : Type} (r : Reader S).

(** The anonymous function that computes [hostname]: its value and the
    number of bytes read for it. *)
Definition deserializeHost (type : Z) : M S (jsstring * Z) :=
  if type =? AddrType.IPv4 then
    let* parts := readN r 4 in
    ret (join (chr ".") (map toString parts), 4)
  else if type =? AddrType.IPv6 then
    let* buff := readN r 16 in
    ret (join (chr ":") (map toString (ipv6_parts buff)), 16)
  else if type =? AddrType.DomainName then
    let* l := readN r 1 in
    let length := l !!! 0%nat in
    let* bytes := readN r (Z.to_nat length) in
    ret (TextDecoder_decode bytes, length + 1)
  else
    throw (Error (js "unexpected address type: " ++ toString type)).

Definition deserializeAddress : M S Address :=
  let* t := readN r 1 in
  let type := t !!! 0%nat in
  let* (value, length) := deserializeHost type in
  let* p := readN r 2 in
  let portUpper := p !!! 0%nat in
  let portLower := p !!! 1%nat in
  let port := Z.shiftl portUpper 8 + portLower in
  ret {| hostname := value; port := port; bytesRead := length + 3 |}.
End deserializeAddress.

(** Decoding the bytes of a typed array, as [receive] does. *)
Definition decode (bytes : list Z) : Outcome Address :=
  fst (deserializeAddress ArrayReader_read (uint8ArrayToReader bytes)).

(** ** The world: Deno's resource table and the heap of typed-array buffers *)

Record NetAddr := { na_hostname : jsstring; na_port : Z; na_transport : string }.

(** A TCP connection: the chunks its peer still delivers (the stream ends
    after the last one) and everything written so far. *)
Record TcpConn := { inbox : list (list Z); outbox : list Z }.

(** A datagram socket: the datagrams still to arrive and those sent. *)
Record UdpSocket := {
  queue : list (list Z * NetAddr);
  sent : list (list Z * NetAddr)
}.

Inductive Resource :=
| RTcp (c : TcpConn)
| RUdp (u : UdpSocket).

(** What the network answers to a [Deno.connect]. *)
Inductive Dial :=
| Accepts (script : list (list Z))
| Refuses (message : jsstring).

(** Besides the open resources and the buffers: the last resource id handed
    out, what the network will answer to the next [Deno.connect] calls, the
    datagrams that will reach the next socket bound, and the number of
    [Deno.connect] calls made so far. *)
Record World := {
  resources : gmap nat Resource;
  next_rid : nat;
  heap : gmap nat (list Z);
  dials : list Dial;
  traffic : list (list Z * NetAddr);
  connects : nat
}.

Definition set_resources (f : gmap nat Resource -> gmap nat Resource)
  (w : World) : World :=
  {| resources := f (resources w); next_rid := next_rid w; heap := heap w;
     dials := dials w; traffic := traffic w; connects := connects w |}.

Definition set_heap (f : gmap nat (list Z) -> gmap nat (list Z))
  (w : World) : World :=
  {| resources := resources w; next_rid := next_rid w; heap := f (heap w);
     dials := dials w; traffic := traffic w; connects := connects w |}.

(** A resource id for a new resource: one that is not in the table and was
    never handed out (Deno does not use an id twice). *)
Definition new_rid (w : World) : nat :=
  fresh (dom (resources w) ∪ (set_seq 0 (next_rid w) : gset nat)).

(** [Deno.connect]: every call is counted in [connects]. *)
Definition Deno_connect (host : jsstring) (p : Z) : M World nat :=
  fun w =>
    let rid := new_rid w in
    match dials w with
    | Accepts script :: ds =>
        (Returned rid,
         {| resources := <[rid := RTcp {| inbox := script; outbox := [] |}]>
                           (resources w);
            next_rid := Datatypes.S rid; heap := heap w; dials := ds;
            traffic := traffic w; connects := Datatypes.S (connects w) |})
    | Refuses msg :: ds =>
        (Threw (ConnectFailed msg),
         {| resources := resources w; next_rid := next_rid w; heap := heap w;
            dials := ds; traffic := traffic w;
            connects := Datatypes.S (connects w) |})
    | [] =>
        (Threw (ConnectFailed (js "connection refused")),
         {| resources := resources w; next_rid := next_rid w; heap := heap w;
            dials := []; traffic := traffic w;
            connects := Datatypes.S (connects w) |})
    end.

(** The first bytes available on a stream, at most [cap] of them. *)
Fixpoint next_chunk (cap : nat) (chunks : list (list Z))
  : option (list Z * list (list Z)) :=
  match chunks with
  | [] => None
  | [] :: rest => next_chunk cap rest
  | (b :: bs) :: rest =>
      let c := b :: bs in
      Some (take cap c,
            match drop cap c with
            | [] => rest
            | more => more :: rest
            end)
  end.

(** [conn.read(p)] *)
Definition conn_read (rid : nat) : Reader World :=
  fun p_length w =>
    match resources w !! rid with
    | Some (RTcp c) =>
        match next_chunk p_length (inbox c) with
        | Some (chunk, rest) =>
            (Returned (Some chunk),
             set_resources
               <[rid := RTcp {| inbox := rest; outbox := outbox c |}]> w)
        | None =>
            (Returned None,
             set_resources
               <[rid := RTcp {| inbox := []; outbox := outbox c |}]> w)
        end
    | _ => (Threw (BadResource rid), w)
    end.

(** [writeAll(conn, bytes)] *)
Definition writeAll (rid : nat) (bytes : list Z) : M World unit :=
  fun w =>
    match resources w !! rid with
    | Some (RTcp c) =>
        (Returned tt,
         set_resources
           <[rid := RTcp {| inbox := inbox c; outbox := outbox c ++ bytes |}]> w)
    | _ => (Threw (BadResource rid), w)
    end.

(** [conn.close()] and [udpConn.close()]: closing a resource twice throws
    "Bad resource ID". *)
Definition Deno_close (rid : nat) : M World unit :=
  fun w =>
    match resources w !! rid with
    | Some _ => (Returned tt, set_resources (delete rid) w)
    | None => (Threw (BadResource rid), w)
    end.

(** [Deno.listenDatagram(opts)]: the handle keeps the bound address.  [opts]
    stands for the address as Deno resolves it (a host name resolved, a
    port 0 replaced by the port the system chose), which is what
    [udpConn.addr] reports. *)
Record DatagramConn := { udp_rid : nat; udp_addr : NetAddr }.

Definition Deno_listenDatagram (opts : NetAddr) : M World DatagramConn :=
  fun w =>
    let rid := new_rid w in
    (Returned {| udp_rid := rid; udp_addr := opts |},
     {| resources := <[rid := RUdp {| queue := traffic w; sent := [] |}]>
                       (resources w);
        next_rid := Datatypes.S rid; heap := heap w; dials := dials w;
        traffic := []; connects := connects w |}).

(** [udpConn.send(msg, addr)] *)
Definition udp_send (u : DatagramConn) (msg : list Z) (to : NetAddr)
  : M World Z :=
  fun w =>
    match resources w !! udp_rid u with
    | Some (RUdp s) =>
        (Returned (Z.of_nat (length msg)),
         set_resources
           <[udp_rid u := RUdp {| queue := queue s;
                                  sent := sent s ++ [(msg, to)] |}]> w)
    | _ => (Threw (BadResource (udp_rid u)), w)
    end.

(** A typed array: a window on a buffer of the heap. *)
Record View := { buffer : nat; byteOffset : nat; byteLength : nat }.

Definition contents (w : World) (v : View) : list Z :=
  take (byteLength v) (drop (byteOffset v) (default [] (heap w !! buffer v))).

(** [v.subarray(begin)] *)
Definition subarray (v : View) (begin : Z) : View :=
  let b := Nat.min (Z.to_nat begin) (byteLength v) in
  {| buffer := buffer v; byteOffset := (byteOffset v + b)%nat;
     byteLength := (byteLength v - b)%nat |}.

(** [new Uint8Array(n)] *)
Definition new_Uint8Array (n : nat) : M World View :=
  fun w =>
    let l := fresh (dom (heap w)) in
    (Returned {| buffer := l; byteOffset := 0; byteLength := n |},
     set_heap <[l := replicate n 0]> w).

(** [udpConn.receive(buff)]: the next datagram is stored at the front of
    [buff], cut to its size; the call waits while none has arrived. *)
Definition udp_receive (u : DatagramConn) (buff : View)
  : M World (View * NetAddr) :=
  fun w =>
    match resources w !! udp_rid u with
    | Some (RUdp s) =>
        match queue s with
        | [] => (Pends, w)
        | (data, from) :: rest =>
            let old := default [] (heap w !! buffer buff) in
            let n := Nat.min (length data) (byteLength buff) in
            (Returned ({| buffer := buffer buff; byteOffset := byteOffset buff;
                          byteLength := n |}, from),
             set_heap
               <[buffer buff :=
                   take (byteOffset buff) old ++ take n data
                     ++ drop (byteOffset buff + n) old]>
               (set_resources
                  <[udp_rid u := RUdp {| queue := rest; sent := sent s |}]> w))
        end
    | _ => (Threw (BadResource (udp_rid u)), w)
    end.

(** ** client.ts: the [Client] class *)

Record ClientConfig := {
  cfg_hostname : jsstring;
  cfg_port : option Z;
  cfg_auth : option (jsstring * jsstring)
}.

(** The private [#config]: the port defaults to 1080. *)
Record Config := {
  proxy_hostname : jsstring;
  proxy_port : Z;
  proxy_auth : option (jsstring * jsstring)
}.

Definition Client (config : ClientConfig) : Config :=
  {| proxy_hostname := cfg_hostname config;
     proxy_port := default 1080 (cfg_port config);
     proxy_auth := cfg_auth config |}.

Record Request := {
  conn : nat;
  bound : Address
}.

(** [try { m } catch { }] *)
Definition ignoring {S} (m : M S unit) : M S unit :=
  try_catch m (fun _ => ret tt).

Definition connectAndRequest (config : Config) (cmd : Z)
  (hostname : jsstring) (port : Z) : M World Request :=
  let* conn := Deno_connect (proxy_hostname config) (proxy_port config) in
  (* handle auth negotiation *)
  let methods :=
    [AuthMethod.NoAuth]
      ++ match proxy_auth config with
         | Some _ => [AuthMethod.UsernamePassword]
         | None => []
         end in
  writeAll conn
    (Uint8Array_from
       (map Int ([SOCKS_VERSION; Z.of_nat (length methods)] ++ methods)));;
  let* reply := readN (conn_read conn) 2 in
  let negotiationVersion := reply !!! 0%nat in
  let method := reply !!! 1%nat in
  (if negb (negotiationVersion =? SOCKS_VERSION)
      || (method =? AuthMethod.NoneAcceptable)
   then
     ignoring (Deno_close conn);;
     throw
       (Error
          (if negb (negotiationVersion =? SOCKS_VERSION)
           then js "unsupported SOCKS version number: "
                  ++ toString negotiationVersion
           else js "no acceptable authentication methods"))
   else ret tt);;
  (if method =? AuthMethod.UsernamePassword then
     let username :=
       TextEncoder_encode
         match proxy_auth config with Some (u, _) => u | None => [] end in
     let password :=
       TextEncoder_encode
         match proxy_auth config with Some (_, p) => p | None => [] end in
     writeAll conn
       (Uint8Array_from
          (map Int
             ([USERNAME_PASSWORD_AUTH_VERSION; Z.of_nat (length username)]
                ++ username
                ++ [Z.of_nat (length password)]
                ++ password)));;
     let* reply := readN (conn_read conn) 2 in
     let authVersion := reply !!! 0%nat in
     let status := reply !!! 1%nat in
     if negb (authVersion =? USERNAME_PASSWORD_AUTH_VERSION)
        || negb (status =? ReplyStatus.Success)
     then
       ignoring (Deno_close conn);;
       throw
         (Error
            (if negb (authVersion =? USERNAME_PASSWORD_AUTH_VERSION)
             then js "unsupported authentication version number: "
                    ++ toString authVersion
             else js "authentication failed"))
     else ret tt
   else ret tt);;
  (* handle actual message *)
  writeAll conn
    (Uint8Array_from
       (map Int ([SOCKS_VERSION; cmd; 0] ++ serializeAddress hostname port)));;
  let* reply := readN (conn_read conn) 3 in
  let replyVersion := reply !!! 0%nat in
  let status := reply !!! 1%nat in
  (if negb (replyVersion =? SOCKS_VERSION)
      || negb (status =? ReplyStatus.Success)
   then
     ignoring (Deno_close conn);;
     throw
       (Error
          (if negb (replyVersion =? SOCKS_VERSION)
           then js "unsupported SOCKS version number: " ++ toString replyVersion
           else decodeError status))
   else ret tt);;
  let* a := deserializeAddress (conn_read conn) in
  ret {| conn := conn; bound := a |}.

(** [connect(opts)]: the tunnel is the control connection itself. *)
Record Tunnel := { tunnel : nat; localAddr : NetAddr; remoteAddr : NetAddr }.

Definition connect (config : Config) (opts_hostname : option jsstring)
  (opts_port : Z) : M World Tunnel :=
  let remoteAddr :=
    {| na_hostname := default (js "127.0.0.1") opts_hostname;
       na_port := opts_port; na_transport := "tcp" |} in
  let* r :=
    connectAndRequest config Command.Connect (na_hostname remoteAddr)
      (na_port remoteAddr) in
  ret {| tunnel := conn r;
         localAddr := {| na_hostname := hostname (bound r);
                         na_port := port (bound r); na_transport := "tcp" |};
         remoteAddr := remoteAddr |}.

(** *** [listenDatagram] *)

Record UdpProxyInfo := { tcpConn : nat; addr : NetAddr }.

(** The variables the returned object closes over.  [isReady] is the state
    of the promise: pending, fulfilled or rejected. *)
Record Relay := {
  udpConn : DatagramConn;
  proxyInfo : option UdpProxyInfo;
  isReady : Outcome unit
}.

Definition await {S A} (promise : Outcome A) : M S A := fun s => (promise, s).

(** [const close = (throwErr = false) => ...] *)
Definition close (r : Relay) (throwErr : bool) : M World unit :=
  let err : option exn := None in
  let* err :=
    try_catch
      (match proxyInfo r with
       | Some info => Deno_close (tcpConn info)
       | None => ret tt
       end;;
       ret err)
      (fun e => ret (Some e)) in
  let* err :=
    try_catch
      (Deno_close (udp_rid (udpConn r));;
       ret err)
      (fun e => ret (Some e)) in
  match err with
  | Some e => if throwErr then throw e else ret tt
  | None => ret tt
  end.

(** The body of the [isReady] promise. *)
Definition negotiate (config : Config) (r : Relay) : M World Relay :=
  try_catch
    (let localAddr := udp_addr (udpConn r) in
     let* q :=
       connectAndRequest config Command.UdpAssociate (na_hostname localAddr)
         (na_port localAddr) in
     ret {| udpConn := udpConn r;
            proxyInfo :=
              Some {| tcpConn := conn q;
                      addr := {| na_hostname := hostname (bound q);
                                 na_port := port (bound q);
                                 na_transport := "udp" |} |};
            isReady := isReady r |})
    (fun e => close r false;; throw e).

(** The task that closes the UDP connection when the TCP connection closes:
    it reads 1024 bytes at a time until a read yields [null] or fails. *)
Fixpoint watch (fuel : nat) (r : Relay) (c : nat) : M World unit :=
  match fuel with
  | O => pends
  | Datatypes.S fuel' =>
      let* val := try_catch (conn_read c 1024%nat) (fun _ => ret None) in
      match val with
      | None => close r false
      | Some _ => watch fuel' r c
      end
  end.

Definition listenDatagram (opts : NetAddr) : M World Relay :=
  let* udpConn := Deno_listenDatagram opts in
  ret {| udpConn := udpConn; proxyInfo := None; isReady := Pends |}.

(** [get addr()] *)
Definition get_addr (r : Relay) : NetAddr :=
  match proxyInfo r with
  | Some info => addr info
  | None => udp_addr (udpConn r)
  end.

Definition send (r : Relay) (p : list Z) (to : NetAddr) : M World Z :=
  (match proxyInfo r with
   | None => await (isReady r)
   | Some _ => ret tt
   end);;
  let serializedAddress := serializeAddress (na_hostname to) (na_port to) in
  let msg := replicate 3 0 ++ serializedAddress ++ p in
  match proxyInfo r with
  | Some info => udp_send (udpConn r) msg (addr info)
  | None => throw (Error (js "Cannot read properties of null (reading 'addr')"))
  end.

(** [res[0] || res[1] || res[2]]: a missing element is [undefined]. *)
Definition header_set (res : list Z) : bool :=
  negb (default 0 (res !! 0%nat) =? 0)
  || negb (default 0 (res !! 1%nat) =? 0)
  || negb (default 0 (res !! 2%nat) =? 0).

(** [receive(p)] calls itself after a datagram it ignores; [fuel] bounds the
    number of datagrams examined. *)
Fixpoint receive_fuel (fuel : nat) (r : Relay) (p : option View)
  : M World (View * NetAddr) :=
  match fuel with
  | O => pends
  | Datatypes.S fuel' =>
      (match proxyInfo r with
       | None => await (isReady r)
       | Some _ => ret tt
       end);;
      let* buff :=
        new_Uint8Array
          match p with
          | Some p => (byteLength p + 1024)%nat
          | None => 2048%nat
          end in
      let* (res, _) := udp_receive (udpConn r) buff in
      let* bytes := gets (fun w => contents w res) in
      (* if first two reserved bytes are not zero, or the fragment value is
         not zero, then ignore the datagram *)
      if header_set bytes then receive_fuel fuel' r p
      else
        let* a := await (decode (drop 3 bytes)) in
        ret (subarray res (3 + bytesRead a),
             {| na_hostname := hostname a; na_port := port a;
                na_transport := "udp" |})
  end.

(** The datagrams waiting on the socket. *)
Definition pending (u : DatagramConn) (w : World) : list (list Z * NetAddr) :=
  match resources w !! udp_rid u with
  | Some (RUdp s) => queue s
  | _ => []
  end.

(** Every call examines one datagram, and the call that finds none waits, so
    the calls never outnumber the waiting datagrams by more than one. *)
Definition receive (r : Relay) (p : option View) : M World (View * NetAddr) :=
  fun w => receive_fuel (Datatypes.S (length (pending (udpConn r) w))) r p w.

(** *** The event loop around one relay *)

(** What can happen to a relay: the negotiation started by [listenDatagram]
    settles, the application calls a method, or the watcher task runs.
    JavaScript runs one task at a time, and until [proxyInfo] is set nothing
    but the negotiation can reach the control connection, so the negotiation
    is run in one piece at the moment it settles. *)
Inductive Event :=
| Settles
| Calls_send (p : list Z) (to : NetAddr)
| Calls_receive (p : option View)
| Calls_close
| Watches (fuel : nat).

Definition step (config : Config) (ev : Event) (st : Relay * World)
  : Relay * World :=
  let '(r, w) := st in
  match ev with
  | Settles =>
      match isReady r with
      | Pends =>
          match negotiate config r w with
          | (Returned r', w') =>
              ({| udpConn := udpConn r'; proxyInfo := proxyInfo r';
                  isReady := Returned tt |}, w')
          | (Threw e, w') =>
              ({| udpConn := udpConn r; proxyInfo := proxyInfo r;
                  isReady := Threw e |}, w')
          | (Pends, w') => (r, w')
          end
      | _ => (r, w)
      end
  | Calls_send p to => (r, snd (send r p to w))
  | Calls_receive p => (r, snd (receive r p w))
  | Calls_close => (r, snd (close r true w))
  | Watches fuel =>
      match proxyInfo r with
      | Some info => (r, snd (watch fuel r (tcpConn info) w))
      | None => (r, w)
      end
  end.

Definition run (config : Config) (evs : list Event) (st : Relay * World)
  : Relay * World :=
  fold_left (fun st ev => step config ev st) evs st.

(** * The vocabulary of the properties *)

(** ** Status messages *)

(** The status table of the specification (section 4.3): the entry that
    each status byte stands for. *)
Module StatusTable.
Inductive entry :=
| Success
| GeneralFailure
| RulesetDenied
| NetworkUnreachable
| HostUnreachable
| ConnectionRefused
| TtlExpired
| CommandNotSupported
| AddressTypeNotSupported
| UnknownProxyError.

Definition lookup (status : Z) : entry :=
  if status =? 0 then Success
  else if status =? 1 then GeneralFailure
  else if status =? 2 then RulesetDenied
  else if status =? 3 then NetworkUnreachable
  else if status =? 4 then HostUnreachable
  else if status =? 5 then ConnectionRefused
  else if status =? 6 then TtlExpired
  else if status =? 7 then CommandNotSupported
  else if status =? 8 then AddressTypeNotSupported
  else UnknownProxyError.

(** The entry a message of [decodeError] announces. *)
Definition of_message (m : jsstring) : option entry :=
  if list_eqb m (js "general SOCKS server failure") then Some GeneralFailure
  else if list_eqb m (js "connection not allowed by ruleset") then
    Some RulesetDenied
  else if list_eqb m (js "Network unreachable") then Some NetworkUnreachable
  else if list_eqb m (js "Host unreachable") then Some HostUnreachable
  else if list_eqb m (js "Connection refused") then Some ConnectionRefused
  else if list_eqb m (js "TTL expired") then Some TtlExpired
  else if list_eqb m (js "Command not supported") then
    Some CommandNotSupported
  else if list_eqb m (js "Address type not supported") then
    Some AddressTypeNotSupported
  else if list_eqb m (js "unknown SOCKS error") then Some UnknownProxyError
  else None.
End StatusTable.

(** ** Strings and bytes *)

(** A well-formed JavaScript string: every code unit has 16 bits. *)
Definition wf_string (s : jsstring) : Prop := Forall (fun c => 0 <= c < 65536) s.

Definition is_byte (b : Z) : Prop := 0 <= b < 256.

Definition ascii_string (s : jsstring) : Prop := Forall (fun c => 0 <= c < 128) s.

(** A host of 256 letters [a]: a domain name one byte too long. *)
Definition long_domain : jsstring := replicate 256 (chr "a").

(** Every byte prints as one to three decimal digits that [Number] reads
    back. *)
Definition byte_prints (b : Z) : bool :=
  let s := toString b in
  forallb is_digit s && (1 <=? length s)%nat && (length s <=? 3)%nat
  && (ToUint8 (Number s) =? b).

(** ** Runs of a reader *)

Section runs.
Context {S : Type} (reader : Reader S).

(** Reading [k] more bytes from state [s]: the chunks the successive
    [read] calls deliver, how the run ends, and the final state. *)
Inductive drain : nat -> S -> list (list Z) -> Outcome unit -> S -> Prop :=
| drain_done s :
    drain 0 s [] (Returned tt) s
| drain_chunk k s c s1 cs o s2 :
    (0 < k)%nat ->
    reader k s = (Returned (Some c), s1) ->
    drain (k - length c) s1 cs o s2 ->
    drain k s (c :: cs) o s2
| drain_eof k s s1 :
    (0 < k)%nat ->
    reader k s = (Returned None, s1) ->
    drain k s [] (Threw (UnexpectedEof (eof_message (Z.of_nat k)))) s1
| drain_fail k s e s1 :
    (0 < k)%nat ->
    reader k s = (Threw e, s1) ->
    drain k s [] (Threw e) s1.

(** What [readN] makes of such a run. *)
Definition collected (cs : list (list Z)) (o : Outcome unit)
  : Outcome (list Z) :=
  match o with
  | Returned _ => Returned (concat cs)
  | Threw e => Threw e
  | Pends => Pends
  end.

(** The [Deno.Reader] contract: a read into a non-empty buffer settles,
    and when it delivers bytes there is at least one and no more than
    fit. *)
Definition honours_contract : Prop :=
  forall cap s,
    (0 < cap)%nat ->
    match reader cap s with
    | (Returned (Some c), _) => (0 < length c <= cap)%nat
    | (Pends, _) => False
    | _ => True
    end.

End runs.

(** ** Receiving *)

(** The size of the buffer [receive(p)] allocates. *)
Definition buffer_size (p : option View) : nat :=
  match p with
  | Some p => (byteLength p + 1024)%nat
  | None => 2048%nat
  end.

(** The world after a datagram [d] was received into a fresh buffer [l] of
    [size] bytes. *)
Definition arrived (u : DatagramConn) (l size : nat) (d : list Z)
  (rest : list (list Z * NetAddr)) (s : UdpSocket) (w : World) : World :=
  set_heap
    <[l := take (Nat.min (length d) size) d
             ++ drop (Nat.min (length d) size) (replicate size 0)]>
    (set_resources <[udp_rid u := RUdp {| queue := rest; sent := sent s |}]>
       (set_heap <[l := replicate size 0]> w)).

(** ** Counting connections *)

(** Code that finishes (returns or throws) and opens no connection, and
    code that opens none but may wait. *)
Definition quiet {A} (m : M World A) : Prop :=
  forall w, fst (m w) <> Pends /\ connects (snd (m w)) = connects w.

Definition keeps {A} (m : M World A) : Prop :=
  forall w, connects (snd (m w)) = connects w.

(** What the event loop maintains: while the promise is pending the
    negotiation has not been run, and once it has settled exactly one
    connection has been opened for the relay. *)
Definition single_flight (c0 : nat) (st : Relay * World) : Prop :=
  match isReady (fst st) with
  | Pends => proxyInfo (fst st) = None /\ connects (snd st) = c0
  | _ => connects (snd st) = Datatypes.S c0
  end.

(** ** Worlds for concrete runs *)

Definition demo_config : Config :=
  Client {| cfg_hostname := js "127.0.0.1"; cfg_port := None;
            cfg_auth := None |}.

Definition demo_opts : NetAddr :=
  {| na_hostname := js "0.0.0.0"; na_port := 2080; na_transport := "udp" |}.

Definition demo_peer : NetAddr :=
  {| na_hostname := js "127.0.0.1"; na_port := 2080; na_transport := "udp" |}.

(** A proxy that answers with SOCKS version 4, in two chunks. *)
Definition socks4_world : World :=
  {| resources := ∅; next_rid := 0; heap := ∅; dials := [Accepts [[4]; [0]]];
     traffic := []; connects := 0 |}.

(** A world in which nothing is open, and a relay whose resources were 1
    (control connection) and 2 (socket). *)
Definition closed_world : World :=
  {| resources := ∅; next_rid := 3; heap := ∅; dials := []; traffic := [];
     connects := 1 |}.

Definition demo_relay : Relay :=
  {| udpConn := {| udp_rid := 2;
                   udp_addr := {| na_hostname := js "0.0.0.0"; na_port := 2080;
                                  na_transport := "udp" |} |};
     proxyInfo := Some {| tcpConn := 1;
                          addr := {| na_hostname := js "127.0.0.1";
                                     na_port := 2080; na_transport := "udp" |} |};
     isReady := Returned tt |}.

(** A ready relay with two datagrams waiting: one with a reserved byte set,
    then payload [9; 9] from 1.2.3.4:1234.  The caller's buffer is buffer 0
    of the heap. *)
Definition flagged : list Z := [0; 1; 0; 1; 1; 2; 3; 4; 4; 210; 7; 7].

Definition valid : list Z := [0; 0; 0; 1; 1; 2; 3; 4; 4; 210; 9; 9].

Definition demo_socket : UdpSocket :=
  {| queue := [(flagged, demo_peer); (valid, demo_peer)]; sent := [] |}.

Definition ready_world : World :=
  {| resources := {[2%nat := RUdp demo_socket]}; next_rid := 3;
     heap := {[0%nat := [5; 5; 5]]}; dials := []; traffic := [];
     connects := 1 |}.

Definition caller_buffer : View :=
  {| buffer := 0; byteOffset := 0; byteLength := 3 |}.

(** A proxy that accepts the association. *)
Definition udp_proxy_world : World :=
  {| resources := ∅; next_rid := 0; heap := ∅;
     dials := [Accepts [[5; 0]; [5; 0; 0; 1; 127; 0; 0; 1; 8; 32]]];
     traffic := [(valid, demo_peer)]; connects := 0 |}.

(** The relay made by [listenDatagram] in that world. *)
Definition listening : Relay * World :=
  (match fst (listenDatagram demo_opts udp_proxy_world) with
   | Returned r0 => r0
   | _ => demo_relay
   end, snd (listenDatagram demo_opts udp_proxy_world)).

(** The same relay once the negotiation has settled and the watcher has
    seen the control connection end. *)
Definition after_watch : Relay * World :=
  run demo_config [Settles; Watches 2] listening.

(** ** Streams *)

(** The connection behind a resource id, the bytes it still delivers and
    the bytes written to it. *)
Definition conn_state (rid : nat) (w : World) : option TcpConn :=
  match resources w !! rid with
  | Some (RTcp c) => Some c
  | _ => None
  end.

Definition conn_stream (rid : nat) (w : World) : list Z :=
  match conn_state rid w with
  | Some c => concat (inbox c)
  | None => []
  end.

Definition conn_outbox (rid : nat) (w : World) : list Z :=
  match conn_state rid w with
  | Some c => outbox c
  | None => []
  end.

(** Two worlds that differ at most in the connection [rid], which is open in
    the second. *)
Definition only_conn (rid : nat) (w w' : World) : Prop :=
  exists c', w' = set_resources <[rid := RTcp c']> w.

Definition is_eof (e : exn) : Prop := exists message, e = UnexpectedEof message.

(** ** Dialling *)

(** The world once [Deno.connect] has been answered, the new connection
    apart: the call is counted, the answer is used up and the resource id
    is taken. *)
Definition dialed (w : World) (ds : list Dial) : World :=
  {| resources := resources w; next_rid := Datatypes.S (new_rid w);
     heap := heap w; dials := ds; traffic := traffic w;
     connects := Datatypes.S (connects w) |}.

(** ** Messages to the proxy *)

(** The greeting: version 5 and the methods offered, "no authentication"
    and, when the configuration has a user name, "username/password". *)
Definition greeting (config : Config) : list Z :=
  match proxy_auth config with
  | Some _ => [5; 2; 0; 2]
  | None => [5; 1; 0]
  end.

(** The message of the username/password method: version 1, then the user
    name and the password in UTF-8, each behind one byte for its length
    (which a [Uint8Array] keeps modulo 256). *)
Definition credentials (config : Config) : list Z :=
  let username :=
    TextEncoder_encode
      match proxy_auth config with Some (u, _) => u | None => [] end in
  let password :=
    TextEncoder_encode
      match proxy_auth config with Some (_, p) => p | None => [] end in
  [1; Z.of_nat (length username) mod 256] ++ username
    ++ [Z.of_nat (length password) mod 256] ++ password.

(** The request: version 5, the command, a reserved byte and the address. *)
Definition request (cmd : Z) (hostname : jsstring) (port : Z) : list Z :=
  [5; cmd; 0] ++ serializeAddress hostname port.

(** The strings of the configuration are JavaScript strings. *)
Definition wf_config (config : Config) : Prop :=
  match proxy_auth config with
  | Some (u, p) => wf_string u /\ wf_string p
  | None => True
  end.

(** ** Code confined to one resource *)

(** Two worlds that agree on the heap, on the datagrams under way and on
    every resource but [rid]. *)
Definition elsewhere (rid : nat) (w w' : World) : Prop :=
  heap w' = heap w
  /\ traffic w' = traffic w
  /\ forall rid', rid' <> rid -> resources w' !! rid' = resources w !! rid'.

Definition confined {A} (rid : nat) (m : M World A) : Prop :=
  forall w, elsewhere rid w (snd (m w)).

(** ** Hosts *)

(** A group of one to four hexadecimal digits. *)
Definition hex_group_ok (g : jsstring) : Prop :=
  forallb is_hex_digit g = true /\ (1 <= length g <= 4)%nat.

(** * Properties *)

(** ** Status messages *)

(** C8, as stated, fails at status 0: [decodeError] has no case for
    [ReplyStatus.Success], so 0 gets the generic message, the one a byte
    outside the table gets, and not an entry of its own. *)
Lemma decodeError_success_is_generic :
  decodeError ReplyStatus.Success = js "unknown SOCKS error"
  /\ decodeError ReplyStatus.Success = decodeError 255
  /\ StatusTable.of_message (decodeError 0) <> Some (StatusTable.lookup 0).
Proof. repeat split; vm_compute; congruence. Qed.

(** C8 (amended): for the eight failure codes 1-8 the message of
    [decodeError] is the one of the table entry of that code, and every
    other status, 0 included, gets the generic unknown-error message. *)
Theorem decodeError_table (status : Z) :
  (1 <= status <= 8 ->
   StatusTable.of_message (decodeError status)
     = Some (StatusTable.lookup status)
   /\ decodeError status <> js "unknown SOCKS error")
  /\ (~ 1 <= status <= 8 -> decodeError status = js "unknown SOCKS error").
Proof.
  split.
  - intros H.
    assert (status = 1 \/ status = 2 \/ status = 3 \/ status = 4
            \/ status = 5 \/ status = 6 \/ status = 7 \/ status = 8)
      as Hcases by lia.
    repeat (destruct Hcases as [-> | Hcases]); try subst status;
      (split; [vm_compute; reflexivity | vm_compute; discriminate]).
  - intros H. unfold decodeError.
    repeat match goal with
           | |- context [?a =? ?b] =>
               destruct (Z.eqb_spec a b) as [E | _];
               [exfalso; vm_compute in E; lia |]
           end.
    reflexivity.
Qed.

Lemma decodeError_table_witness :
  (StatusTable.of_message (decodeError 5) = Some (StatusTable.lookup 5)
   /\ decodeError 5 <> js "unknown SOCKS error")
  /\ decodeError 9 = js "unknown SOCKS error".
Proof.
  split.
  - apply (proj1 (decodeError_table 5)). lia.
  - apply (proj2 (decodeError_table 9)). lia.
Defined.

(** ** The address codec: encoding *)

Lemma ToUint8_Int (z : Z) : ToUint8 (Int z) = z mod 256.
Proof. unfold ToUint8, Int, trunc. simpl. f_equal. lia. Qed.

Lemma ToUint8_byte (b : Z) : is_byte b -> ToUint8 (Int b) = b.
Proof. intros H. rewrite ToUint8_Int. apply Z.mod_small, H. Qed.

Lemma Uint8Array_from_bytes (bs : list Z) :
  Forall is_byte bs -> Uint8Array_from (map Int bs) = bs.
Proof.
  unfold Uint8Array_from. induction 1 as [|b bs Hb _ IH]; cbn [map]; [done |].
  by rewrite ToUint8_byte, IH.
Qed.

Lemma lor_bound (n a b : Z) :
  0 <= n -> 0 <= a < 2 ^ n -> 0 <= b < 2 ^ n -> 0 <= Z.lor a b < 2 ^ n.
Proof.
  intros Hn Ha Hb.
  assert (0 <= Z.lor a b) as H0 by (apply Z.lor_nonneg; lia).
  split; [done |].
  destruct (Z.eq_dec (Z.lor a b) 0) as [-> | Hne]; [lia |].
  apply Z.log2_lt_pow2; [lia |].
  rewrite Z.log2_lor by lia.
  destruct (Z.eq_dec a 0) as [-> | Ha0], (Z.eq_dec b 0) as [-> | Hb0];
    try (rewrite Z.lor_0_l in Hne); try (rewrite Z.lor_0_r in Hne);
    try done.
  - rewrite Z.max_r by (apply Z.log2_nonneg). apply Z.log2_lt_pow2; lia.
  - rewrite Z.max_l by (apply Z.log2_nonneg). apply Z.log2_lt_pow2; lia.
  - apply Z.max_lub_lt; apply Z.log2_lt_pow2; lia.
Qed.

Lemma land_63 (a : Z) : 0 <= Z.land a 63 < 64.
Proof. change 63 with (Z.ones 6). rewrite Z.land_ones by lia. apply Z.mod_pos_bound. lia. Qed.

Lemma continuation_byte (a : Z) : is_byte (Z.lor 128 (Z.land a 63)).
Proof.
  pose proof (land_63 a). apply (lor_bound 8); lia.
Qed.

Lemma lead_byte (tag cp k : Z) :
  0 <= k -> 0 <= tag < 256 -> 0 <= cp < 256 * 2 ^ k ->
  is_byte (Z.lor tag (Z.shiftr cp k)).
Proof.
  intros Hk Htag Hcp. apply (lor_bound 8); try lia.
  rewrite Z.shiftr_div_pow2 by lia.
  split; [apply Z.div_pos; lia | apply Z.div_lt_upper_bound; lia].
Qed.

Lemma utf8_encode_code_point_bytes (cp : Z) :
  0 <= cp < 1114112 -> Forall is_byte (utf8_encode_code_point cp).
Proof.
  intros H. unfold utf8_encode_code_point.
  repeat case_match;
    repeat apply Forall_cons_2; try apply Forall_nil_2;
    try apply continuation_byte; try (apply lead_byte; lia).
  unfold is_byte. lia.
Qed.

Lemma code_points_range (s : jsstring) :
  wf_string s -> Forall (fun cp => 0 <= cp < 1114112) (code_points s).
Proof.
  remember (length s) as n eqn:Hn.
  revert s Hn. induction (lt_wf n) as [n _ IH]. intros s -> Hs.
  destruct s as [|c s]; simpl; [constructor |].
  inversion Hs as [|? ? Hc Hs']; subst.
  assert (Forall (fun cp => 0 <= cp < 1114112) (code_points s)) as Htail.
  { apply (IH (length s)); simpl; [lia | done | done]. }
  destruct (is_high_surrogate c) eqn:Hhi.
  - destruct s as [|d s]; [repeat constructor; lia |].
    inversion Hs' as [|? ? Hd Hs'']; subst.
    destruct (is_low_surrogate d) eqn:Hlo.
    + constructor.
      * unfold is_high_surrogate, is_low_surrogate in *. lia.
      * apply (IH (length s)); simpl; [lia | done | done].
    + constructor; [lia | done].
  - destruct (is_low_surrogate c); constructor; try lia; done.
Qed.

Lemma TextEncoder_encode_bytes (s : jsstring) :
  wf_string s -> Forall is_byte (TextEncoder_encode s).
Proof.
  intros Hs. unfold TextEncoder_encode.
  induction (code_points_range s Hs) as [|cp cps Hcp _ IH]; simpl.
  - constructor.
  - apply Forall_app. split; [by apply utf8_encode_code_point_bytes | done].
Qed.

(** The two port bytes of a 16-bit port: high byte, low byte. *)
Lemma portBytes_uint16 (port : Z) :
  0 <= port < 65536 ->
  Uint8Array_from (portBytes port) = [port / 256; port mod 256].
Proof.
  intros H.
  assert (ToInt32 (Int port) = port) as H32.
  { unfold ToInt32, Int, trunc. change (0 <=? 0) with true. cbv iota.
    rewrite Z.pow_0_r, Z.mul_1_r. change (2 ^ 31) with 2147483648.
    change (2 ^ 32) with 4294967296. rewrite Z.mod_small; lia. }
  assert (rem (Int port) 256 = Int (port mod 256)) as Hrem.
  { unfold rem, Int. change (0 <=? 0) with true. cbv iota.
    rewrite Z.pow_0_r, Z.mul_1_r, Z.rem_mod_nonneg by lia. reflexivity. }
  unfold Uint8Array_from, portBytes, shr. rewrite H32, Hrem.
  cbn [map]. rewrite !ToUint8_Int.
  rewrite Z.shiftr_div_pow2 by lia. change (2 ^ 8) with 256.
  f_equal; [| f_equal].
  - apply Z.mod_small. split; [apply Z.div_pos; lia |].
    apply Z.div_lt_upper_bound; lia.
  - apply Z.mod_small. apply Z.mod_pos_bound. lia.
Qed.

(** C2, as stated, fails: the 256-byte domain name is encoded, with the
    length byte wrapped to 0, and no error is raised. *)
Lemma serializeAddress_long_domain_wraps :
  v4Pattern long_domain = false
  /\ v6Pattern long_domain = false
  /\ length (TextEncoder_encode long_domain) = 256%nat
  /\ serializeAddress long_domain 80
     = [AddrType.DomainName; 0] ++ replicate 256 (chr "a") ++ [0; 80].
Proof. repeat split; vm_compute; reflexivity. Qed.

(** The bytes of a host that neither pattern takes. *)
Lemma serializeAddress_domain_bytes (hostname : jsstring) (port : Z) :
  wf_string hostname ->
  v4Pattern hostname = false ->
  v6Pattern hostname = false ->
  serializeAddress hostname port
  = [AddrType.DomainName;
     Z.of_nat (length (TextEncoder_encode hostname)) mod 256]
      ++ TextEncoder_encode hostname ++ Uint8Array_from (portBytes port).
Proof.
  intros Hwf H4 H6.
  unfold serializeAddress. rewrite H4, H6.
  unfold Uint8Array_from. rewrite !map_app. cbn [map app].
  rewrite !ToUint8_Int. f_equal. f_equal. f_equal.
  apply (Uint8Array_from_bytes (TextEncoder_encode hostname)).
  apply TextEncoder_encode_bytes, Hwf.
Qed.

(** C2 (amended): for every host classified as a domain name, whatever its
    length, [serializeAddress] returns (it has no failure path): the type
    byte 3, one length byte holding the UTF-8 length modulo 256, all the
    UTF-8 bytes and the two port bytes.  The length byte is the true length
    exactly when that is at most 255. *)
Theorem serializeAddress_domain (hostname : jsstring) (port : Z) :
  wf_string hostname ->
  v4Pattern hostname = false ->
  v6Pattern hostname = false ->
  let bytes := TextEncoder_encode hostname in
  serializeAddress hostname port
  = [AddrType.DomainName; Z.of_nat (length bytes) mod 256]
      ++ bytes ++ Uint8Array_from (portBytes port)
  /\ (Z.of_nat (length bytes) mod 256 = Z.of_nat (length bytes)
      <-> (length bytes <= 255)%nat).
Proof.
  intros Hwf H4 H6 bytes. split.
  - by apply serializeAddress_domain_bytes.
  - split.
    + intros H. pose proof (Z.mod_pos_bound (Z.of_nat (length bytes)) 256). lia.
    + intros H. apply Z.mod_small. lia.
Qed.

Lemma serializeAddress_domain_witness :
  serializeAddress (js "example.com") 3106
  = [AddrType.DomainName; 11 mod 256]
      ++ js "example.com" ++ Uint8Array_from (portBytes 3106).
Proof.
  apply (serializeAddress_domain (js "example.com") 3106).
  - unfold wf_string. vm_compute. repeat constructor; discriminate.
  - vm_compute. reflexivity.
  - vm_compute. reflexivity.
Defined.

(** C3: the IPv4 pattern has no end anchor (the IPv6 pattern has one), so
    ["1.2.3.4.5"] is taken for a dotted quad and encoded with five address
    bytes. *)
Theorem serializeAddress_v4_five_octets :
  v4Pattern (js "1.2.3.4.5") = true
  /\ serializeAddress (js "1.2.3.4.5") 80
     = [AddrType.IPv4; 1; 2; 3; 4; 5; 0; 80].
Proof. split; vm_compute; reflexivity. Qed.

(** What holds for every host the pattern accepts: one address byte for
    each piece between dots, however many there are. *)
Lemma serializeAddress_v4 (hostname : jsstring) (port : Z) :
  v4Pattern hostname = true ->
  serializeAddress hostname port
  = AddrType.IPv4
      :: map (fun x => ToUint8 (Number x)) (split (chr ".") hostname)
      ++ Uint8Array_from (portBytes port).
Proof.
  intros H. unfold serializeAddress. rewrite H.
  unfold Uint8Array_from. rewrite !map_app, map_map. reflexivity.
Qed.

(** ** The address codec: decoding what was encoded *)

(** C1: an IPv6 host does not survive the round trip.  The encoder reads the
    groups in base 16, the decoder prints them with [String], in base 10. *)
Theorem roundtrip_ipv6_decimal :
  decode (serializeAddress (js "102:304:506:708:90a:b0c:d0e:f10") 5678)
  = Returned {| hostname := js "258:772:1286:1800:2314:2828:3342:3856";
                port := 5678; bytesRead := 19 |}
  /\ js "258:772:1286:1800:2314:2828:3342:3856"
     <> js "102:304:506:708:90a:b0c:d0e:f10".
Proof. split; [vm_compute; reflexivity | vm_compute; discriminate]. Qed.

(** The other two kinds do come back, as in the tests of the repository. *)
Example roundtrip_ipv4_example :
  decode (serializeAddress (js "1.2.3.4") 1234)
  = Returned {| hostname := js "1.2.3.4"; port := 1234; bytesRead := 7 |}.
Proof. vm_compute. reflexivity. Qed.

Example roundtrip_domain_example :
  decode (serializeAddress (js "example.com") 3106)
  = Returned {| hostname := js "example.com"; port := 3106; bytesRead := 15 |}.
Proof. vm_compute. reflexivity. Qed.

(** ** [readN] *)

Lemma fill_length (out : list Z) (nRead : nat) (chunk : list Z) :
  (nRead + length chunk <= length out)%nat ->
  length (fill out nRead chunk) = length out.
Proof.
  intros H. unfold fill.
  rewrite !length_app, !length_take, length_drop. lia.
Qed.

Lemma fill_take (out : list Z) (nRead : nat) (chunk : list Z) :
  (nRead + length chunk <= length out)%nat ->
  take (nRead + length chunk) (fill out nRead chunk) = take nRead out ++ chunk.
Proof.
  intros H. unfold fill.
  rewrite (take_ge chunk) by lia.
  rewrite app_assoc, take_app_length'; [done |].
  rewrite length_app, length_take. lia.
Qed.

Section readN_spec.
Context {S : Type} (reader : Reader S).

(** More fuel does not change a run that finished. *)
Lemma readN_loop_more_fuel (fuel fuel' n : nat) out nRead s :
  (fuel <= fuel')%nat ->
  fst (readN_loop reader fuel n out nRead s) <> Pends ->
  readN_loop reader fuel' n out nRead s = readN_loop reader fuel n out nRead s.
Proof.
  revert fuel' out nRead s.
  induction fuel as [|fuel IH]; intros fuel' out nRead s Hle Hfin.
  - destruct fuel'; simpl in *; destruct (nRead <? n)%nat; done.
  - destruct fuel' as [|fuel']; [lia |].
    simpl in *. destruct (nRead <? n)%nat; [| done].
    unfold bind in *. destruct (reader (n - nRead)%nat s) as [[[c|]|e|] s1]; try done.
    apply IH; [lia | done].
Qed.

Hypothesis contract : honours_contract reader.

Lemma readN_loop_spec (fuel n : nat) out nRead s :
  length out = n -> (nRead <= n)%nat -> (n - nRead <= fuel)%nat ->
  exists cs o s',
    drain reader (n - nRead) s cs o s'
    /\ readN_loop reader fuel n out nRead s
       = (match o with
          | Returned _ => Returned (take nRead out ++ concat cs)
          | Threw e => Threw e
          | Pends => Pends
          end, s')
    /\ match o with
       | Returned _ => length (concat cs) = (n - nRead)%nat
       | Threw _ => (length (concat cs) < n - nRead)%nat
       | Pends => False
       end.
Proof.
  revert out nRead s.
  induction fuel as [|fuel IH]; intros out nRead s Hout Hle Hfuel.
  - assert (nRead = n) as -> by lia.
    exists [], (Returned tt), s. rewrite Nat.sub_diag. simpl.
    rewrite Nat.ltb_irrefl, app_nil_r, <- Hout, take_ge by lia.
    repeat split. constructor.
  - simpl. destruct (Nat.ltb_spec nRead n) as [Hlt | Hge].
    + unfold bind. pose proof (contract (n - nRead)%nat s ltac:(lia)) as Hc.
      destruct (reader (n - nRead)%nat s) as [[[c|]|e|] s1] eqn:Hr; try done.
      * destruct (IH (fill out nRead c) (nRead + length c)%nat s1)
          as (cs & o & s' & Hd & Hrun & Hlen).
        { rewrite fill_length; lia. }
        { lia. }
        { lia. }
        exists (c :: cs), o, s'. split; [| split].
        -- eapply drain_chunk; [lia | done |].
           by replace (n - nRead - length c)%nat
             with (n - (nRead + length c))%nat by lia.
        -- rewrite Hrun. destruct o; [| done | done].
           rewrite fill_take by lia. simpl. by rewrite <- app_assoc.
        -- destruct o; simpl; rewrite ?length_app; lia.
      * exists [], (Threw (UnexpectedEof (eof_message (Z.of_nat (n - nRead))))), s1.
        split; [| split].
        -- by apply drain_eof; [lia |].
        -- unfold throw. by rewrite Nat2Z.inj_sub by lia.
        -- simpl. lia.
      * exists [], (Threw e), s1. split; [| split].
        -- by apply drain_fail; [lia |].
        -- done.
        -- simpl. lia.
    + assert (nRead = n) as -> by lia.
      exists [], (Returned tt), s. rewrite Nat.sub_diag. simpl.
      rewrite app_nil_r, <- Hout, take_ge by lia.
      repeat split. constructor.
Qed.

Lemma readN_fuel_spec (fuel n : nat) s :
  (n <= fuel)%nat ->
  exists cs o s',
    drain reader n s cs o s'
    /\ readN_fuel reader fuel n s = (collected cs o, s')
    /\ match o with
       | Returned _ => length (concat cs) = n
       | Threw _ => (length (concat cs) < n)%nat
       | Pends => False
       end.
Proof.
  intros Hfuel. unfold readN_fuel.
  destruct (readN_loop_spec fuel n (replicate n 0) 0%nat s)
    as (cs & o & s' & Hd & Hrun & Hlen);
    [by rewrite length_replicate | lia | lia |].
  rewrite Nat.sub_0_r in *.
  exists cs, o, s'. split; [done |]. split; [| done].
  rewrite Hrun. by destruct o.
Qed.

Lemma readN_fuel_enough (fuel n : nat) s :
  (n <= fuel)%nat -> readN_fuel reader fuel n s = readN reader n s.
Proof.
  intros Hfuel. unfold readN, readN_fuel.
  apply readN_loop_more_fuel; [done |].
  destruct (readN_loop_spec n n (replicate n 0) 0%nat s)
    as (cs & o & s' & _ & Hrun & Hlen);
    [by rewrite length_replicate | lia | lia |].
  rewrite Hrun. by destruct o.
Qed.

(** C6: with a reader that honours the contract of [Deno.Reader],
    [readN reader n] always finishes, after at most [n] partial reads (more
    fuel changes nothing).  It returns exactly [n] bytes, the chunks read
    one after the other, or it throws: [UnexpectedEof] when a read meets
    the end of the stream before [n] bytes are there, or the error of the
    read that failed.  A shorter buffer is never returned. *)
Theorem readN_exact (n : nat) s :
  (exists cs o s',
      drain reader n s cs o s'
      /\ readN reader n s = (collected cs o, s')
      /\ match o with
         | Returned _ => length (concat cs) = n
         | Threw _ => (length (concat cs) < n)%nat
         | Pends => False
         end)
  /\ (forall out s', readN reader n s = (Returned out, s') -> length out = n)
  /\ (forall fuel, (n <= fuel)%nat ->
                   readN_fuel reader fuel n s = readN reader n s).
Proof.
  destruct (readN_fuel_spec n n s) as (cs & o & s' & Hd & Hrun & Hlen);
    [done |].
  split; [| split].
  - by exists cs, o, s'.
  - intros out s'' Hout. unfold readN in Hout. rewrite Hrun in Hout.
    destruct o; simpl in Hout; inversion Hout; by subst.
  - intros fuel Hfuel. by apply readN_fuel_enough.
Qed.
End readN_spec.

(** The reader over a typed array honours the contract. *)
Lemma ArrayReader_contract : honours_contract ArrayReader_read.
Proof.
  intros cap r Hcap. unfold ArrayReader_read.
  destruct (Nat.leb_spec (length (arr r)) (offset r)); [done |].
  rewrite length_take, length_drop. lia.
Qed.

Lemma readN_exact_witness :
  exists cs o s',
    drain ArrayReader_read 3 (uint8ArrayToReader [1; 2; 3; 4]) cs o s'
    /\ readN ArrayReader_read 3 (uint8ArrayToReader [1; 2; 3; 4])
       = (collected cs o, s')
    /\ match o with
       | Returned _ => length (concat cs) = 3%nat
       | Threw _ => (length (concat cs) < 3)%nat
       | Pends => False
       end.
Proof.
  exact (proj1 (readN_exact ArrayReader_read ArrayReader_contract 3
                  (uint8ArrayToReader [1; 2; 3; 4]))).
Defined.

(** ** Closing a relay *)

(** C4, as stated, fails.  After the proxy has closed the control
    connection and the watcher has closed both resources, [close()] makes
    its two attempts: the first error met is the one of the control
    connection (resource 1), and the one raised is the socket's
    (resource 0), met second. *)
Lemma close_raises_second_error :
  tcpConn <$> proxyInfo (fst after_watch) = Some 1%nat
  /\ udp_rid (udpConn (fst after_watch)) = 0%nat
  /\ fst (Deno_close 1 (snd after_watch)) = Threw (BadResource 1)
  /\ fst (Deno_close 0 (snd after_watch)) = Threw (BadResource 0)
  /\ fst (close (fst after_watch) true (snd after_watch))
     = Threw (BadResource 0).
Proof. repeat split; vm_compute; reflexivity. Qed.

(** C4 (amended): [close()] attempts to close the control connection, when
    there is one, and then the local socket, whether or not the first
    attempt threw; when at least one attempt throws it raises, after both,
    the error of the last attempt that threw (the socket's when both do).
    Neither resource is open afterwards. *)
Theorem close_attempts_both (r : Relay) (w : World) :
  let first :=
    match proxyInfo r with
    | Some info => Deno_close (tcpConn info) w
    | None => (Returned tt, w)
    end in
  let second := Deno_close (udp_rid (udpConn r)) (snd first) in
  close r true w
  = (match fst second, fst first with
     | Threw e2, _ => Threw e2
     | _, Threw e1 => Threw e1
     | _, _ => Returned tt
     end, snd second)
  /\ resources (snd second) !! udp_rid (udpConn r) = None
  /\ (forall info, proxyInfo r = Some info ->
                   resources (snd second) !! tcpConn info = None).
Proof.
  unfold close, bind, try_catch, ret, throw, Deno_close.
  destruct (proxyInfo r) as [info |]; simpl.
  - destruct (resources w !! tcpConn info) eqn:Ht; simpl.
    + destruct (delete (tcpConn info) (resources w) !! udp_rid (udpConn r))
        eqn:Hu; simpl; rewrite ?Hu; simpl.
      * split; [done |]. split; [apply lookup_delete_eq |].
        intros ? [= <-]. rewrite lookup_delete_ne; [apply lookup_delete_eq |].
        intros E. rewrite E, lookup_delete_eq in Hu. done.
      * split; [done |]. split; [done |].
        intros ? [= <-]. apply lookup_delete_eq.
    + destruct (resources w !! udp_rid (udpConn r)) eqn:Hu; simpl; rewrite ?Hu; simpl.
      * split; [done |]. split; [apply lookup_delete_eq |].
        intros ? [= <-]. destruct (decide (tcpConn info = udp_rid (udpConn r))) as [E | E].
        -- rewrite E. apply lookup_delete_eq.
        -- rewrite lookup_delete_ne; done.
      * split; [done |]. split; [done |]. by intros ? [= <-].
  - destruct (resources w !! udp_rid (udpConn r)) eqn:Hu; simpl; rewrite ?Hu; simpl.
    + split; [done |]. split; [apply lookup_delete_eq | done].
    + split; [done |]. split; done.
Qed.

(** The cleanup on the failure path, [close()] with [throwErr] false, makes
    the same two attempts and swallows their errors. *)
Lemma close_quiet (r : Relay) (w : World) :
  fst (close r false w) = Returned tt
  /\ snd (close r false w) = snd (close r true w).
Proof.
  unfold close, bind, try_catch, ret, throw, Deno_close.
  destruct (proxyInfo r) as [info |]; simpl;
    repeat (case_match; simpl in *; simplify_eq; try done).
Qed.

(** ** The control connection as a reader *)

Lemma set_resources_id (w : World) : set_resources (fun m => m) w = w.
Proof. by destruct w. Qed.

Lemma set_resources_compose f g (w : World) :
  set_resources f (set_resources g w) = set_resources (fun m => f (g m)) w.
Proof. by destruct w. Qed.

Lemma next_chunk_spec (cap : nat) (chunks : list (list Z)) :
  (0 < cap)%nat ->
  match next_chunk cap chunks with
  | Some (c, rest) =>
      (0 < length c <= cap)%nat /\ concat chunks = c ++ concat rest
  | None => concat chunks = []
  end.
Proof.
  intros Hcap. induction chunks as [|[|b bs] chunks IH]; simpl; [done | done |].
  split.
  - destruct cap; [lia |]. simpl. rewrite length_take. lia.
  - destruct cap as [|cap]; [lia |]. simpl.
    destruct (drop cap bs) as [|x more] eqn:Hd; simpl.
    + rewrite <- (take_drop cap bs) at 1. by rewrite Hd, app_nil_r.
    + rewrite <- (take_drop cap bs) at 1. by rewrite Hd, <- app_assoc.
Qed.

Lemma conn_contract (rid : nat) : honours_contract (conn_read rid).
Proof.
  intros cap w Hcap. unfold conn_read.
  destruct (resources w !! rid) as [[c | u] |]; try done.
  pose proof (next_chunk_spec cap (inbox c) Hcap) as H.
  destruct (next_chunk cap (inbox c)) as [[chunk rest] |]; [apply H | done].
Qed.

(** What a run of reads on an open connection delivers is a prefix of the
    stream; the rest stays in the connection, and nothing else in the world
    changes.  The run fails only at the end of the stream. *)
Lemma conn_drain (rid k : nat) w cs o w' :
  drain (conn_read rid) k w cs o w' ->
  forall c, resources w !! rid = Some (RTcp c) ->
  exists c',
    w' = set_resources <[rid := RTcp c']> w
    /\ outbox c' = outbox c
    /\ concat (inbox c) = concat cs ++ concat (inbox c')
    /\ match o with
       | Threw e =>
           e = UnexpectedEof (eof_message (Z.of_nat (k - length (concat cs))))
           /\ concat (inbox c') = []
       | _ => True
       end.
Proof.
  induction 1 as [w | k w ch w1 cs o w2 Hk Hr Hd IH | k w w1 Hk Hr | k w e w1 Hk Hr];
    intros c Hc.
  - exists c. split; [| done].
    rewrite <- (set_resources_id w) at 1. destruct w; unfold set_resources; simpl in *.
    f_equal. by rewrite insert_id.
  - unfold conn_read in Hr. rewrite Hc in Hr.
    pose proof (next_chunk_spec k (inbox c) Hk) as Hn.
    destruct (next_chunk k (inbox c)) as [[chunk rest] |]; [| done].
    injection Hr as <- <-. destruct Hn as [Hlen Hcat].
    destruct (IH {| inbox := rest; outbox := outbox c |}) as (c' & -> & Hout & Hcat' & Ho).
    { simpl. apply lookup_insert_eq. }
    exists c'. split; [| split; [done | split]].
    + rewrite set_resources_compose. destruct w; unfold set_resources; simpl.
      f_equal. apply insert_insert_eq.
    + simpl in *. by rewrite Hcat, Hcat', app_assoc.
    + destruct o; try done. destruct Ho as [-> Hnil]. split; [| done].
      simpl. rewrite length_app. do 3 f_equal. lia.
  - unfold conn_read in Hr. rewrite Hc in Hr.
    pose proof (next_chunk_spec k (inbox c) Hk) as Hn.
    destruct (next_chunk k (inbox c)) as [[chunk rest] |]; [done |].
    injection Hr as <-.
    exists {| inbox := []; outbox := outbox c |}. simpl.
    rewrite Nat.sub_0_r. done.
  - unfold conn_read in Hr. rewrite Hc in Hr.
    destruct (next_chunk k (inbox c)) as [[chunk rest] |]; done.
Qed.

(** [readN] on an open connection that still delivers [n] bytes returns
    them, however they arrive in chunks. *)
Lemma conn_readN (rid n : nat) w c :
  resources w !! rid = Some (RTcp c) ->
  (n <= length (concat (inbox c)))%nat ->
  exists c',
    readN (conn_read rid) n w
    = (Returned (take n (concat (inbox c))),
       set_resources <[rid := RTcp c']> w)
    /\ outbox c' = outbox c
    /\ concat (inbox c') = drop n (concat (inbox c)).
Proof.
  intros Hc Hn.
  destruct (readN_fuel_spec (conn_read rid) (conn_contract rid) n n w)
    as (cs & o & w' & Hd & Hrun & Hlen); [done |].
  destruct (conn_drain rid n w cs o w' Hd c Hc) as (c' & -> & Hout & Hcat & Ho).
  exists c'. unfold readN. rewrite Hrun.
  destruct o as [[] | e |]; [| | done].
  - simpl. rewrite Hcat, <- Hlen.
    by rewrite take_app_length, drop_app_length.
  - destruct Ho as [_ Hnil]. rewrite Hcat, Hnil, app_nil_r in Hn. lia.
Qed.

(** ** Running monadic code step by step *)

Lemma bind_Returned {S A B} (m : M S A) (k : A -> M S B) s a s' :
  m s = (Returned a, s') -> bind m k s = k a s'.
Proof. unfold bind. by intros ->. Qed.

Lemma bind_Threw {S A B} (m : M S A) (k : A -> M S B) s e s' :
  m s = (Threw e, s') -> bind m k s = (Threw e, s').
Proof. unfold bind. by intros ->. Qed.

Lemma bind_Pends {S A B} (m : M S A) (k : A -> M S B) s s' :
  m s = (Pends, s') -> bind m k s = (Pends, s').
Proof. unfold bind. by intros ->. Qed.

(** [try { conn.close() } catch { }] followed by [throw e]: the error of a
    failed close is swallowed, [e] is what propagates, and the connection is
    not in the resource table afterwards. *)
Lemma ignoring_close_then_throw {A} (c : nat) (e : exn) (w : World) :
  (ignoring (Deno_close c);; throw e) w
  = (@Threw A e, set_resources (delete c) w).
Proof.
  unfold bind, ignoring, try_catch, Deno_close, throw, ret.
  destruct (resources w !! c) eqn:Hc; [done |].
  f_equal. destruct w; unfold set_resources; simpl in *.
  f_equal. symmetry. by apply delete_id.
Qed.

(** ** Method negotiation *)

(** C7: when the proxy answers the method negotiation with a version byte
    other than 5, [#connectAndRequest] throws "unsupported SOCKS version
    number: <version>", and when it answers version 5 with method 0xFF, it
    throws "no acceptable authentication methods".  In both cases the
    connection it opened has been closed before the error propagates: the
    resource table is what it was before the call.  An error of that
    [close()] would be swallowed and the same error thrown. *)
Theorem negotiation_rejected (config : Config) (cmd : Z) (hostname : jsstring)
    (port : Z) (w : World) script ds (version method : Z) rest :
  dials w = Accepts script :: ds ->
  concat script = version :: method :: rest ->
  version <> SOCKS_VERSION \/ method = AuthMethod.NoneAcceptable ->
  (exists w',
      connectAndRequest config cmd hostname port w
      = (Threw
           (Error
              (if negb (version =? SOCKS_VERSION)
               then js "unsupported SOCKS version number: " ++ toString version
               else js "no acceptable authentication methods")), w')
      /\ resources w' = resources w
      /\ heap w' = heap w
      /\ connects w' = Datatypes.S (connects w))
  /\ (forall c e w0,
         (ignoring (Deno_close c);; throw e) w0
         = (@Threw unit e, set_resources (delete c) w0)).
Proof.
  intros Hdial Hscript Hbad. split; [| intros; apply ignoring_close_then_throw].
  set (rid := new_rid w).
  assert (resources w !! rid = None) as Hfresh.
  { apply not_elem_of_dom. intros Hin.
    apply (is_fresh (dom (resources w) ∪ (set_seq 0 (next_rid w) : gset nat))).
    apply elem_of_union. by left. }
  unfold connectAndRequest.
  erewrite bind_Returned; [| unfold Deno_connect; rewrite Hdial; reflexivity].
  fold rid.
  erewrite bind_Returned;
    [| unfold writeAll; cbn [resources]; rewrite lookup_insert_eq; reflexivity].
  match goal with
  | |- exists _, bind _ _ ?w2 = _ /\ _ =>
      edestruct (conn_readN rid 2 w2) as (c' & Hread & _ & _);
        [ cbn [resources set_resources]; apply lookup_insert_eq
        | cbn [inbox]; rewrite Hscript; simpl; lia
        | ]
  end.
  erewrite bind_Returned; [| exact Hread].
  cbn [inbox]. rewrite Hscript. cbn [take lookup_total list_lookup_total].
  assert (negb (version =? SOCKS_VERSION) || (method =? AuthMethod.NoneAcceptable)
          = true) as ->.
  { destruct Hbad as [Hv | ->].
    - apply Z.eqb_neq in Hv. by rewrite Hv.
    - apply orb_true_r. }
  erewrite bind_Threw; [| apply ignoring_close_then_throw].
  eexists. split; [reflexivity |].
  cbn [resources heap connects set_resources].
  split; [| done].
  rewrite !delete_insert_eq. by apply delete_id.
Qed.

(** The request stage behaves alike: after a successful negotiation without
    authentication, a reply with version 5 and a status other than 0 makes
    [#connectAndRequest] close the connection and throw the message of
    [decodeError] for that status. *)
Lemma request_rejected (config : Config) (cmd : Z) (hostname : jsstring)
    (port : Z) (w : World) script ds (status reserved : Z) rest :
  dials w = Accepts script :: ds ->
  concat script
  = SOCKS_VERSION :: AuthMethod.NoAuth
      :: SOCKS_VERSION :: status :: reserved :: rest ->
  status <> ReplyStatus.Success ->
  exists w',
    connectAndRequest config cmd hostname port w
    = (Threw (Error (decodeError status)), w')
    /\ resources w' = resources w
    /\ connects w' = Datatypes.S (connects w).
Proof.
  intros Hdial Hscript Hstatus.
  set (rid := new_rid w).
  assert (resources w !! rid = None) as Hfresh.
  { apply not_elem_of_dom. intros Hin.
    apply (is_fresh (dom (resources w) ∪ (set_seq 0 (next_rid w) : gset nat))).
    apply elem_of_union. by left. }
  unfold connectAndRequest.
  erewrite bind_Returned; [| unfold Deno_connect; rewrite Hdial; reflexivity].
  fold rid.
  erewrite bind_Returned;
    [| unfold writeAll; cbn [resources]; rewrite lookup_insert_eq; reflexivity].
  match goal with
  | |- exists _, bind _ _ ?w2 = _ /\ _ =>
      edestruct (conn_readN rid 2 w2) as (c1 & Hread & _ & Hrest);
        [ cbn [resources set_resources]; apply lookup_insert_eq
        | cbn [inbox]; rewrite Hscript; simpl; lia
        | ]
  end.
  erewrite bind_Returned; [| exact Hread].
  cbn [inbox] in *. rewrite Hscript in *.
  cbn [take drop lookup_total list_lookup_total] in *.
  change (negb (SOCKS_VERSION =? SOCKS_VERSION)
          || (AuthMethod.NoAuth =? AuthMethod.NoneAcceptable)) with false.
  change (AuthMethod.NoAuth =? AuthMethod.UsernamePassword) with false.
  cbv iota.
  erewrite bind_Returned; [| reflexivity].
  erewrite bind_Returned; [| reflexivity].
  erewrite bind_Returned;
    [| unfold writeAll; cbn [resources set_resources];
       rewrite lookup_insert_eq; reflexivity].
  match goal with
  | |- exists _, bind _ _ ?w4 = _ /\ _ =>
      edestruct (conn_readN rid 3 w4) as (c2 & Hread2 & _ & _);
        [ cbn [resources set_resources]; apply lookup_insert_eq
        | cbn [inbox]; rewrite Hrest; simpl; lia
        | ]
  end.
  erewrite bind_Returned; [| exact Hread2].
  cbn [inbox]. rewrite Hrest. cbn [take lookup_total list_lookup_total].
  assert (negb (SOCKS_VERSION =? SOCKS_VERSION)
          || negb (status =? ReplyStatus.Success) = true) as ->.
  { apply Z.eqb_neq in Hstatus. by rewrite Hstatus. }
  change (negb (SOCKS_VERSION =? SOCKS_VERSION)) with false. cbv iota.
  erewrite bind_Threw; [| apply ignoring_close_then_throw].
  eexists. split; [reflexivity |].
  cbn [resources connects set_resources]. split; [| done].
  rewrite !delete_insert_eq. by apply delete_id.
Qed.

(** ** Receiving through the relay *)

Lemma buffer_size_min (p : option View) : (1024 <= buffer_size p)%nat.
Proof. destruct p; simpl; lia. Qed.

Lemma take_min_length {A} (n : nat) (l : list A) :
  take (Nat.min (length l) n) l = take n l.
Proof.
  destruct (Nat.le_ge_cases (length l) n).
  - rewrite Nat.min_l, !take_ge by lia. done.
  - by rewrite Nat.min_r by lia.
Qed.

Lemma header_set_take (n : nat) (d : list Z) :
  (3 <= n)%nat -> header_set (take n d) = header_set d.
Proof.
  intros H. unfold header_set. by rewrite !lookup_take_lt by lia.
Qed.

Lemma receive_fuel_step (fuel : nat) (r : Relay) (p : option View) w info s d
    from rest :
  proxyInfo r = Some info ->
  resources w !! udp_rid (udpConn r) = Some (RUdp s) ->
  queue s = (d, from) :: rest ->
  let l := fresh (dom (heap w)) in
  let size := buffer_size p in
  let bytes := take size d in
  let w1 := arrived (udpConn r) l size d rest s w in
  let res := {| buffer := l; byteOffset := 0;
                byteLength := Nat.min (length d) size |} in
  contents w1 res = bytes
  /\ receive_fuel (Datatypes.S fuel) r p w
     = if header_set d then receive_fuel fuel r p w1
       else
         match decode (drop 3 bytes) with
         | Returned a =>
             (Returned (subarray res (3 + bytesRead a),
                        {| na_hostname := hostname a; na_port := port a;
                           na_transport := "udp" |}), w1)
         | Threw e => (Threw e, w1)
         | Pends => (Pends, w1)
         end.
Proof.
  intros Hinfo Hres Hq l size bytes w1 res.
  assert (contents w1 res = bytes) as Hcontents.
  { unfold contents, w1, arrived, res. cbn [heap set_heap buffer byteOffset byteLength].
    rewrite lookup_insert_eq. cbn [default from_option]. unfold id.
    rewrite drop_0, take_app_length'; [apply take_min_length |].
    rewrite length_take. lia. }
  split; [done |].
  cbn [receive_fuel]. rewrite Hinfo.
  erewrite bind_Returned; [| reflexivity].
  erewrite bind_Returned; [| reflexivity].
  fold (buffer_size p). fold size. fold l.
  erewrite bind_Returned.
  2: { unfold udp_receive. cbn [resources set_heap]. rewrite Hres, Hq.
       reflexivity. }
  cbn [buffer byteOffset byteLength].
  match goal with
  | |- bind _ _ ?w1' = _ => replace w1' with w1
  end.
  2: { unfold w1, arrived. cbn [heap set_heap]. rewrite lookup_insert_eq.
       cbn [default from_option]. unfold id. by rewrite take_0. }
  fold res.
  erewrite bind_Returned; [| reflexivity].
  cbv beta. rewrite Hcontents. unfold bytes at 1.
  rewrite header_set_take by (pose proof (buffer_size_min p); unfold size; lia).
  destruct (header_set d); [done |].
  unfold bind, await, ret. fold bytes. by destruct (decode (drop 3 bytes)).
Qed.

Lemma contents_subarray (w : World) (v : View) (k : Z) :
  contents w (subarray v k) = drop (Z.to_nat k) (contents w v).
Proof.
  unfold contents, subarray. cbn [buffer byteOffset byteLength].
  set (buf := default [] (heap w !! buffer v)).
  set (b := Nat.min (Z.to_nat k) (byteLength v)).
  rewrite <- drop_drop, take_drop_commute.
  replace (b + (byteLength v - b))%nat with (byteLength v) by lia.
  destruct (Nat.le_gt_cases (Z.to_nat k) (byteLength v)) as [Hle | Hgt].
  - unfold b. by rewrite Nat.min_l by lia.
  - unfold b. rewrite Nat.min_r by lia.
    rewrite !drop_ge; [done | |]; rewrite length_take; lia.
Qed.

Lemma pending_arrived (u : DatagramConn) l size d rest s w :
  pending u (arrived u l size d rest s w) = rest.
Proof.
  unfold pending, arrived. cbn [resources set_heap set_resources].
  by rewrite lookup_insert_eq.
Qed.


(** *** The caller's buffer *)

Lemma arrived_heap_old (u : DatagramConn) size d rest s w (l' : nat) :
  l' ∈ dom (heap w) ->
  heap (arrived u (fresh (dom (heap w))) size d rest s w) !! l' = heap w !! l'.
Proof.
  intros Hl'. unfold arrived. cbn [heap set_heap set_resources].
  assert (fresh (dom (heap w)) <> l') as Hne.
  { intros <-. by apply (is_fresh (dom (heap w))). }
  by rewrite !lookup_insert_ne.
Qed.

Lemma arrived_heap_new (u : DatagramConn) l size d rest s w :
  length <$> (heap (arrived u l size d rest s w) !! l) = Some size.
Proof.
  unfold arrived. cbn [heap set_heap set_resources].
  rewrite lookup_insert_eq. cbn [fmap option_fmap option_map]. f_equal.
  rewrite length_app, length_take, length_drop, length_replicate. lia.
Qed.

Lemma receive_fuel_frame (r : Relay) (p : option View) (fuel : nat) :
  forall w o w',
    receive_fuel fuel r p w = (o, w') ->
    (forall l, l ∈ dom (heap w) -> heap w' !! l = heap w !! l)
    /\ (forall v a, o = Returned (v, a) ->
                    (buffer v ∉ dom (heap w))
                    /\ length <$> (heap w' !! buffer v)
                       = Some (buffer_size p)).
Proof.
  induction fuel as [|fuel IH]; intros w o w' Hrun.
  - injection Hrun as <- <-. split; [done | by intros].
  - cbn [receive_fuel] in Hrun. fold (buffer_size p) in Hrun.
    unfold bind at 1 in Hrun.
    destruct (match proxyInfo r with
              | Some _ => ret ()
              | None => await (isReady r)
              end w) as [ready w0] eqn:Hready.
    assert (w0 = w) as ->.
    { destruct (proxyInfo r); unfold ret, await in Hready; congruence. }
    destruct ready as [[] | e |];
      [| injection Hrun as <- <-; split; [done | by intros]
       | injection Hrun as <- <-; split; [done | by intros]].
    unfold bind at 1 in Hrun. cbn [new_Uint8Array] in Hrun.
    set (l := fresh (dom (heap w))) in *.
    assert (l ∉ dom (heap w)) as Hl by apply is_fresh.
    assert (forall l', l' ∈ dom (heap w) ->
                       heap (set_heap <[l := replicate (buffer_size p) 0]> w) !! l'
                       = heap w !! l') as Hold.
    { intros l' Hl'. cbn [heap set_heap]. rewrite lookup_insert_ne; [done |].
      by intros <-. }
    unfold bind at 1, udp_receive in Hrun.
    cbn [resources set_heap buffer byteOffset byteLength heap] in Hrun.
    destruct (resources w !! udp_rid (udpConn r)) as [[c | s] |];
      try (injection Hrun as <- <-; split; [done | by intros]).
    destruct (queue s) as [|[d from] rest] eqn:Hq;
      [injection Hrun as <- <-; split; [done | by intros] |].
    rewrite lookup_insert_eq in Hrun. cbn [default from_option] in Hrun.
    unfold id in Hrun. rewrite take_0 in Hrun. cbn [app Nat.add] in Hrun.
    match type of Hrun with
    | bind _ _ ?w1' = _ =>
        replace w1' with (arrived (udpConn r) l (buffer_size p) d rest s w)
          in Hrun by reflexivity
    end.
    set (w1 := arrived (udpConn r) l (buffer_size p) d rest s w) in *.
    assert (forall l', l' ∈ dom (heap w) -> heap w1 !! l' = heap w !! l')
      as Hold1 by (intros; by apply arrived_heap_old).
    assert (forall l', l' ∈ dom (heap w) -> l' ∈ dom (heap w1)) as Hdom.
    { intros l' Hl'. apply elem_of_dom. rewrite Hold1 by done.
      by apply elem_of_dom. }
    unfold bind at 1, gets in Hrun.
    destruct (header_set _) in Hrun.
    + destruct (IH _ _ _ Hrun) as [Hframe Hview]. split.
      * intros l' Hl'. rewrite Hframe by auto. auto.
      * intros v a Hv. destruct (Hview v a Hv) as [Hnew Hsize].
        split; [| done]. intros Hin. apply Hnew. auto.
    + unfold bind, await, ret in Hrun.
      destruct (decode _) as [a | e |]; injection Hrun as <- <-.
      * split; [done |].
        intros v a' [= <- _]. cbn [subarray buffer].
        split; [done | apply arrived_heap_new].
      * split; [done | by intros].
      * split; [done | by intros].
Qed.

(** C10: [receive(p)] leaves the caller's buffer, like every buffer that
    existed before the call, as it was.  The payload it returns is a view
    on a buffer allocated during the call, of [p.length + 1024] bytes, or
    2048 without [p]. *)
Theorem receive_leaves_p_unchanged (r : Relay) (p : option View) (w : World)
    o w' :
  receive r p w = (o, w') ->
  (forall l, l ∈ dom (heap w) -> heap w' !! l = heap w !! l)
  /\ (forall pv, p = Some pv -> buffer pv ∈ dom (heap w) ->
                 contents w' pv = contents w pv)
  /\ (forall v from, o = Returned (v, from) ->
                     (buffer v ∉ dom (heap w))
                     /\ length <$> (heap w' !! buffer v)
                        = Some (match p with
                                | Some pv => (byteLength pv + 1024)%nat
                                | None => 2048%nat
                                end)).
Proof.
  intros Hrun. unfold receive in Hrun.
  destruct (receive_fuel_frame _ _ _ _ _ _ Hrun) as [Hframe Hview].
  split; [done |]. split; [| done].
  intros pv _ Hpv. unfold contents. by rewrite Hframe.
Qed.

(** ** One negotiation per relay *)

Lemma quiet_keeps {A} (m : M World A) : quiet m -> keeps m.
Proof. intros H w. apply H. Qed.

Lemma quiet_ret {A} (a : A) : quiet (ret a).
Proof. done. Qed.

Lemma quiet_throw {A} (e : exn) : quiet (@throw World A e).
Proof. done. Qed.

Lemma quiet_bind {A B} (m : M World A) (k : A -> M World B) :
  quiet m -> (forall a, quiet (k a)) -> quiet (bind m k).
Proof.
  intros Hm Hk w. unfold bind. destruct (Hm w) as [Hfin Hc].
  destruct (m w) as [[a | e |] w1]; simpl in *; [| done | done].
  destruct (Hk a w1) as [Hfin' Hc']. split; [done | congruence].
Qed.

Lemma quiet_try_catch {A} (m : M World A) (h : exn -> M World A) :
  quiet m -> (forall e, quiet (h e)) -> quiet (try_catch m h).
Proof.
  intros Hm Hh w. unfold try_catch. destruct (Hm w) as [Hfin Hc].
  destruct (m w) as [[a | e |] w1]; simpl in *; [done | | done].
  destruct (Hh e w1) as [Hfin' Hc']. split; [done | congruence].
Qed.

Lemma keeps_bind {A B} (m : M World A) (k : A -> M World B) :
  keeps m -> (forall a, keeps (k a)) -> keeps (bind m k).
Proof.
  intros Hm Hk w. unfold bind. specialize (Hm w).
  destruct (m w) as [[a | e |] w1]; simpl in *; [| done | done].
  rewrite (Hk a w1). done.
Qed.

Lemma keeps_try_catch {A} (m : M World A) (h : exn -> M World A) :
  keeps m -> (forall e, keeps (h e)) -> keeps (try_catch m h).
Proof.
  intros Hm Hh w. unfold try_catch. specialize (Hm w).
  destruct (m w) as [[a | e |] w1]; simpl in *; [done | | done].
  rewrite (Hh e w1). done.
Qed.

Lemma keeps_await {A} (promise : Outcome A) : keeps (await promise).
Proof. done. Qed.

Lemma quiet_writeAll (rid : nat) (bytes : list Z) : quiet (writeAll rid bytes).
Proof. intros w. unfold writeAll. by repeat case_match. Qed.

Lemma quiet_Deno_close (rid : nat) : quiet (Deno_close rid).
Proof. intros w. unfold Deno_close. by repeat case_match. Qed.

Lemma quiet_ignoring (m : M World unit) : quiet m -> quiet (ignoring m).
Proof. intros H. apply quiet_try_catch; [done | intros; apply quiet_ret]. Qed.

Lemma conn_read_connects (rid cap : nat) (w : World) :
  connects (snd (conn_read rid cap w)) = connects w.
Proof. unfold conn_read. by repeat case_match. Qed.

Lemma drain_connects (rid k : nat) w cs o w' :
  drain (conn_read rid) k w cs o w' -> connects w' = connects w.
Proof.
  induction 1 as [| ? ? ? ? ? ? ? ? Hr ? IH | ? ? ? ? Hr | ? ? ? ? ? Hr];
    [done | rewrite IH | |];
    pose proof (conn_read_connects rid k s) as Hc; by rewrite Hr in Hc.
Qed.

Lemma quiet_readN_conn (rid n : nat) : quiet (readN (conn_read rid) n).
Proof.
  intros w.
  destruct (readN_fuel_spec (conn_read rid) (conn_contract rid) n n w)
    as (cs & o & w' & Hd & Hrun & Hlen); [done |].
  unfold readN. rewrite Hrun. simpl. split.
  - by destruct o.
  - by eapply drain_connects.
Qed.

Lemma quiet_deserializeAddress_conn (rid : nat) :
  quiet (deserializeAddress (conn_read rid)).
Proof.
  unfold deserializeAddress, deserializeHost.
  repeat first
    [ apply quiet_readN_conn
    | apply quiet_ret
    | apply quiet_throw
    | apply quiet_bind; [| intros]
    | match goal with |- quiet (if ?b then _ else _) => destruct b end
    | match goal with |- quiet (let '(_, _) := ?x in _) => destruct x end ].
Qed.

(** [#connectAndRequest] finishes, and calls [Deno.connect] exactly once. *)
Lemma connectAndRequest_connects (config : Config) (cmd : Z)
    (hostname : jsstring) (port : Z) (w : World) :
  fst (connectAndRequest config cmd hostname port w) <> Pends
  /\ connects (snd (connectAndRequest config cmd hostname port w))
     = Datatypes.S (connects w).
Proof.
  destruct (connectAndRequest config cmd hostname port w) as [o' w'] eqn:Hrun.
  unfold connectAndRequest in Hrun. unfold bind at 1 in Hrun.
  destruct (Deno_connect (proxy_hostname config) (proxy_port config) w)
    as [o w1] eqn:Hdial.
  assert (connects w1 = Datatypes.S (connects w) /\ o <> Pends) as [Hc Ho].
  { unfold Deno_connect in Hdial.
    destruct (dials w) as [|[script | msg] ds]; by injection Hdial as <- <-. }
  destruct o as [rid | e |]; [| by injection Hrun as <- <- | done].
  rewrite <- Hc.
  match type of Hrun with
  | ?m w1 = _ => enough (quiet m) as H by (specialize (H w1); by rewrite Hrun in H)
  end.
  repeat first
    [ apply quiet_readN_conn
    | apply quiet_deserializeAddress_conn
    | apply quiet_writeAll
    | apply quiet_ret
    | apply quiet_throw
    | apply quiet_ignoring, quiet_Deno_close
    | apply quiet_bind; [| intros]
    | match goal with |- quiet (if ?b then _ else _) => destruct b end ].
Qed.

Lemma quiet_close (r : Relay) (throwErr : bool) : quiet (close r throwErr).
Proof.
  unfold close.
  repeat first
    [ apply quiet_Deno_close
    | apply quiet_ret
    | apply quiet_throw
    | apply quiet_bind; [| intros]
    | apply quiet_try_catch; [| intros]
    | match goal with |- quiet (match ?b with _ => _ end) => destruct b end ].
Qed.

Lemma negotiate_connects (config : Config) (r : Relay) (w : World) :
  fst (negotiate config r w) <> Pends
  /\ connects (snd (negotiate config r w)) = Datatypes.S (connects w).
Proof.
  destruct (negotiate config r w) as [o' w'] eqn:Hrun.
  unfold negotiate, try_catch in Hrun. unfold bind at 1 in Hrun.
  destruct (connectAndRequest_connects config Command.UdpAssociate
              (na_hostname (udp_addr (udpConn r)))
              (na_port (udp_addr (udpConn r))) w) as [Hfin Hc].
  destruct (connectAndRequest _ _ _ _ w) as [[q | e |] w1]; simpl in *;
    [by injection Hrun as <- <- | | done].
  rewrite <- Hc.
  pose proof (quiet_bind (close r false) (fun _ => @throw World Relay e)
                (quiet_close r false) (fun _ => quiet_throw e) w1) as H.
  by rewrite Hrun in H.
Qed.

Lemma keeps_send (r : Relay) (p : list Z) (to : NetAddr) : keeps (send r p to).
Proof.
  unfold send. apply keeps_bind.
  - destruct (proxyInfo r); [apply quiet_keeps, quiet_ret | apply keeps_await].
  - intros _. destruct (proxyInfo r); [| apply quiet_keeps, quiet_throw].
    intros w. unfold udp_send. by repeat case_match.
Qed.

Lemma keeps_receive_fuel (fuel : nat) (r : Relay) (p : option View) :
  keeps (receive_fuel fuel r p).
Proof.
  induction fuel as [|fuel IH]; [done |].
  cbn [receive_fuel]. apply keeps_bind.
  { destruct (proxyInfo r); [apply quiet_keeps, quiet_ret | apply keeps_await]. }
  intros _. apply keeps_bind; [done |].
  intros buff. apply keeps_bind.
  { intros w. unfold udp_receive. by repeat case_match. }
  intros [res from]. apply keeps_bind; [done |].
  intros bytes. destruct (header_set bytes); [done |].
  apply keeps_bind; [apply keeps_await | done].
Qed.

Lemma keeps_receive (r : Relay) (p : option View) : keeps (receive r p).
Proof. intros w. apply keeps_receive_fuel. Qed.

Lemma keeps_watch (fuel : nat) (r : Relay) (c : nat) : keeps (watch fuel r c).
Proof.
  induction fuel as [|fuel IH]; [done |].
  cbn [watch]. apply keeps_bind.
  - apply keeps_try_catch; [| done].
    intros w. apply conn_read_connects.
  - intros [chunk |]; [done | apply quiet_keeps, quiet_close].
Qed.

(** Before the negotiation has settled, [send] and [receive] wait for it
    and touch nothing. *)
Lemma send_waits (r : Relay) (p : list Z) (to : NetAddr) (w : World) :
  proxyInfo r = None -> isReady r = Pends -> send r p to w = (Pends, w).
Proof. intros Hinfo Hready. unfold send. by rewrite Hinfo, Hready. Qed.

Lemma receive_waits (r : Relay) (p : option View) (w : World) :
  proxyInfo r = None -> isReady r = Pends -> receive r p w = (Pends, w).
Proof.
  intros Hinfo Hready. unfold receive. cbn [receive_fuel].
  by rewrite Hinfo, Hready.
Qed.

Lemma step_single_flight (config : Config) (c0 : nat) (ev : Event) st :
  single_flight c0 st -> single_flight c0 (step config ev st).
Proof.
  destruct st as [r w]. unfold single_flight. intros Hinv.
  destruct ev as [| p to | p | | fuel]; cbn [step fst snd] in *.
  - destruct (isReady r) eqn:Hready;
      [by cbn [fst snd]; rewrite Hready | by cbn [fst snd]; rewrite Hready |].
    destruct Hinv as [Hinfo Hc].
    destruct (negotiate_connects config r w) as [Hfin Hc'].
    destruct (negotiate config r w) as [[r' | e |] w']; simpl in *;
      [lia | lia | done].
  - rewrite keeps_send. done.
  - rewrite keeps_receive. done.
  - rewrite (quiet_keeps _ (quiet_close r true)). done.
  - destruct (proxyInfo r) as [info |] eqn:Hinfo; cbn [fst snd];
      rewrite ?keeps_watch, ?Hinfo; done.
Qed.

Lemma run_single_flight (config : Config) (c0 : nat) (evs : list Event) st :
  single_flight c0 st -> single_flight c0 (run config evs st).
Proof.
  revert st. induction evs as [|ev evs IH]; intros st Hinv; [done |].
  simpl. apply IH, step_single_flight, Hinv.
Qed.

(** C9: however many [send()] and [receive()] calls (and whatever else)
    happen to a relay made by [listenDatagram], the negotiation is attempted
    at most once: one [Deno.connect] at most is made for it, and exactly one
    has been made once the promise has settled.  As long as the promise is
    pending, every [send()] and [receive()] waits on it and starts
    nothing. *)
Theorem negotiation_single_flight (config : Config) (opts : NetAddr)
    (w0 : World) (evs : list Event) r0 w1 :
  listenDatagram opts w0 = (Returned r0, w1) ->
  let st := run config evs (r0, w1) in
  (connects (snd st) <= Datatypes.S (connects w0))%nat
  /\ (isReady (fst st) = Pends ->
      (forall p to, send (fst st) p to (snd st) = (Pends, snd st))
      /\ (forall p, receive (fst st) p (snd st) = (Pends, snd st)))
  /\ (isReady (fst st) <> Pends ->
      connects (snd st) = Datatypes.S (connects w0)).
Proof.
  intros Hlisten st.
  assert (single_flight (connects w0) (r0, w1)) as Hinit.
  { unfold listenDatagram, bind, Deno_listenDatagram, ret in Hlisten.
    injection Hlisten as <- <-. done. }
  pose proof (run_single_flight config _ evs _ Hinit) as Hinv.
  fold st in Hinv. unfold single_flight in Hinv.
  destruct (isReady (fst st)) eqn:Hready.
  - split; [lia |]. split; [done | done].
  - split; [lia |]. split; [done | done].
  - destruct Hinv as [Hinfo Hc]. split; [lia |]. split; [| done].
    intros _. split; intros.
    + by apply send_waits.
    + by apply receive_waits.
Qed.

(** ** The properties on concrete runs *)

Lemma negotiation_rejected_witness :
  exists w',
    connectAndRequest demo_config Command.Connect (js "1.2.3.4") 1234
      socks4_world
    = (Threw (Error (js "unsupported SOCKS version number: 4")), w')
    /\ resources w' = resources socks4_world
    /\ heap w' = heap socks4_world
    /\ connects w' = 1%nat.
Proof.
  refine (proj1 (negotiation_rejected demo_config Command.Connect
                   (js "1.2.3.4") 1234 socks4_world [[4]; [0]] [] 4 0 []
                   _ _ _)).
  - reflexivity.
  - reflexivity.
  - left. vm_compute. discriminate.
Defined.

Lemma close_attempts_both_witness :
  fst (close demo_relay true closed_world) = Threw (BadResource 2)
  /\ resources (snd (close demo_relay true closed_world)) !! 1%nat = None.
Proof.
  destruct (close_attempts_both demo_relay closed_world) as (Hrun & _ & Htcp).
  split.
  - rewrite Hrun. vm_compute. reflexivity.
  - rewrite Hrun. apply (Htcp {| tcpConn := 1; addr := demo_peer |}).
    reflexivity.
Defined.

Lemma receive_leaves_p_unchanged_witness :
  contents (snd (receive demo_relay (Some caller_buffer) ready_world))
    caller_buffer
  = [5; 5; 5].
Proof.
  destruct (receive_leaves_p_unchanged demo_relay (Some caller_buffer)
              ready_world
              (fst (receive demo_relay (Some caller_buffer) ready_world))
              (snd (receive demo_relay (Some caller_buffer) ready_world)))
    as (_ & Hp & _).
  - apply surjective_pairing.
  - rewrite (Hp caller_buffer).
    + vm_compute. reflexivity.
    + reflexivity.
    + apply elem_of_dom. exists [5; 5; 5]. reflexivity.
Defined.

Lemma negotiation_single_flight_witness :
  let st :=
    run demo_config
      [Calls_send [1] demo_peer; Calls_receive None; Settles;
       Calls_send [1] demo_peer; Calls_receive None; Settles]
      listening in
  (connects (snd st) <= 1)%nat
  /\ connects (snd st) = 1%nat.
Proof.
  destruct (negotiation_single_flight demo_config demo_opts udp_proxy_world
              [Calls_send [1] demo_peer; Calls_receive None; Settles;
               Calls_send [1] demo_peer; Calls_receive None; Settles]
              (fst listening) (snd listening)) as (Hle & _ & Hdone).
  - vm_compute. reflexivity.
  - split; [exact Hle |]. apply Hdone. vm_compute. discriminate.
Defined.

(** ** The round trip for the other two kinds *)

Lemma ArrayReader_readN (n : nat) (a : list Z) (off : nat) :
  (off + n <= length a)%nat ->
  readN ArrayReader_read n {| arr := a; offset := off |}
  = (Returned (take n (drop off a)), {| arr := a; offset := (off + n)%nat |}).
Proof.
  intros Hn. unfold readN, readN_fuel.
  destruct n as [|n].
  - simpl. by rewrite Nat.add_0_r.
  - cbn [readN_loop]. change (0 <? Datatypes.S n)%nat with true. cbv iota.
    erewrite bind_Returned.
    2: { unfold ArrayReader_read. cbn [arr offset].
         destruct (Nat.leb_spec (length a) off) as [Hle | _]; [lia |].
         rewrite Nat.sub_0_r, Nat.min_l by lia. reflexivity. }
    assert (length (take (Datatypes.S n) (drop off a)) = Datatypes.S n) as Hlen.
    { rewrite length_take, length_drop. lia. }
    cbv beta iota. rewrite Hlen.
    assert (forall fuel out, readN_loop ArrayReader_read fuel (Datatypes.S n) out
                               (0 + Datatypes.S n)
                             = ret out) as Hdone.
    { intros fuel out. destruct fuel; cbn [readN_loop];
        by rewrite Nat.add_0_l, Nat.ltb_irrefl. }
    rewrite Hdone. unfold ret, fill. f_equal.
    rewrite take_0.
    rewrite (take_ge (take _ _)) by (rewrite length_replicate, Hlen; lia).
    rewrite Hlen.
    rewrite (drop_ge (replicate _ _)) by (rewrite length_replicate; lia).
    by rewrite app_nil_r.
Qed.

Lemma TextEncoder_encode_ascii (s : jsstring) :
  ascii_string s -> TextEncoder_encode s = s.
Proof.
  unfold TextEncoder_encode.
  induction 1 as [|c s Hc _ IH]; [done |].
  cbn [code_points]. unfold is_high_surrogate, is_low_surrogate.
  destruct (Z.leb_spec 55296 c); [lia |].
  destruct (Z.leb_spec 56320 c); [lia |].
  cbn [andb flat_map]. rewrite IH. unfold utf8_encode_code_point.
  destruct (Z.ltb_spec c 128); [done | lia].
Qed.

Lemma utf8_decode_ascii (s : jsstring) :
  ascii_string s -> utf8_decode s 0 0 128 191 = s.
Proof.
  induction 1 as [|c s Hc _ IH]; [done |].
  cbn [utf8_decode]. change (0 =? 0) with true. cbv iota.
  destruct (Z.leb_spec c 127); [by rewrite IH | lia].
Qed.

Lemma TextDecoder_decode_ascii (s : jsstring) :
  ascii_string s -> TextDecoder_decode s = s.
Proof.
  intros Hs. unfold TextDecoder_decode. rewrite utf8_decode_ascii by done.
  assert (flat_map utf16_encode_code_point s = s) as Hflat.
  { induction Hs as [|c s Hc _ IH]; [done |].
    cbn [flat_map]. rewrite IH. unfold utf16_encode_code_point.
    destruct (Z.ltb_spec c 65536); [done | lia]. }
  destruct Hs as [|c s Hc Hs]; [done |].
  destruct (Z.eq_dec c 65279) as [-> | Hne]; [lia |].
  replace (match c with 65279 => s | _ => c :: s end) with (c :: s); [done |].
  destruct c as [|c|c]; try done.
  repeat (destruct c as [c|c|]; try done).
Qed.

Lemma port_of_bytes (port : Z) :
  0 <= port < 65536 -> Z.shiftl (port / 256) 8 + port mod 256 = port.
Proof.
  intros H. rewrite Z.shiftl_mul_pow2 by lia. change (2 ^ 8) with 256.
  pose proof (Z.div_mod port 256). lia.
Qed.

Ltac solve_length :=
  cbn [length app]; rewrite ?length_app; cbn [length]; lia.

(** An ASCII domain name of at most 255 bytes, with any 16-bit port, comes
    back from [deserializeAddress] as it went into [serializeAddress]. *)
Lemma roundtrip_domain (host : jsstring) (p : Z) :
  ascii_string host ->
  (length host <= 255)%nat ->
  v4Pattern host = false ->
  v6Pattern host = false ->
  0 <= p < 65536 ->
  decode (serializeAddress host p)
  = Returned {| hostname := host; port := p;
                bytesRead := Z.of_nat (length host) + 1 + 3 |}.
Proof.
  intros Hascii Hlen H4 H6 Hp.
  assert (wf_string host) as Hwf.
  { eapply Forall_impl; [exact Hascii |]. simpl. lia. }
  rewrite (serializeAddress_domain_bytes host p Hwf H4 H6).
  rewrite TextEncoder_encode_ascii, portBytes_uint16 by done.
  rewrite Z.mod_small by lia.
  unfold decode, deserializeAddress, uint8ArrayToReader.
  cbn [app].
  erewrite bind_Returned; [| apply ArrayReader_readN; solve_length].
  cbn [take drop lookup_total list_lookup_total].
  unfold deserializeHost.
  change (AddrType.DomainName =? AddrType.IPv4) with false.
  change (AddrType.DomainName =? AddrType.IPv6) with false.
  change (AddrType.DomainName =? AddrType.DomainName) with true. cbv iota.
  erewrite bind_Returned.
  2: { erewrite bind_Returned; [| apply ArrayReader_readN; solve_length].
       cbn [take drop lookup_total list_lookup_total Nat.add].
       erewrite bind_Returned; [reflexivity |].
       apply ArrayReader_readN. rewrite Nat2Z.id. solve_length. }
  cbv beta iota. rewrite Nat2Z.id.
  erewrite bind_Returned; [| apply ArrayReader_readN; solve_length].
  cbn [drop Nat.add].
  rewrite drop_0, take_app_length, drop_app_length.
  cbn [take lookup_total list_lookup_total].
  unfold ret. cbn [fst]. f_equal.
  rewrite TextDecoder_decode_ascii, port_of_bytes by done. reflexivity.
Qed.

Lemma byte_prints_all (b : Z) : is_byte b -> byte_prints b = true.
Proof.
  intros Hb.
  assert (forallb byte_prints (map Z.of_nat (seq 0 256)) = true) as Hall
    by (vm_compute; reflexivity).
  rewrite forallb_forall in Hall. apply Hall.
  apply in_map_iff. exists (Z.to_nat b). split; [unfold is_byte in Hb; lia |].
  apply in_seq. unfold is_byte in Hb. lia.
Qed.

Lemma rmatch_Rep_succ (lo hi : nat) (r : regex) s k :
  rmatch (Rep lo (Datatypes.S hi) r) s k
  = rmatch r s (fun s' => rmatch (Rep (Nat.pred lo) hi r) s' k)
    || match lo with O => k s | Datatypes.S _ => false end.
Proof. reflexivity. Qed.

Lemma rmatch_digits (ds : jsstring) :
  forall (lo hi : nat) rest k,
    forallb is_digit ds = true ->
    (lo <= length ds <= hi)%nat ->
    k rest = true ->
    rmatch (Rep lo hi digit) (ds ++ rest) k = true.
Proof.
  induction ds as [|d ds IH]; intros lo hi rest k Hds Hlen Hk.
  - simpl in Hlen. assert (lo = 0%nat) as -> by lia.
    destruct hi; [exact Hk |].
    rewrite rmatch_Rep_succ. simpl app. rewrite Hk. apply orb_true_r.
  - simpl in Hlen, Hds. apply andb_true_iff in Hds as [Hd Hds].
    destruct hi as [|hi]; [lia |].
    rewrite rmatch_Rep_succ. apply orb_true_iff. left.
    cbn [rmatch digit app]. rewrite Hd. cbn [andb].
    apply IH; [done | lia | done].
Qed.

(** One group [\d{1,3}\.] of the IPv4 pattern. *)
Lemma rmatch_group (ds rest : jsstring) k :
  forallb is_digit ds = true ->
  (1 <= length ds <= 3)%nat ->
  k rest = true ->
  rmatch (Cat (Rep 1 3 digit) dot) (ds ++ chr "." :: rest) k = true.
Proof.
  intros Hds Hlen Hk. cbn [rmatch].
  apply (rmatch_digits ds 1 3 (chr "." :: rest)); [done | done |].
  cbn [rmatch dot]. by rewrite Z.eqb_refl.
Qed.

Lemma v4Pattern_dotted_quad (p1 p2 p3 p4 : jsstring) :
  Forall (fun ds => forallb is_digit ds = true /\ (1 <= length ds <= 3)%nat)
    [p1; p2; p3; p4] ->
  v4Pattern (join (chr ".") [p1; p2; p3; p4]) = true.
Proof.
  intros H.
  apply Forall_cons in H as [[H1 L1] H]. apply Forall_cons in H as [[H2 L2] H].
  apply Forall_cons in H as [[H3 L3] H]. apply Forall_cons in H as [[H4 L4] _].
  unfold v4Pattern, test_prefix. cbn [join].
  change (rmatch (Cat ?r1 ?r2) ?s ?k)
    with (rmatch r1 s (fun s' => rmatch r2 s' k)).
  rewrite rmatch_Rep_succ. apply orb_true_iff. left.
  apply rmatch_group; [done | done |].
  rewrite rmatch_Rep_succ. apply orb_true_iff. left.
  apply rmatch_group; [done | done |].
  rewrite rmatch_Rep_succ. apply orb_true_iff. left.
  apply rmatch_group; [done | done |].
  cbv beta. change (rmatch (Rep 0 0 ?r) ?s ?k) with (k s). cbv beta.
  rewrite <- (app_nil_r p4). by apply rmatch_digits.
Qed.

Lemma split_piece (sep : Z) (piece s : jsstring) :
  forallb (fun c => negb (c =? sep)) piece = true ->
  split sep (piece ++ sep :: s) = piece :: split sep s.
Proof.
  induction piece as [|c piece IH]; intros H.
  - simpl. by rewrite Z.eqb_refl.
  - simpl in H. apply andb_true_iff in H as [Hc H].
    cbn [app split]. apply negb_true_iff in Hc. rewrite Hc, IH by done. done.
Qed.

Lemma split_last (sep : Z) (piece : jsstring) :
  forallb (fun c => negb (c =? sep)) piece = true ->
  split sep piece = [piece].
Proof.
  induction piece as [|c piece IH]; intros H; [done |].
  simpl in H. apply andb_true_iff in H as [Hc H].
  cbn [split]. apply negb_true_iff in Hc. rewrite Hc, IH by done. done.
Qed.

Lemma digits_no_dot (ds : jsstring) :
  forallb is_digit ds = true ->
  forallb (fun c => negb (c =? chr ".")) ds = true.
Proof.
  intros H. rewrite forallb_forall in *. intros c Hc.
  specialize (H c Hc). unfold is_digit in H.
  apply negb_true_iff, Z.eqb_neq. change (chr ".") with 46. lia.
Qed.

(** A dotted quad in canonical form (each octet printed in decimal), with
    any 16-bit port, comes back as it went in. *)
Lemma roundtrip_ipv4 (a b c d p : Z) :
  is_byte a -> is_byte b -> is_byte c -> is_byte d ->
  0 <= p < 65536 ->
  let host := join (chr ".") (map toString [a; b; c; d]) in
  decode (serializeAddress host p)
  = Returned {| hostname := host; port := p; bytesRead := 7 |}.
Proof.
  intros Ha Hb Hc Hd Hp host.
  pose proof (byte_prints_all a Ha) as Pa. pose proof (byte_prints_all b Hb) as Pb.
  pose proof (byte_prints_all c Hc) as Pc. pose proof (byte_prints_all d Hd) as Pd.
  unfold byte_prints in Pa, Pb, Pc, Pd.
  repeat match goal with
         | H : _ && _ = true |- _ => apply andb_true_iff in H as [H ?]
         | H : (_ <=? _)%nat = true |- _ => apply Nat.leb_le in H
         | H : (_ =? _) = true |- _ => apply Z.eqb_eq in H
         end.
  assert (v4Pattern host = true) as Hv4.
  { apply v4Pattern_dotted_quad. repeat apply Forall_cons_2; try done. }
  rewrite (serializeAddress_v4 host p Hv4), portBytes_uint16 by done.
  assert (split (chr ".") host = map toString [a; b; c; d]) as ->.
  { unfold host. cbn [map join].
    rewrite !split_piece, split_last by (by apply digits_no_dot). done. }
  cbn [map].
  repeat match goal with H : ToUint8 _ = _ |- _ => rewrite H; clear H end.
  unfold decode, deserializeAddress, uint8ArrayToReader. cbn [app].
  erewrite bind_Returned; [| apply ArrayReader_readN; solve_length].
  cbn [take drop lookup_total list_lookup_total].
  unfold deserializeHost.
  change (AddrType.IPv4 =? AddrType.IPv4) with true. cbv iota.
  erewrite bind_Returned.
  2: { erewrite bind_Returned; [reflexivity |].
       apply ArrayReader_readN. solve_length. }
  cbv beta iota.
  erewrite bind_Returned; [| apply ArrayReader_readN; solve_length].
  cbn [take drop Nat.add lookup_total list_lookup_total].
  unfold ret. cbn [fst]. f_equal.
  rewrite port_of_bytes by done. reflexivity.
Qed.

(** Whatever the sixteen address bytes, an IPv6 address is decoded to its
    eight groups printed in decimal. *)
Lemma decode_ipv6 (buff : list Z) (hi lo : Z) :
  length buff = 16%nat ->
  decode (AddrType.IPv6 :: buff ++ [hi; lo])
  = Returned {| hostname := join (chr ":") (map toString (ipv6_parts buff));
                port := Z.shiftl hi 8 + lo; bytesRead := 19 |}.
Proof.
  intros Hlen. unfold decode, deserializeAddress, uint8ArrayToReader.
  erewrite bind_Returned; [| apply ArrayReader_readN; solve_length].
  cbn [take drop lookup_total list_lookup_total].
  unfold deserializeHost.
  change (AddrType.IPv6 =? AddrType.IPv4) with false.
  change (AddrType.IPv6 =? AddrType.IPv6) with true. cbv iota.
  erewrite bind_Returned.
  2: { erewrite bind_Returned; [reflexivity |].
       apply ArrayReader_readN. solve_length. }
  cbv beta iota.
  erewrite bind_Returned; [| apply ArrayReader_readN; solve_length].
  cbn [drop Nat.add].
  rewrite drop_0, (take_app_length' buff), (drop_app_length' buff) by done.
  cbn [take lookup_total list_lookup_total].
  reflexivity.
Qed.

(** * Further properties of the code *)

(** ** [readN] over [uint8ArrayToReader] *)

Lemma ArrayReader_readN_short (n : nat) (a : list Z) (off : nat) :
  (length a - off < n)%nat ->
  readN ArrayReader_read n {| arr := a; offset := off |}
  = (Threw (UnexpectedEof
              (eof_message (Z.of_nat n - Z.of_nat (length a - off)))),
     {| arr := a; offset := Nat.max off (length a) |}).
Proof.
  intros Hn. unfold readN, readN_fuel.
  destruct n as [|n]; [lia |].
  cbn [readN_loop]. change (0 <? Datatypes.S n)%nat with true. cbv iota.
  unfold bind at 1. unfold ArrayReader_read at 1. cbn [arr offset].
  destruct (Nat.leb_spec (length a) off) as [Hle | Hlt].
  - unfold throw. rewrite Nat.max_l by lia.
    by replace (length a - off)%nat with 0%nat by lia.
  - rewrite Nat.sub_0_r, Nat.min_r by lia.
    rewrite (take_ge (drop off a)) by (rewrite length_drop; lia).
    rewrite length_drop.
    destruct n as [|n]; [lia |].
    cbn [readN_loop]. rewrite Nat.add_0_l.
    destruct (Nat.ltb_spec (length a - off) (Datatypes.S (Datatypes.S n)))
      as [_ | Hge]; [| lia].
    unfold bind. unfold ArrayReader_read. cbn [arr offset].
    destruct (Nat.leb_spec (length a) (off + (length a - off))) as [_ | Hlt'];
      [| lia].
    unfold throw. f_equal. f_equal. lia.
Qed.

(** Both cases at once, in the form the proofs below rewrite with. *)
Lemma ArrayReader_readN_total (n : nat) (a : list Z) (off : nat) :
  readN ArrayReader_read n {| arr := a; offset := off |}
  = if (n <=? length a - off)%nat
    then (Returned (take n (drop off a)),
          {| arr := a; offset := (off + n)%nat |})
    else (Threw (UnexpectedEof
                   (eof_message (Z.of_nat n - Z.of_nat (length a - off)))),
          {| arr := a; offset := Nat.max off (length a) |}).
Proof.
  destruct (Nat.leb_spec n (length a - off)) as [Hle | Hlt].
  - destruct n as [|n].
    + unfold readN, readN_fuel. simpl. by rewrite Nat.add_0_r.
    + apply ArrayReader_readN. lia.
  - by apply ArrayReader_readN_short.
Qed.

(** X1: a reader made by [uint8ArrayToReader] hands out the array slice by
    slice.  Two [readN] calls in a row return the first [n] bytes and the
    [m] bytes after them when the array has [n + m] bytes; otherwise the
    call that runs out throws [UnexpectedEof] with the number of bytes it
    still missed, and the reader is left at the end of the array. *)
Theorem readN_array_slices (a : list Z) (n m : nat) :
  (let* x := readN ArrayReader_read n in
   let* y := readN ArrayReader_read m in
   ret (x, y)) (uint8ArrayToReader a)
  = if (n + m <=? length a)%nat then
      (Returned (take n a, take m (drop n a)),
       {| arr := a; offset := (n + m)%nat |})
    else if (n <=? length a)%nat then
      (Threw (UnexpectedEof
                (eof_message (Z.of_nat m - Z.of_nat (length a - n)))),
       {| arr := a; offset := length a |})
    else
      (Threw (UnexpectedEof (eof_message (Z.of_nat n - Z.of_nat (length a)))),
       {| arr := a; offset := length a |}).
Proof.
  unfold uint8ArrayToReader, bind.
  rewrite ArrayReader_readN_total, Nat.sub_0_r, drop_0, Nat.add_0_l.
  destruct (Nat.leb_spec n (length a)) as [Hn | Hn].
  - rewrite ArrayReader_readN_total.
    destruct (Nat.leb_spec m (length a - n)) as [Hm | Hm].
    + destruct (Nat.leb_spec (n + m) (length a)); [done | lia].
    + destruct (Nat.leb_spec (n + m) (length a)); [lia |].
      by rewrite Nat.max_r by lia.
  - destruct (Nat.leb_spec (n + m) (length a)); [lia |].
    by rewrite Nat.max_r by lia.
Qed.

(** ** Readers of a byte stream *)

Section stream_reader.
Context {S : Type} (rd : Reader S).
Context (stream : S -> list Z) (ok : S -> Prop) (R : S -> S -> Prop).

Hypothesis R_trans : forall s1 s2 s3, R s1 s2 -> R s2 s3 -> R s1 s3.

(** [readN] takes the next [n] bytes off the stream, or fails for the bytes
    that are missing and leaves the stream empty. *)
Hypothesis readN_stream :
  forall n s,
    ok s ->
    exists s',
      R s s' /\ ok s' /\ stream s' = drop n (stream s)
      /\ readN rd n s
         = (if (n <=? length (stream s))%nat
            then Returned (take n (stream s))
            else Threw (UnexpectedEof
                          (eof_message
                             (Z.of_nat n - Z.of_nat (length (stream s))))),
            s').

Ltac read_both n s Hok Hst :=
  let s1 := fresh "s1" in
  let HR := fresh "HR" in
  let Hok1 := fresh "Hok" in
  let Hst1 := fresh "Hst" in
  let Hrun := fresh "Hrun" in
  destruct (readN_stream n s Hok) as (s1 & HR & Hok1 & Hst1 & Hrun);
  rewrite Hst, ?drop_drop, length_drop in Hrun;
  rewrite Hst, ?drop_drop in Hst1;
  rewrite Hrun, ArrayReader_readN_total.

Lemma deserializeAddress_stream_at (s : S) (a : list Z) (off : nat) :
  ok s ->
  stream s = drop off a ->
  exists o s' off',
    R s s' /\ ok s'
    /\ deserializeAddress rd s = (o, s')
    /\ deserializeAddress ArrayReader_read {| arr := a; offset := off |}
       = (o, {| arr := a; offset := off' |})
    /\ match o with
       | Returned res =>
           stream s' = drop off' a
           /\ (off' <= length a)%nat
           /\ (Forall is_byte a ->
               off' = (off + Z.to_nat (bytesRead res))%nat)
       | _ => True
       end.
Proof.
  intros Hok Hst. unfold deserializeAddress, deserializeHost, bind.
  read_both 1%nat s Hok Hst.
  destruct (Nat.leb_spec 1 (length a - off)) as [H1 | H1];
    [| eexists _, _, _; repeat split; done].
  cbv beta iota zeta.
  set (type := take 1 (drop off a) !!! 0%nat).
  destruct (type =? AddrType.IPv4).
  { read_both 4%nat s1 Hok0 Hst0.
    destruct (Nat.leb_spec 4 (length a - (off + 1))) as [H4 | H4];
      [| eexists _, _, _; repeat split; [by eapply R_trans | done..]].
    cbv beta iota zeta. unfold ret at 1 3.
    read_both 2%nat s0 Hok1 Hst1.
    destruct (Nat.leb_spec 2 (length a - (off + 1 + 4))) as [H2 | H2];
      [| eexists _, _, _; repeat split;
         [eapply R_trans; [| eassumption]; by eapply R_trans | done..]].
    eexists _, _, _. split; [| split; [eassumption |]].
    { eapply R_trans; [| eassumption]. by eapply R_trans. }
    split; [reflexivity |]. split; [reflexivity |].
    cbn [bytesRead]. split; [done |]. split; intros; lia. }
  destruct (type =? AddrType.IPv6).
  { read_both 16%nat s1 Hok0 Hst0.
    destruct (Nat.leb_spec 16 (length a - (off + 1))) as [H4 | H4];
      [| eexists _, _, _; repeat split; [by eapply R_trans | done..]].
    cbv beta iota zeta. unfold ret at 1 3.
    read_both 2%nat s0 Hok1 Hst1.
    destruct (Nat.leb_spec 2 (length a - (off + 1 + 16))) as [H2 | H2];
      [| eexists _, _, _; repeat split;
         [eapply R_trans; [| eassumption]; by eapply R_trans | done..]].
    eexists _, _, _. split; [| split; [eassumption |]].
    { eapply R_trans; [| eassumption]. by eapply R_trans. }
    split; [reflexivity |]. split; [reflexivity |].
    cbn [bytesRead]. split; [done |]. split; intros; lia. }
  destruct (type =? AddrType.DomainName).
  { read_both 1%nat s1 Hok0 Hst0.
    destruct (Nat.leb_spec 1 (length a - (off + 1))) as [H4 | H4];
      [| eexists _, _, _; repeat split; [by eapply R_trans | done..]].
    cbv beta iota zeta.
    set (len := take 1 (drop (off + 1) a) !!! 0%nat).
    read_both (Z.to_nat len) s0 Hok1 Hst1.
    destruct (Nat.leb_spec (Z.to_nat len) (length a - (off + 1 + 1)))
      as [H5 | H5];
      [| eexists _, _, _; repeat split;
         [eapply R_trans; [| eassumption]; by eapply R_trans | done..]].
    cbv beta iota zeta. unfold ret at 1 3.
    read_both 2%nat s2 Hok2 Hst2.
    destruct (Nat.leb_spec 2 (length a - (off + 1 + 1 + Z.to_nat len)))
      as [H2 | H2];
      [| eexists _, _, _; repeat split;
         [eapply R_trans; [| eassumption]; eapply R_trans; [| eassumption];
          by eapply R_trans | done..]].
    eexists _, _, _. split; [| split; [eassumption |]].
    { eapply R_trans; [| eassumption]. eapply R_trans; [| eassumption].
      by eapply R_trans. }
    split; [reflexivity |]. split; [reflexivity |].
    cbn [bytesRead]. split; [done |]. split; [lia |].
    intros Hbytes. assert (0 <= len) as Hlen; [| lia].
    apply (Forall_drop _ (off + 1)) in Hbytes. unfold len.
    destruct (drop (off + 1) a) as [|b l]; [done |].
    cbn [take lookup_total list_lookup_total].
    apply Forall_cons_1 in Hbytes as [[? ?] _]. done. }
  eexists _, _, _. unfold throw. repeat split; done.
Qed.

(** On a stream reader [deserializeAddress] gives what [decode] gives on the
    bytes of the stream. *)
Lemma deserializeAddress_stream (s : S) :
  ok s ->
  exists s',
    R s s' /\ ok s'
    /\ deserializeAddress rd s = (decode (stream s), s')
    /\ forall res,
         decode (stream s) = Returned res ->
         Forall is_byte (stream s) ->
         stream s' = drop (Z.to_nat (bytesRead res)) (stream s).
Proof.
  intros Hok.
  destruct (deserializeAddress_stream_at s (stream s) 0 Hok)
    as (o & s' & off' & HR & Hok' & Hrun & Harr & Hres).
  { by rewrite drop_0. }
  exists s'. unfold decode, uint8ArrayToReader. rewrite Harr, Hrun.
  repeat split; try done.
  intros res [= ->] Hbytes. destruct Hres as (Hst & _ & Hoff).
  by rewrite Hst, Hoff.
Qed.
End stream_reader.

(** ** What [deserializeAddress] makes of an array of bytes *)

(** The three layouts it accepts, whatever follows them. *)
Lemma decode_v4_bytes (parts : list Z) (hi lo : Z) (tail : list Z) :
  length parts = 4%nat ->
  decode (AddrType.IPv4 :: parts ++ hi :: lo :: tail)
  = Returned {| hostname := join (chr ".") (map toString parts);
                port := Z.shiftl hi 8 + lo; bytesRead := 7 |}.
Proof.
  intros Hlen. unfold decode, deserializeAddress, uint8ArrayToReader.
  erewrite bind_Returned; [| apply ArrayReader_readN; solve_length].
  cbn [take drop lookup_total list_lookup_total].
  unfold deserializeHost.
  change (AddrType.IPv4 =? AddrType.IPv4) with true. cbv iota.
  erewrite bind_Returned.
  2: { erewrite bind_Returned; [reflexivity |].
       apply ArrayReader_readN. solve_length. }
  cbv beta iota.
  erewrite bind_Returned; [| apply ArrayReader_readN; solve_length].
  cbn [drop Nat.add].
  rewrite drop_0, (take_app_length' parts), (drop_app_length' parts) by done.
  cbn [take lookup_total list_lookup_total].
  reflexivity.
Qed.

Lemma decode_v6_bytes (buff : list Z) (hi lo : Z) (tail : list Z) :
  length buff = 16%nat ->
  decode (AddrType.IPv6 :: buff ++ hi :: lo :: tail)
  = Returned {| hostname := join (chr ":") (map toString (ipv6_parts buff));
                port := Z.shiftl hi 8 + lo; bytesRead := 19 |}.
Proof.
  intros Hlen. unfold decode, deserializeAddress, uint8ArrayToReader.
  erewrite bind_Returned; [| apply ArrayReader_readN; solve_length].
  cbn [take drop lookup_total list_lookup_total].
  unfold deserializeHost.
  change (AddrType.IPv6 =? AddrType.IPv4) with false.
  change (AddrType.IPv6 =? AddrType.IPv6) with true. cbv iota.
  erewrite bind_Returned.
  2: { erewrite bind_Returned; [reflexivity |].
       apply ArrayReader_readN. solve_length. }
  cbv beta iota.
  erewrite bind_Returned; [| apply ArrayReader_readN; solve_length].
  cbn [drop Nat.add].
  rewrite drop_0, (take_app_length' buff), (drop_app_length' buff) by done.
  cbn [take lookup_total list_lookup_total].
  reflexivity.
Qed.

Lemma decode_domain_bytes (len : Z) (name : list Z) (hi lo : Z)
    (tail : list Z) :
  length name = Z.to_nat len ->
  decode (AddrType.DomainName :: len :: name ++ hi :: lo :: tail)
  = Returned {| hostname := TextDecoder_decode name;
                port := Z.shiftl hi 8 + lo; bytesRead := len + 1 + 3 |}.
Proof.
  intros Hlen. unfold decode, deserializeAddress, uint8ArrayToReader.
  erewrite bind_Returned; [| apply ArrayReader_readN; solve_length].
  cbn [take drop lookup_total list_lookup_total].
  unfold deserializeHost.
  change (AddrType.DomainName =? AddrType.IPv4) with false.
  change (AddrType.DomainName =? AddrType.IPv6) with false.
  change (AddrType.DomainName =? AddrType.DomainName) with true. cbv iota.
  erewrite bind_Returned.
  2: { erewrite bind_Returned; [| apply ArrayReader_readN; solve_length].
       cbn [take drop lookup_total list_lookup_total Nat.add].
       erewrite bind_Returned; [reflexivity |].
       apply ArrayReader_readN. solve_length. }
  cbv beta iota.
  erewrite bind_Returned; [| apply ArrayReader_readN; solve_length].
  cbn [drop Nat.add].
  rewrite <- Hlen, drop_0, (take_app_length name), (drop_app_length name).
  cbn [take lookup_total list_lookup_total].
  reflexivity.
Qed.

(** Every array is of one of these layouts, or too short for the one its
    first byte announces, or starts with a byte that is no address type. *)
Lemma decode_cases (bs : list Z) :
  (exists e, decode bs = Threw e /\ is_eof e)
  \/ (exists t rest,
        bs = t :: rest
        /\ t <> AddrType.IPv4 /\ t <> AddrType.IPv6
        /\ t <> AddrType.DomainName
        /\ decode bs
           = Threw (Error (js "unexpected address type: " ++ toString t)))
  \/ (exists parts hi lo tail,
        bs = AddrType.IPv4 :: parts ++ hi :: lo :: tail
        /\ length parts = 4%nat)
  \/ (exists buff hi lo tail,
        bs = AddrType.IPv6 :: buff ++ hi :: lo :: tail
        /\ length buff = 16%nat)
  \/ (exists len name hi lo tail,
        bs = AddrType.DomainName :: len :: name ++ hi :: lo :: tail
        /\ length name = Z.to_nat len).
Proof.
  unfold decode, deserializeAddress, deserializeHost, uint8ArrayToReader, bind.
  rewrite ArrayReader_readN_total.
  destruct bs as [|t r].
  { left. eexists. split; [reflexivity | by eexists]. }
  cbn [length Nat.sub Nat.leb drop take lookup_total list_lookup_total].
  cbv beta iota zeta.
  destruct (Z.eqb_spec t AddrType.IPv4) as [-> | Hn4].
  { rewrite ArrayReader_readN_total. cbn [length Nat.sub Nat.add].
    rewrite Nat.sub_0_r.
    destruct (Nat.leb_spec 4 (length r)) as [H4 | H4];
      [| left; eexists; split; [reflexivity | by eexists]].
    cbv beta iota zeta. unfold ret at 1.
    rewrite ArrayReader_readN_total. cbn [length Nat.sub Nat.add].
    destruct (Nat.leb_spec 2 (length r - 4)) as [H2 | H2];
      [| left; eexists; split; [reflexivity | by eexists]].
    right. right. left.
    destruct (drop 4 r) as [|hi [|lo tail]] eqn:Hd;
      try (apply (f_equal length) in Hd; rewrite length_drop in Hd;
           simpl in Hd; lia).
    exists (take 4 r), hi, lo, tail. split.
    - by rewrite <- Hd, take_drop.
    - rewrite length_take. lia. }
  destruct (Z.eqb_spec t AddrType.IPv6) as [-> | Hn6].
  { rewrite ArrayReader_readN_total. cbn [length Nat.sub Nat.add].
    rewrite Nat.sub_0_r.
    destruct (Nat.leb_spec 16 (length r)) as [H4 | H4];
      [| left; eexists; split; [reflexivity | by eexists]].
    cbv beta iota zeta. unfold ret at 1.
    rewrite ArrayReader_readN_total. cbn [length Nat.sub Nat.add].
    destruct (Nat.leb_spec 2 (length r - 16)) as [H2 | H2];
      [| left; eexists; split; [reflexivity | by eexists]].
    right. right. right. left.
    destruct (drop 16 r) as [|hi [|lo tail]] eqn:Hd;
      try (apply (f_equal length) in Hd; rewrite length_drop in Hd;
           simpl in Hd; lia).
    exists (take 16 r), hi, lo, tail. split.
    - by rewrite <- Hd, take_drop.
    - rewrite length_take. lia. }
  destruct (Z.eqb_spec t AddrType.DomainName) as [-> | Hn3].
  { rewrite ArrayReader_readN_total. cbn [length Nat.sub Nat.add].
    rewrite Nat.sub_0_r.
    destruct r as [|len r];
      [left; eexists; split; [reflexivity | by eexists] |].
    cbn [length Nat.leb drop take lookup_total list_lookup_total].
    cbv beta iota zeta.
    rewrite ArrayReader_readN_total. cbn [length Nat.sub Nat.add drop].
    rewrite Nat.sub_0_r.
    destruct (Nat.leb_spec (Z.to_nat len) (length r)) as [H4 | H4];
      [| left; eexists; split; [reflexivity | by eexists]].
    cbv beta iota zeta. unfold ret at 1.
    rewrite ArrayReader_readN_total. cbn [length Nat.sub Nat.add].
    destruct (Nat.leb_spec 2 (length r - Z.to_nat len)) as [H2 | H2];
      [| left; eexists; split; [reflexivity | by eexists]].
    right. right. right. right.
    destruct (drop (Z.to_nat len) r) as [|hi [|lo tail]] eqn:Hd;
      try (apply (f_equal length) in Hd; rewrite length_drop in Hd;
           simpl in Hd; lia).
    exists len, (take (Z.to_nat len) r), hi, lo, tail. split.
    - by rewrite <- Hd, take_drop.
    - rewrite length_take. lia. }
  right. left. exists t, r. by repeat split.
Qed.

(** X2: how [deserializeAddress] fails on the bytes of a datagram.  It
    always settles; it throws only [UnexpectedEof] (the bytes end before
    the address does) or, when the first byte is none of 1, 3 and 4,
    the error "unexpected address type: <byte>", and this whatever follows
    that byte.  What it accepts has at least four bytes. *)
Theorem decode_failure_modes (bs : list Z) :
  match decode bs with
  | Returned res => (4 <= length bs)%nat
  | Threw e =>
      is_eof e
      \/ exists t rest,
           bs = t :: rest
           /\ t <> AddrType.IPv4 /\ t <> AddrType.IPv6
           /\ t <> AddrType.DomainName
           /\ e = Error (js "unexpected address type: " ++ toString t)
           /\ forall rest',
                decode (t :: rest')
                = Threw (Error (js "unexpected address type: " ++ toString t))
  | Pends => False
  end.
Proof.
  destruct (decode_cases bs)
    as [(e & -> & He)
       | [(t & rest & -> & H4 & H6 & H3 & ->)
         | [(parts & hi & lo & tail & -> & Hlen)
           | [(buff & hi & lo & tail & -> & Hlen)
             | (len & name & hi & lo & tail & -> & Hlen)]]]].
  - by left.
  - right. exists t, rest. repeat split; try done.
    intros rest'.
    destruct (decode_cases (t :: rest'))
      as [(e & He & Heof)
         | [(t' & r' & [= <- <-] & _ & _ & _ & ->)
           | [(? & ? & ? & ? & [= -> _] & _)
             | [(? & ? & ? & ? & [= -> _] & _)
               | (? & ? & ? & ? & ? & [= -> _] & _)]]]]; try done.
    exfalso. revert He Heof.
    unfold decode, deserializeAddress, deserializeHost, uint8ArrayToReader.
    erewrite bind_Returned; [| apply ArrayReader_readN; simpl; lia].
    cbn [take drop lookup_total list_lookup_total].
    apply Z.eqb_neq in H4, H6, H3. rewrite H4, H6, H3.
    unfold bind, throw. cbn [fst]. intros [= <-] [? [=]].
  - rewrite decode_v4_bytes by done. solve_length.
  - rewrite decode_v6_bytes by done. solve_length.
  - rewrite decode_domain_bytes by done. solve_length.
Qed.

(** X3: [deserializeAddress] reads the address and nothing after it.  When
    it accepts an array of bytes, [bytesRead] is the length of the address
    at its front, between 4 and the length of the array, and the result is
    the same whatever follows these [bytesRead] bytes: [receive] finds the
    payload right after them. *)
Theorem decode_reads_prefix (bs : list Z) (res : Address) :
  Forall is_byte bs ->
  decode bs = Returned res ->
  4 <= bytesRead res <= Z.of_nat (length bs)
  /\ forall tail,
       decode (take (Z.to_nat (bytesRead res)) bs ++ tail) = Returned res.
Proof.
  intros Hbytes Hdec.
  destruct (decode_cases bs)
    as [(e & He & _)
       | [(t & rest & _ & _ & _ & _ & He)
         | [(parts & hi & lo & tail & -> & Hlen)
           | [(buff & hi & lo & tail & -> & Hlen)
             | (len & name & hi & lo & tail & -> & Hlen)]]]];
    try congruence.
  - rewrite decode_v4_bytes in Hdec by done. injection Hdec as <-.
    cbn [bytesRead]. split; [solve_length |].
    intros tail'. change (Z.to_nat 7) with (1 + 4 + 2)%nat.
    replace (take (1 + 4 + 2) (AddrType.IPv4 :: parts ++ hi :: lo :: tail))
      with (AddrType.IPv4 :: parts ++ [hi; lo]).
    + rewrite <- app_comm_cons, <- app_assoc. by apply decode_v4_bytes.
    + cbn [Nat.add take]. f_equal. rewrite take_app, Hlen.
      by rewrite take_ge by lia.
  - rewrite decode_v6_bytes in Hdec by done. injection Hdec as <-.
    cbn [bytesRead]. split; [solve_length |].
    intros tail'. change (Z.to_nat 19) with (1 + 16 + 2)%nat.
    replace (take (1 + 16 + 2) (AddrType.IPv6 :: buff ++ hi :: lo :: tail))
      with (AddrType.IPv6 :: buff ++ [hi; lo]).
    + rewrite <- app_comm_cons, <- app_assoc. by apply decode_v6_bytes.
    + cbn [Nat.add take]. f_equal. rewrite take_app, Hlen.
      by rewrite take_ge by lia.
  - rewrite decode_domain_bytes in Hdec by done. injection Hdec as <-.
    cbn [bytesRead].
    assert (0 <= len) as Hpos.
    { apply Forall_cons_1 in Hbytes as [_ Hbytes].
      apply Forall_cons_1 in Hbytes as [[? ?] _]. done. }
    split; [solve_length |].
    intros tail'.
    replace (Z.to_nat (len + 1 + 3)) with (2 + (length name + 2))%nat by lia.
    replace (take (2 + (length name + 2))
               (AddrType.DomainName :: len :: name ++ hi :: lo :: tail))
      with (AddrType.DomainName :: len :: name ++ [hi; lo]).
    + rewrite <- !app_comm_cons, <- app_assoc. by apply decode_domain_bytes.
    + cbn [Nat.add take]. f_equal. f_equal.
      rewrite take_app. rewrite take_ge by lia. f_equal.
      by replace (length name + 2 - length name)%nat with 2%nat by lia.
Qed.

Lemma decode_reads_prefix_witness :
  4 <= 7 <= 9
  /\ decode (take 7 [1; 1; 2; 3; 4; 4; 210; 9; 9] ++ [8])
     = Returned {| hostname := js "1.2.3.4"; port := 1234; bytesRead := 7 |}.
Proof.
  destruct (decode_reads_prefix [1; 1; 2; 3; 4; 4; 210; 9; 9]
              {| hostname := js "1.2.3.4"; port := 1234; bytesRead := 7 |})
    as [Hlen Htail].
  - repeat (apply Forall_cons_2; [unfold is_byte; lia |]). apply Forall_nil_2.
  - vm_compute. reflexivity.
  - split; [exact Hlen | exact (Htail [8])].
Defined.

(** ** What the two patterns accept *)

Lemma rmatch_Rep_Class_inv (p : Z -> bool) (hi : nat) :
  forall (lo : nat) s k,
    rmatch (Rep lo hi (Class p)) s k = true ->
    exists ds rest,
      s = ds ++ rest /\ forallb p ds = true
      /\ (lo <= length ds <= hi)%nat /\ k rest = true.
Proof.
  induction hi as [|hi IH]; intros lo s k H.
  - cbn [rmatch] in H. destruct lo; [| done].
    exists [], s. repeat split; simpl; try done; lia.
  - rewrite rmatch_Rep_succ in H. apply orb_true_iff in H as [H | H].
    + cbn [rmatch] in H. destruct s as [|c s]; [done |].
      apply andb_true_iff in H as [Hc H].
      destruct (IH _ _ _ H) as (ds & rest & -> & Hds & Hlen & Hk).
      exists (c :: ds), rest. repeat split; simpl; try done; try lia.
      by rewrite Hc, Hds.
    + destruct lo; [| done].
      exists [], s. repeat split; simpl; try done; lia.
Qed.

(** A group [p{lo,hi}q]. *)
Lemma rmatch_group_inv (p q : Z -> bool) (lo hi : nat) s k :
  rmatch (Cat (Rep lo hi (Class p)) (Class q)) s k = true ->
  exists ds c rest,
    s = ds ++ c :: rest /\ forallb p ds = true
    /\ (lo <= length ds <= hi)%nat /\ q c = true /\ k rest = true.
Proof.
  intros H.
  change (rmatch (Rep lo hi (Class p)) s (fun s' => rmatch (Class q) s' k) = true)
    in H.
  apply rmatch_Rep_Class_inv in H as (ds & rest & -> & Hds & Hlen & H).
  cbn [rmatch] in H. destruct rest as [|c rest]; [done |].
  apply andb_true_iff in H as [Hc Hk].
  by exists ds, c, rest.
Qed.

Lemma rmatch_Rep_exact (n : nat) (r : regex) s k :
  rmatch (Rep (Datatypes.S n) (Datatypes.S n) r) s k
  = rmatch r s (fun s' => rmatch (Rep n n r) s' k).
Proof. rewrite rmatch_Rep_succ. apply orb_false_r. Qed.

(** A host the IPv4 pattern accepts has a dot in it. *)
Lemma v4Pattern_has_dot (s : jsstring) :
  v4Pattern s = true -> In (chr ".") s.
Proof.
  unfold v4Pattern, test_prefix. intros H.
  change (rmatch (Cat ?r1 ?r2) ?s ?k)
    with (rmatch r1 s (fun s' => rmatch r2 s' k)) in H.
  rewrite rmatch_Rep_exact in H.
  apply rmatch_group_inv in H as (ds & c & rest & -> & _ & _ & Hc & _).
  apply Z.eqb_eq in Hc as ->. apply in_app_iff. right. by left.
Qed.

Lemma rmatch_hex_groups_inv (n : nat) :
  forall s k,
    rmatch (Rep n n (Cat (Rep 1 4 hex_digit) colon)) s k = true ->
    exists gs rest,
      length gs = n /\ Forall hex_group_ok gs
      /\ s = flat_map (fun g => g ++ [chr ":"]) gs ++ rest
      /\ k rest = true.
Proof.
  induction n as [|n IH]; intros s k H.
  - exists [], s. by repeat split.
  - rewrite rmatch_Rep_exact in H.
    apply rmatch_group_inv in H as (ds & c & rest & -> & Hds & Hlen & Hc & H).
    apply Z.eqb_eq in Hc as ->.
    destruct (IH _ _ H) as (gs & rest' & Hn & Hgs & -> & Hk).
    exists (ds :: gs), rest'. repeat split; try done.
    + simpl. by rewrite Hn.
    + by apply Forall_cons_2.
    + cbn [flat_map]. by rewrite <- !app_assoc.
Qed.

Lemma join_snoc (sep : Z) (gs : list jsstring) (g : jsstring) :
  join sep (gs ++ [g]) = flat_map (fun x => x ++ [sep]) gs ++ g.
Proof.
  induction gs as [|x gs IH]; [done |].
  cbn [app flat_map]. rewrite <- !app_assoc, <- IH. cbn [app].
  destruct gs; reflexivity.
Qed.

(** The hosts the IPv6 pattern accepts: eight such groups joined by
    colons. *)
Lemma v6Pattern_inv (s : jsstring) :
  v6Pattern s = true ->
  exists gs,
    length gs = 8%nat /\ Forall hex_group_ok gs /\ s = join (chr ":") gs.
Proof.
  unfold v6Pattern, test_whole. intros H.
  change (rmatch (Cat ?r1 ?r2) ?s ?k)
    with (rmatch r1 s (fun s' => rmatch r2 s' k)) in H.
  apply rmatch_hex_groups_inv in H as (gs & rest & Hn & Hgs & -> & H).
  apply rmatch_Rep_Class_inv in H as (g & rest' & -> & Hg & Hlen & H).
  unfold list_eqb in H. apply bool_decide_eq_true in H as ->.
  exists (gs ++ [g]). repeat split.
  - rewrite length_app, Hn. reflexivity.
  - apply Forall_app. split; [done |]. by apply Forall_cons_2.
  - by rewrite join_snoc, app_nil_r.
Qed.

Lemma hex_digit_cases (c : Z) :
  is_hex_digit c = true ->
  48 <= c <= 57 \/ 65 <= c <= 70 \/ 97 <= c <= 102.
Proof.
  unfold is_hex_digit, is_digit. intros H.
  repeat match type of H with
         | context [?a <=? ?b] => destruct (Z.leb_spec a b)
         end; simpl in H; try done; lia.
Qed.

Lemma hex_no_colon (g : jsstring) :
  forallb is_hex_digit g = true ->
  forallb (fun c => negb (c =? chr ":")) g = true.
Proof.
  intros H. rewrite forallb_forall in *. intros c Hc.
  specialize (H c Hc). apply hex_digit_cases in H.
  apply negb_true_iff, Z.eqb_neq. change (chr ":") with 58. lia.
Qed.

Lemma split_join_hex (gs : list jsstring) :
  gs <> [] ->
  Forall hex_group_ok gs ->
  split (chr ":") (join (chr ":") gs) = gs.
Proof.
  intros Hne Hgs. induction Hgs as [|g gs [Hg _] Hgs IH]; [done |].
  destruct gs as [|g' gs].
  - cbn [join]. by apply split_last, hex_no_colon.
  - change (join (chr ":") (g :: g' :: gs))
      with (g ++ chr ":" :: join (chr ":") (g' :: gs)).
    rewrite split_piece by (by apply hex_no_colon).
    by rewrite IH.
Qed.

(** No character of such a host is a dot, so the IPv4 pattern, tried first,
    refuses it. *)
Lemma v6_host_not_v4 (gs : list jsstring) :
  Forall hex_group_ok gs -> v4Pattern (join (chr ":") gs) = false.
Proof.
  intros Hgs. apply not_true_is_false. intros H.
  apply v4Pattern_has_dot in H.
  induction Hgs as [|g gs [Hg _] Hgs IH]; [done |].
  assert (~ In (chr ".") g) as Hnot.
  { intros Hin. rewrite forallb_forall in Hg.
    apply Hg, hex_digit_cases in Hin. change (chr ".") with 46 in Hin. lia. }
  destruct gs as [|g' gs]; [done |].
  change (join (chr ":") (g :: g' :: gs))
    with (g ++ chr ":" :: join (chr ":") (g' :: gs)) in H.
  apply in_app_iff in H as [H | [H | H]]; [done | done | by apply IH].
Qed.

(** [parseInt(x, 16)] of such a group is its value in base 16. *)
Lemma span_all (p : Z -> bool) (s : jsstring) :
  forallb p s = true -> span p s = (s, []).
Proof.
  induction s as [|c s IH]; [done |].
  simpl. intros H. apply andb_true_iff in H as [-> H]. by rewrite IH.
Qed.

Lemma parseInt16_hex_group (g : jsstring) :
  hex_group_ok g ->
  parseInt16 g = round_binary64 false (digits_value 16 g) 1.
Proof.
  intros [Hg Hlen]. destruct g as [|c g]; [simpl in Hlen; lia |].
  pose proof Hg as Hall. cbn [forallb] in Hg.
  apply andb_true_iff in Hg as [Hc Hg]. pose proof (hex_digit_cases c Hc) as Rc.
  unfold parseInt16.
  assert (trim_start (c :: g) = c :: g) as ->.
  { unfold trim_start. cbn [span].
    assert (is_whitespace c = false) as ->; [| done].
    unfold is_whitespace.
    repeat match goal with
           | |- context [?a <=? ?b] => destruct (Z.leb_spec a b); try lia
           | |- context [?a =? ?b] => destruct (Z.eqb_spec a b); try lia
           end; reflexivity. }
  assert (strip_sign (c :: g) = (false, c :: g)) as ->.
  { unfold strip_sign. change (chr "-") with 45. change (chr "+") with 43.
    destruct (Z.eqb_spec c 45); [lia |]. destruct (Z.eqb_spec c 43); [lia |].
    done. }
  assert (strip_hex_prefix (c :: g) = c :: g) as ->.
  { unfold strip_hex_prefix. destruct g as [|x g]; [done |].
    cbn [forallb] in Hg. apply andb_true_iff in Hg as [Hx _].
    apply hex_digit_cases in Hx.
    change (chr "x") with 120. change (chr "X") with 88.
    destruct (Z.eqb_spec x 120); [lia |]. destruct (Z.eqb_spec x 88); [lia |].
    by rewrite andb_false_r. }
  by rewrite span_all.
Qed.

Lemma digit_value_hex (c : Z) :
  is_hex_digit c = true -> 0 <= digit_value c <= 15.
Proof.
  intros H. apply hex_digit_cases in H. unfold digit_value, is_digit.
  repeat match goal with
         | |- context [?a <=? ?b] => destruct (Z.leb_spec a b)
         end; cbn [andb]; lia.
Qed.

Lemma hex_group_value (g : jsstring) :
  hex_group_ok g -> 0 <= digits_value 16 g < 65536.
Proof.
  intros [Hg Hlen]. unfold digits_value.
  repeat (destruct g as [|? g];
          [ cbn [forallb] in Hg;
            repeat match goal with
                   | H : _ && _ = true |- _ => apply andb_true_iff in H as [? H]
                   end;
            repeat match goal with
                   | H : is_hex_digit _ = true |- _ =>
                       apply digit_value_hex in H
                   end;
            cbn [fold_left]; lia |]).
  simpl in Hlen. lia.
Qed.

(** A positive integer below 2^16 as a double: its bits, shifted up to 53
    significant bits. *)
Lemma round_binary64_small (v : Z) :
  0 < v < 65536 ->
  round_binary64 false v 1 = Real (v * 2 ^ (52 - Z.log2 v)) (Z.log2 v - 52).
Proof.
  intros Hv.
  assert (0 <= Z.log2 v < 16) as He.
  { split; [apply Z.log2_nonneg |]. apply Z.log2_lt_pow2; lia. }
  pose proof (Z.log2_spec v ltac:(lia)) as [Hlo Hhi].
  set (s := 52 - Z.log2 v).
  assert (0 < 2 ^ s) as Hs by (apply Z.pow_pos_nonneg; lia).
  assert (scale_num v (Z.log2 v) = v) as F1.
  { unfold scale_num. by destruct (Z.leb_spec 0 (Z.log2 v)); [| lia]. }
  assert (scale_den 1 (Z.log2 v) = 2 ^ Z.log2 v) as F2.
  { unfold scale_den. destruct (Z.leb_spec 0 (Z.log2 v)); lia. }
  assert ((v <? 2 ^ Z.log2 v) = false) as F3 by (apply Z.ltb_ge; lia).
  assert (Z.max (Z.log2 v - 52) (-1074) = Z.log2 v - 52) as F4 by lia.
  assert (scale_num v (Z.log2 v - 52) = v * 2 ^ s) as F5.
  { unfold scale_num. destruct (Z.leb_spec 0 (Z.log2 v - 52)); [lia |].
    by replace (- (Z.log2 v - 52)) with s by lia. }
  assert (scale_den 1 (Z.log2 v - 52) = 1) as F6.
  { unfold scale_den. by destruct (Z.leb_spec 0 (Z.log2 v - 52)); [lia |]. }
  unfold round_binary64.
  change (Z.log2 1) with 0. rewrite Z.sub_0_r.
  rewrite F1, F2, F3, F4, F5, F6, Z.div_1_r, Z.mod_1_r.
  destruct (Z.eqb_spec v 0); [lia |].
  change (1 <? 2 * 0) with false. change (1 =? 2 * 0) with false.
  cbn [orb andb].
  destruct (Z.eqb_spec (v * 2 ^ s) 0); [nia |].
  rewrite Z.log2_mul_pow2 by lia.
  destruct (Z.leb_spec 1024 (s + Z.log2 v + (Z.log2 v - 52)));
    [unfold s in *; lia | done].
Qed.

(** The two bytes computed from a group's value: [num >> 8] and
    [num % 256], stored in a [Uint8Array]. *)
Lemma group_bytes (v : Z) :
  0 <= v < 65536 ->
  ToUint8 (shr (round_binary64 false v 1) 8) = v / 256
  /\ ToUint8 (rem (round_binary64 false v 1) 256) = v mod 256.
Proof.
  intros Hv. destruct (Z.eq_dec v 0) as [-> | Hne]; [done |].
  rewrite round_binary64_small by lia.
  assert (0 <= Z.log2 v < 16) as He.
  { split; [apply Z.log2_nonneg |]. apply Z.log2_lt_pow2; lia. }
  set (s := 52 - Z.log2 v).
  assert (0 < 2 ^ s) as Hs by (apply Z.pow_pos_nonneg; lia).
  assert (trunc (v * 2 ^ s) (Z.log2 v - 52) = v) as Htr.
  { unfold trunc. destruct (Z.leb_spec 0 (Z.log2 v - 52)); [lia |].
    replace (- (Z.log2 v - 52)) with s by lia.
    rewrite Z.quot_mul; lia. }
  split.
  - unfold shr, ToInt32. rewrite Htr.
    change (2 ^ 31) with 2147483648. change (2 ^ 32) with 4294967296.
    rewrite Z.mod_small by lia.
    replace (v + 2147483648 - 2147483648) with v by lia.
    rewrite ToUint8_Int, Z.shiftr_div_pow2 by lia. change (2 ^ 8) with 256.
    apply Z.mod_small. split; [apply Z.div_pos; lia |].
    apply Z.div_lt_upper_bound; lia.
  - unfold rem. destruct (Z.leb_spec 0 (Z.log2 v - 52)); [lia |].
    replace (- (Z.log2 v - 52)) with s by lia.
    unfold ToUint8, trunc.
    destruct (Z.leb_spec 0 (Z.log2 v - 52)); [lia |].
    replace (- (Z.log2 v - 52)) with s by lia.
    rewrite Z.rem_mod_nonneg by nia.
    rewrite Zmult_mod_distr_r, Z.quot_mul by lia.
    apply Z.mod_small. apply Z.mod_pos_bound. lia.
Qed.

(** ** [serializeAddress] on the hosts the patterns accept *)

Lemma serializeAddress_v6_bytes (host : jsstring) (p : Z) :
  v6Pattern host = true ->
  0 <= p < 65536 ->
  exists gs,
    length gs = 8%nat /\ Forall hex_group_ok gs
    /\ host = join (chr ":") gs
    /\ split (chr ":") host = gs
    /\ serializeAddress host p
       = AddrType.IPv6
           :: flat_map
                (fun g => [digits_value 16 g / 256; digits_value 16 g mod 256])
                gs
           ++ [p / 256; p mod 256].
Proof.
  intros H6 Hp.
  destruct (v6Pattern_inv host H6) as (gs & Hn & Hgs & ->).
  exists gs. repeat split; try done.
  { apply split_join_hex; [by destruct gs | done]. }
  unfold serializeAddress. rewrite v6_host_not_v4, H6 by done.
  rewrite split_join_hex; [| by destruct gs | done].
  unfold Uint8Array_from. rewrite !map_app.
  change (map ToUint8 (portBytes p)) with (Uint8Array_from (portBytes p)).
  rewrite portBytes_uint16 by done.
  cbn [map app]. rewrite ToUint8_Int. f_equal. f_equal.
  clear Hn H6. induction Hgs as [|g gs Hg Hgs IH]; [done |].
  cbn [flat_map]. rewrite map_app, IH. f_equal.
  cbn [map]. rewrite parseInt16_hex_group by done.
  destruct (group_bytes (digits_value 16 g) (hex_group_value g Hg)) as [-> ->].
  reflexivity.
Qed.

(** X4: what [serializeAddress] emits for every host the IPv6 pattern
    accepts.  Such a host is eight colon-separated groups of one to four
    hexadecimal digits; the output is the type byte 4, for each group the
    two bytes of its value, high byte first, and the two port bytes: 19
    bytes in all. *)
Theorem serializeAddress_ipv6_layout (host : jsstring) (p : Z) :
  v6Pattern host = true ->
  0 <= p < 65536 ->
  exists gs,
    split (chr ":") host = gs
    /\ length gs = 8%nat
    /\ Forall hex_group_ok gs
    /\ serializeAddress host p
       = AddrType.IPv6
           :: flat_map
                (fun g => [digits_value 16 g / 256; digits_value 16 g mod 256])
                gs
           ++ [p / 256; p mod 256]
    /\ length (serializeAddress host p) = 19%nat.
Proof.
  intros H6 Hp.
  destruct (serializeAddress_v6_bytes host p H6 Hp)
    as (gs & Hn & Hgs & _ & Hsplit & Hser).
  exists gs. repeat split; try done.
  rewrite Hser. cbn [length]. rewrite length_app. cbn [length].
  do 9 (destruct gs as [|? gs]; try done).
Qed.

Lemma serializeAddress_ipv6_layout_witness :
  exists gs,
    split (chr ":") (js "102:304:506:708:90a:b0c:d0e:f10") = gs
    /\ length gs = 8%nat
    /\ Forall hex_group_ok gs
    /\ serializeAddress (js "102:304:506:708:90a:b0c:d0e:f10") 5678
       = AddrType.IPv6
           :: flat_map
                (fun g => [digits_value 16 g / 256; digits_value 16 g mod 256])
                gs
           ++ [5678 / 256; 5678 mod 256]
    /\ length (serializeAddress (js "102:304:506:708:90a:b0c:d0e:f10") 5678)
       = 19%nat.
Proof.
  apply (serializeAddress_ipv6_layout (js "102:304:506:708:90a:b0c:d0e:f10")
           5678).
  - vm_compute. reflexivity.
  - lia.
Defined.

Lemma ipv6_parts_groups (gs : list jsstring) :
  Forall hex_group_ok gs ->
  ipv6_parts
    (flat_map (fun g => [digits_value 16 g / 256; digits_value 16 g mod 256])
       gs)
  = map (digits_value 16) gs.
Proof.
  induction 1 as [|g gs Hg _ IH]; [done |].
  cbn [flat_map app ipv6_parts map].
  by rewrite IH, port_of_bytes by (by apply hex_group_value).
Qed.

(** X5: what comes back for an IPv6 host.  For every host the IPv6 pattern
    accepts and every 16-bit port, decoding the encoded address, whatever
    follows it, returns the port and [bytesRead] 19, and as host name the
    values of the groups printed in decimal and joined by colons, not the
    hexadecimal groups that went in. *)
Theorem roundtrip_ipv6_groups_in_decimal (host : jsstring) (p : Z)
    (payload : list Z) :
  v6Pattern host = true ->
  0 <= p < 65536 ->
  decode (serializeAddress host p ++ payload)
  = Returned
      {| hostname :=
           join (chr ":")
             (map (fun g => toString (digits_value 16 g))
                (split (chr ":") host));
         port := p; bytesRead := 19 |}.
Proof.
  intros H6 Hp.
  destruct (serializeAddress_v6_bytes host p H6 Hp)
    as (gs & Hn & Hgs & _ & -> & ->).
  rewrite <- app_comm_cons, <- app_assoc. cbn [app].
  rewrite decode_v6_bytes.
  2: { do 9 (destruct gs as [|? gs]; try done). }
  rewrite port_of_bytes by done. do 3 f_equal.
  by rewrite ipv6_parts_groups, map_map.
Qed.

Lemma roundtrip_ipv6_groups_in_decimal_witness :
  decode (serializeAddress (js "ff02:0:0:0:0:0:0:1") 53 ++ [7; 7])
  = Returned
      {| hostname :=
           join (chr ":")
             (map (fun g => toString (digits_value 16 g))
                (split (chr ":") (js "ff02:0:0:0:0:0:0:1")));
         port := 53; bytesRead := 19 |}.
Proof.
  apply roundtrip_ipv6_groups_in_decimal.
  - vm_compute. reflexivity.
  - lia.
Defined.

(** [Number] reads one to three decimal digits as their value, and the
    [Uint8Array] keeps it modulo 256. *)
Lemma digit_in_range (c : Z) :
  is_digit c = true -> In c (map Z.of_nat (seq 48 10)).
Proof.
  unfold is_digit. intros H. apply andb_true_iff in H as [H1 H2].
  apply Z.leb_le in H1, H2.
  apply in_map_iff. exists (Z.to_nat c). split; [lia |]. apply in_seq. lia.
Qed.

Lemma Number_octet (ds : jsstring) :
  forallb is_digit ds = true ->
  (1 <= length ds <= 3)%nat ->
  ToUint8 (Number ds) = digits_value 10 ds mod 256.
Proof.
  intros Hds Hlen.
  set (digits := map Z.of_nat (seq 48 10)).
  set (good := fun ds => ToUint8 (Number ds) =? digits_value 10 ds mod 256).
  assert (forallb (fun a => good [a]) digits = true) as H1
    by (vm_compute; reflexivity).
  assert (forallb (fun a => forallb (fun b => good [a; b]) digits) digits
          = true) as H2 by (vm_compute; reflexivity).
  assert (forallb
            (fun a =>
               forallb (fun b => forallb (fun c => good [a; b; c]) digits)
                 digits) digits = true) as H3 by (vm_compute; reflexivity).
  rewrite forallb_forall in H1, H2, H3.
  destruct ds as [|a [|b [|c [|? ?]]]]; simpl in Hlen; try lia;
    cbn [forallb] in Hds;
    repeat match goal with
           | H : _ && _ = true |- _ => apply andb_true_iff in H as [? H]
           end;
    repeat match goal with
           | H : is_digit _ = true |- _ => apply digit_in_range in H
           end.
  - apply Z.eqb_eq. by apply (H1 a).
  - specialize (H2 a ltac:(done)). rewrite forallb_forall in H2.
    apply Z.eqb_eq. by apply (H2 b).
  - specialize (H3 a ltac:(done)). rewrite forallb_forall in H3.
    specialize (H3 b ltac:(done)). rewrite forallb_forall in H3.
    apply Z.eqb_eq. by apply (H3 c).
Qed.

(** X6: the octets of a dotted quad are not checked against 255.  For a
    host of four dot-separated groups of one to three decimal digits,
    [serializeAddress] emits the type byte 1, the value of each group
    modulo 256 (so 300 becomes 44), and the two port bytes. *)
Theorem serializeAddress_ipv4_octets_wrap (p1 p2 p3 p4 : jsstring)
    (port : Z) :
  Forall (fun ds => forallb is_digit ds = true /\ (1 <= length ds <= 3)%nat)
    [p1; p2; p3; p4] ->
  0 <= port < 65536 ->
  serializeAddress (join (chr ".") [p1; p2; p3; p4]) port
  = AddrType.IPv4
      :: map (fun ds => digits_value 10 ds mod 256) [p1; p2; p3; p4]
      ++ [port / 256; port mod 256].
Proof.
  intros Hq Hp.
  rewrite (serializeAddress_v4 _ port (v4Pattern_dotted_quad p1 p2 p3 p4 Hq)).
  rewrite portBytes_uint16 by done.
  apply Forall_cons in Hq as [[H1 L1] Hq]. apply Forall_cons in Hq as [[H2 L2] Hq].
  apply Forall_cons in Hq as [[H3 L3] Hq]. apply Forall_cons in Hq as [[H4 L4] _].
  cbn [join].
  rewrite !split_piece, split_last by (by apply digits_no_dot).
  cbn [map]. by rewrite !Number_octet.
Qed.

Lemma serializeAddress_ipv4_octets_wrap_witness :
  serializeAddress (join (chr ".") [js "300"; js "1"; js "02"; js "999"]) 80
  = AddrType.IPv4
      :: map (fun ds => digits_value 10 ds mod 256)
           [js "300"; js "1"; js "02"; js "999"]
      ++ [80 / 256; 80 mod 256].
Proof.
  apply serializeAddress_ipv4_octets_wrap.
  - repeat (apply Forall_cons_2; [split; [reflexivity | simpl; lia] |]).
    apply Forall_nil_2.
  - lia.
Defined.

(** The bytes of a dotted quad in canonical form. *)
Lemma serializeAddress_canonical_v4 (a b c d p : Z) :
  is_byte a -> is_byte b -> is_byte c -> is_byte d ->
  0 <= p < 65536 ->
  serializeAddress (join (chr ".") (map toString [a; b; c; d])) p
  = [AddrType.IPv4; a; b; c; d; p / 256; p mod 256].
Proof.
  intros Ha Hb Hc Hd Hp.
  pose proof (byte_prints_all a Ha) as Pa. pose proof (byte_prints_all b Hb) as Pb.
  pose proof (byte_prints_all c Hc) as Pc. pose proof (byte_prints_all d Hd) as Pd.
  unfold byte_prints in Pa, Pb, Pc, Pd.
  repeat match goal with
         | H : _ && _ = true |- _ => apply andb_true_iff in H as [H ?]
         | H : (_ <=? _)%nat = true |- _ => apply Nat.leb_le in H
         | H : (_ =? _) = true |- _ => apply Z.eqb_eq in H
         end.
  set (host := join (chr ".") (map toString [a; b; c; d])).
  assert (v4Pattern host = true) as Hv4.
  { apply v4Pattern_dotted_quad. repeat apply Forall_cons_2; try done. }
  rewrite (serializeAddress_v4 host p Hv4), portBytes_uint16 by done.
  assert (split (chr ".") host = map toString [a; b; c; d]) as ->.
  { unfold host. cbn [map join].
    rewrite !split_piece, split_last by (by apply digits_no_dot). done. }
  cbn [map].
  repeat match goal with H : ToUint8 _ = _ |- _ => rewrite H; clear H end.
  reflexivity.
Qed.

(** X7: a dotted quad in canonical form survives the round trip.  For
    octets [a.b.c.d] printed in decimal and a 16-bit port,
    [serializeAddress] emits the seven bytes 1, a, b, c, d and the port,
    high byte first, and [deserializeAddress] reads host and port back from
    them with [bytesRead] 7, whatever payload follows. *)
Theorem roundtrip_ipv4_with_payload (a b c d p : Z) (payload : list Z) :
  is_byte a -> is_byte b -> is_byte c -> is_byte d ->
  0 <= p < 65536 ->
  serializeAddress (join (chr ".") (map toString [a; b; c; d])) p
  = [AddrType.IPv4; a; b; c; d; p / 256; p mod 256]
  /\ decode
       (serializeAddress (join (chr ".") (map toString [a; b; c; d])) p
          ++ payload)
     = Returned {| hostname := join (chr ".") (map toString [a; b; c; d]);
                   port := p; bytesRead := 7 |}.
Proof.
  intros Ha Hb Hc Hd Hp.
  rewrite serializeAddress_canonical_v4 by done. split; [done |].
  change ([AddrType.IPv4; a; b; c; d; p / 256; p mod 256] ++ payload)
    with (AddrType.IPv4 :: [a; b; c; d] ++ p / 256 :: p mod 256 :: payload).
  rewrite decode_v4_bytes by done. by rewrite port_of_bytes.
Qed.

Lemma roundtrip_ipv4_with_payload_witness :
  serializeAddress (join (chr ".") (map toString [192; 168; 0; 1])) 8080
  = [AddrType.IPv4; 192; 168; 0; 1; 8080 / 256; 8080 mod 256]
  /\ decode
       (serializeAddress (join (chr ".") (map toString [192; 168; 0; 1])) 8080
          ++ [104; 105])
     = Returned {| hostname := join (chr ".") (map toString [192; 168; 0; 1]);
                   port := 8080; bytesRead := 7 |}.
Proof.
  apply (roundtrip_ipv4_with_payload 192 168 0 1 8080 [104; 105]);
    unfold is_byte; lia.
Defined.

(** The bytes of an ASCII domain name of at most 255 characters. *)
Lemma serializeAddress_ascii_domain (host : jsstring) (p : Z) :
  ascii_string host ->
  (length host <= 255)%nat ->
  v4Pattern host = false ->
  v6Pattern host = false ->
  0 <= p < 65536 ->
  serializeAddress host p
  = AddrType.DomainName :: Z.of_nat (length host)
      :: host ++ [p / 256; p mod 256].
Proof.
  intros Hascii Hlen H4 H6 Hp.
  assert (wf_string host) as Hwf.
  { eapply Forall_impl; [exact Hascii |]. simpl. lia. }
  rewrite (serializeAddress_domain_bytes host p Hwf H4 H6).
  rewrite TextEncoder_encode_ascii, portBytes_uint16 by done.
  rewrite Z.mod_small by lia. reflexivity.
Qed.

(** X8: an ASCII domain name of at most 255 characters survives the round
    trip.  [serializeAddress] emits the type byte 3, the length, the
    characters and the port, high byte first, and [deserializeAddress]
    reads host and port back from them, with [bytesRead] the length plus 4,
    whatever payload follows. *)
Theorem roundtrip_domain_with_payload (host : jsstring) (p : Z)
    (payload : list Z) :
  ascii_string host ->
  (length host <= 255)%nat ->
  v4Pattern host = false ->
  v6Pattern host = false ->
  0 <= p < 65536 ->
  serializeAddress host p
  = AddrType.DomainName :: Z.of_nat (length host)
      :: host ++ [p / 256; p mod 256]
  /\ decode (serializeAddress host p ++ payload)
     = Returned {| hostname := host; port := p;
                   bytesRead := Z.of_nat (length host) + 1 + 3 |}.
Proof.
  intros Hascii Hlen H4 H6 Hp.
  rewrite serializeAddress_ascii_domain by done. split; [done |].
  rewrite <- !app_comm_cons, <- app_assoc. cbn [app].
  rewrite decode_domain_bytes by lia.
  by rewrite TextDecoder_decode_ascii, port_of_bytes.
Qed.

Lemma roundtrip_domain_with_payload_witness :
  serializeAddress (js "example.com") 3106
  = AddrType.DomainName :: Z.of_nat (length (js "example.com"))
      :: js "example.com" ++ [3106 / 256; 3106 mod 256]
  /\ decode (serializeAddress (js "example.com") 3106 ++ [1; 2; 3])
     = Returned {| hostname := js "example.com"; port := 3106;
                   bytesRead := Z.of_nat (length (js "example.com")) + 1 + 3 |}.
Proof.
  apply (roundtrip_domain_with_payload (js "example.com") 3106 [1; 2; 3]).
  - unfold ascii_string.
    let s := eval vm_compute in (js "example.com") in
    change (js "example.com") with s.
    repeat (apply Forall_cons_2; [lia |]). apply Forall_nil_2.
  - simpl. lia.
  - vm_compute. reflexivity.
  - vm_compute. reflexivity.
  - lia.
Defined.

(** ** The control connection, step by step *)

Lemma new_rid_fresh (w : World) : resources w !! new_rid w = None.
Proof.
  apply not_elem_of_dom. intros Hin.
  apply (is_fresh (dom (resources w) ∪ (set_seq 0 (next_rid w) : gset nat))).
  apply elem_of_union. by left.
Qed.

Lemma set_conn_twice (rid : nat) (x y : Resource) (w : World) :
  set_resources <[rid := x]> (set_resources <[rid := y]> w)
  = set_resources <[rid := x]> w.
Proof.
  rewrite set_resources_compose. destruct w. unfold set_resources.
  cbn [resources next_rid heap dials traffic connects].
  by rewrite insert_insert_eq.
Qed.

Lemma Deno_connect_accepts (host : jsstring) (p : Z) (w : World) script ds :
  dials w = Accepts script :: ds ->
  Deno_connect host p w
  = (Returned (new_rid w),
     set_resources <[new_rid w := RTcp {| inbox := script; outbox := [] |}]>
       (dialed w ds)).
Proof. intros H. unfold Deno_connect. by rewrite H. Qed.

Lemma writeAll_at (rid : nat) (c : TcpConn) (bs : list Z) (w : World) :
  writeAll rid bs (set_resources <[rid := RTcp c]> w)
  = (Returned tt,
     set_resources
       <[rid := RTcp {| inbox := inbox c; outbox := outbox c ++ bs |}]> w).
Proof.
  unfold writeAll. cbn [resources set_resources].
  by rewrite lookup_insert_eq, set_conn_twice.
Qed.

(** [readN] on an open connection: the next [n] bytes of the stream,
    however they arrive in chunks, or [UnexpectedEof] for those that are
    missing when the stream ends first. *)
Lemma conn_readN_total (rid n : nat) (w : World) (c : TcpConn) :
  resources w !! rid = Some (RTcp c) ->
  exists c',
    readN (conn_read rid) n w
    = (if (n <=? length (concat (inbox c)))%nat
       then Returned (take n (concat (inbox c)))
       else Threw (UnexpectedEof
                     (eof_message
                        (Z.of_nat n - Z.of_nat (length (concat (inbox c)))))),
       set_resources <[rid := RTcp c']> w)
    /\ outbox c' = outbox c
    /\ concat (inbox c') = drop n (concat (inbox c)).
Proof.
  intros Hc.
  destruct (readN_fuel_spec (conn_read rid) (conn_contract rid) n n w)
    as (cs & o & w' & Hd & Hrun & Hlen); [done |].
  destruct (conn_drain rid n w cs o w' Hd c Hc) as (c' & -> & Hout & Hcat & Ho).
  exists c'. unfold readN. rewrite Hrun. split; [| split; [done |]].
  - destruct o as [[] | e |]; [| | done].
    + rewrite Hcat, length_app, Hlen.
      destruct (Nat.leb_spec n (n + length (concat (inbox c')))); [| lia].
      cbn [collected]. by rewrite <- Hlen, take_app_length.
    + destruct Ho as [-> Hnil]. rewrite Hnil, app_nil_r in Hcat.
      rewrite Hcat.
      destruct (Nat.leb_spec n (length (concat cs))); [lia |].
      cbn [collected]. by rewrite Nat2Z.inj_sub by lia.
  - destruct o as [[] | e |]; [| | done].
    + by rewrite Hcat, <- Hlen, drop_app_length.
    + destruct Ho as [_ Hnil]. rewrite Hnil, app_nil_r in Hcat.
      rewrite Hnil, Hcat, drop_ge; [done | lia].
Qed.

Lemma readN_at (rid n : nat) (c : TcpConn) (w : World) :
  exists c',
    readN (conn_read rid) n (set_resources <[rid := RTcp c]> w)
    = (if (n <=? length (concat (inbox c)))%nat
       then Returned (take n (concat (inbox c)))
       else Threw (UnexpectedEof
                     (eof_message
                        (Z.of_nat n - Z.of_nat (length (concat (inbox c)))))),
       set_resources <[rid := RTcp c']> w)
    /\ outbox c' = outbox c
    /\ concat (inbox c') = drop n (concat (inbox c)).
Proof.
  destruct (conn_readN_total rid n (set_resources <[rid := RTcp c]> w) c)
    as (c' & Hrun & Hout & Hin).
  { cbn [resources set_resources]. apply lookup_insert_eq. }
  exists c'. by rewrite Hrun, set_conn_twice.
Qed.

Lemma close_at {A} (rid : nat) (x : Resource) (e : exn) (w : World) :
  resources w !! rid = None ->
  (ignoring (Deno_close rid);; throw e) (set_resources <[rid := x]> w)
  = (@Threw A e, w).
Proof.
  intros Hfresh. rewrite ignoring_close_then_throw. f_equal.
  rewrite set_resources_compose. destruct w. unfold set_resources.
  cbn [resources next_rid heap dials traffic connects] in *.
  rewrite delete_insert_eq. f_equal. by apply delete_id.
Qed.

(** [deserializeAddress] on an open connection gives what it gives on the
    bytes still to come, and takes the address off the stream. *)
Lemma deserializeAddress_at (rid : nat) (c : TcpConn) (w : World) :
  exists c',
    deserializeAddress (conn_read rid) (set_resources <[rid := RTcp c]> w)
    = (decode (concat (inbox c)), set_resources <[rid := RTcp c']> w)
    /\ outbox c' = outbox c
    /\ forall a,
         decode (concat (inbox c)) = Returned a ->
         Forall is_byte (concat (inbox c)) ->
         concat (inbox c')
         = drop (Z.to_nat (bytesRead a)) (concat (inbox c)).
Proof.
  set (ok := fun w' : World => exists c', w' = set_resources <[rid := RTcp c']> w).
  set (R := fun w1 w2 : World => conn_outbox rid w2 = conn_outbox rid w1).
  assert (forall c', conn_state rid (set_resources <[rid := RTcp c']> w) = Some c')
    as Hstate.
  { intros c'. unfold conn_state. cbn [resources set_resources].
    by rewrite lookup_insert_eq. }
  destruct (deserializeAddress_stream (conn_read rid) (conn_stream rid) ok R)
    with (s := set_resources <[rid := RTcp c]> w)
    as (w' & HR & (c' & ->) & Hrun & Hrest).
  - unfold R. congruence.
  - intros n w0 (c0 & ->).
    destruct (readN_at rid n c0 w) as (c1 & Hrun & Hout & Hin).
    exists (set_resources <[rid := RTcp c1]> w).
    unfold R, conn_stream, conn_outbox. rewrite !Hstate.
    repeat split; [done | by exists c1 | done | done].
  - by exists c.
  - exists c'. unfold R, conn_stream, conn_outbox in *. rewrite !Hstate in *.
    by repeat split.
Qed.

(** What [serializeAddress] returns is a [Uint8Array]: bytes. *)
Lemma ToUint8_is_byte (x : number) : is_byte (ToUint8 x).
Proof.
  unfold is_byte, ToUint8. destruct x; try lia.
  apply Z.mod_pos_bound. lia.
Qed.

Lemma serializeAddress_is_bytes (host : jsstring) (p : Z) :
  Forall is_byte (serializeAddress host p).
Proof.
  assert (forall xs, Forall is_byte (Uint8Array_from xs)) as H.
  { intros xs. unfold Uint8Array_from. apply Forall_map.
    apply Forall_forall. intros x _. apply ToUint8_is_byte. }
  unfold serializeAddress. repeat case_match; apply H.
Qed.

(** X9: [readN] on a TCP connection depends on the bytes of the stream
    only, not on how they arrive in chunks.  It returns the next [n] bytes
    and leaves the rest of the stream to later reads; when the stream ends
    before, it throws [UnexpectedEof] with the number of bytes missing.  The
    bytes written to the connection are untouched. *)
Theorem readN_conn_stream (rid n : nat) (w : World) (c : TcpConn) :
  resources w !! rid = Some (RTcp c) ->
  fst (readN (conn_read rid) n w)
  = (if (n <=? length (concat (inbox c)))%nat
     then Returned (take n (concat (inbox c)))
     else Threw (UnexpectedEof
                   (eof_message
                      (Z.of_nat n - Z.of_nat (length (concat (inbox c)))))))
  /\ conn_stream rid (snd (readN (conn_read rid) n w))
     = drop n (concat (inbox c))
  /\ conn_outbox rid (snd (readN (conn_read rid) n w)) = outbox c.
Proof.
  intros Hc. destruct (conn_readN_total rid n w c Hc) as (c' & -> & Hout & Hin).
  cbn [fst snd]. unfold conn_stream, conn_outbox, conn_state.
  cbn [resources set_resources]. by rewrite lookup_insert_eq.
Qed.

Lemma readN_conn_stream_witness :
  fst (readN (conn_read 1) 3
         (set_resources
            <[1%nat := RTcp {| inbox := [[1]; []; [2; 3; 4]; [5]];
                               outbox := [] |}]> closed_world))
  = Returned [1; 2; 3]
  /\ conn_stream 1
       (snd (readN (conn_read 1) 3
               (set_resources
                  <[1%nat := RTcp {| inbox := [[1]; []; [2; 3; 4]; [5]];
                                     outbox := [] |}]> closed_world)))
     = [4; 5]
  /\ conn_outbox 1
       (snd (readN (conn_read 1) 3
               (set_resources
                  <[1%nat := RTcp {| inbox := [[1]; []; [2; 3; 4]; [5]];
                                     outbox := [] |}]> closed_world)))
     = [].
Proof.
  apply (readN_conn_stream 1 3
           (set_resources
              <[1%nat := RTcp {| inbox := [[1]; []; [2; 3; 4]; [5]];
                                 outbox := [] |}]> closed_world)
           {| inbox := [[1]; []; [2; 3; 4]; [5]]; outbox := [] |}).
  reflexivity.
Defined.

(** ** [#connectAndRequest] *)

(** The first message: the version and the methods offered. *)
Lemma greeting_bytes (config : Config) :
  Uint8Array_from
    (map Int
       ([SOCKS_VERSION;
         Z.of_nat
           (length
              ([AuthMethod.NoAuth]
                 ++ match proxy_auth config with
                    | Some _ => [AuthMethod.UsernamePassword]
                    | None => []
                    end))]
          ++ [AuthMethod.NoAuth]
          ++ match proxy_auth config with
             | Some _ => [AuthMethod.UsernamePassword]
             | None => []
             end))
  = match proxy_auth config with
    | Some _ => [5; 2; 0; 2]
    | None => [5; 1; 0]
    end.
Proof. by destruct (proxy_auth config). Qed.

(** X10: a stream that ends inside the proxy's two-byte answer to the
    greeting.  [#connectAndRequest] throws the [UnexpectedEof] of [readN]
    and, unlike after an answer it rejects, does not close the connection
    it opened: the resource stays in the table, with the greeting written
    to it. *)
Theorem greeting_cut_short_leaves_open (config : Config) (cmd : Z)
    (hostname : jsstring) (port : Z) (w : World) script ds :
  dials w = Accepts script :: ds ->
  (length (concat script) < 2)%nat ->
  exists c',
    connectAndRequest config cmd hostname port w
    = (Threw (UnexpectedEof
                (eof_message (2 - Z.of_nat (length (concat script))))),
       set_resources <[new_rid w := RTcp c']> (dialed w ds))
    /\ resources w !! new_rid w = None
    /\ outbox c' = match proxy_auth config with
                   | Some _ => [5; 2; 0; 2]
                   | None => [5; 1; 0]
                   end.
Proof.
  intros Hdial Hshort. unfold connectAndRequest.
  erewrite bind_Returned; [| by apply Deno_connect_accepts].
  erewrite bind_Returned; [| apply writeAll_at].
  rewrite greeting_bytes. cbn [inbox outbox app].
  match goal with
  | |- context [set_resources <[_ := RTcp ?c]> _] =>
      destruct (readN_at (new_rid w) 2 c (dialed w ds))
        as (c1 & Hr1 & Ho1 & Hi1)
  end.
  cbn [inbox outbox] in *.
  destruct (Nat.leb_spec 2 (length (concat script))); [lia |].
  exists c1. erewrite bind_Threw; [| exact Hr1].
  split; [done |]. split; [apply new_rid_fresh | done].
Qed.

Lemma greeting_cut_short_leaves_open_witness :
  exists c',
    connectAndRequest demo_config Command.Connect (js "1.2.3.4") 1234
      {| resources := ∅; next_rid := 0; heap := ∅;
         dials := [Accepts [[5]]]; traffic := []; connects := 0 |}
    = (Threw (UnexpectedEof (eof_message (2 - Z.of_nat (length [5])))),
       set_resources <[0%nat := RTcp c']>
         {| resources := ∅; next_rid := 1; heap := ∅; dials := [];
            traffic := []; connects := 1 |})
    /\ (∅ : gmap nat Resource) !! 0%nat = None
    /\ outbox c' = [5; 1; 0].
Proof.
  exact (greeting_cut_short_leaves_open demo_config Command.Connect
           (js "1.2.3.4") 1234
           {| resources := ∅; next_rid := 0; heap := ∅;
              dials := [Accepts [[5]]]; traffic := []; connects := 0 |}
           [[5]] [] eq_refl ltac:(simpl; lia)).
Defined.

Lemma bind_assoc {S A B C} (m : M S A) (f : A -> M S B) (g : B -> M S C) s :
  bind (bind m f) g s = bind m (fun x => bind (f x) g) s.
Proof. unfold bind. by destruct (m s) as [[a | e |] s']. Qed.

Lemma credentials_bytes (config : Config) :
  wf_config config ->
  Uint8Array_from
    (map Int
       ([USERNAME_PASSWORD_AUTH_VERSION;
         Z.of_nat
           (length
              (TextEncoder_encode
                 match proxy_auth config with
                 | Some (u, _) => u
                 | None => []
                 end))]
          ++ TextEncoder_encode
               match proxy_auth config with Some (u, _) => u | None => [] end
          ++ [Z.of_nat
                (length
                   (TextEncoder_encode
                      match proxy_auth config with
                      | Some (_, p) => p
                      | None => []
                      end))]
          ++ TextEncoder_encode
               match proxy_auth config with Some (_, p) => p | None => [] end))
  = credentials config.
Proof.
  intros Hwf. unfold credentials, wf_config in *.
  set (u := match proxy_auth config with Some (u, _) => u | None => [] end).
  set (p := match proxy_auth config with Some (_, p) => p | None => [] end).
  assert (wf_string u /\ wf_string p) as [Hu Hp].
  { unfold u, p. destruct (proxy_auth config) as [[? ?] |]; [done |].
    split; apply Forall_nil_2. }
  unfold Uint8Array_from. rewrite !map_app. cbn [map app].
  rewrite !ToUint8_Int. f_equal. f_equal.
  change (map ToUint8 (map Int ?l)) with (Uint8Array_from (map Int l)).
  rewrite !Uint8Array_from_bytes by (by apply TextEncoder_encode_bytes).
  reflexivity.
Qed.

Lemma request_bytes (cmd : Z) (hostname : jsstring) (port : Z) :
  is_byte cmd ->
  Uint8Array_from
    (map Int ([SOCKS_VERSION; cmd; 0] ++ serializeAddress hostname port))
  = request cmd hostname port.
Proof.
  intros Hcmd. rewrite Uint8Array_from_bytes; [done |].
  apply Forall_app. split; [| apply serializeAddress_is_bytes].
  repeat apply Forall_cons_2; try done; unfold is_byte, SOCKS_VERSION; lia.
Qed.

(** From the answer to the greeting on: the proxy picks a method other
    than 0xFF, accepts the credentials when it asked for them, and
    replies to the request. *)
Lemma connectAndRequest_replied (config : Config) (cmd : Z)
    (hostname : jsstring) (port : Z) (w : World) script ds
    (m rv status rsv : Z) (bs : list Z) :
  dials w = Accepts script :: ds ->
  is_byte cmd ->
  wf_config config ->
  m <> AuthMethod.NoneAcceptable ->
  concat script
  = SOCKS_VERSION :: m
      :: (if m =? AuthMethod.UsernamePassword
          then [USERNAME_PASSWORD_AUTH_VERSION; ReplyStatus.Success]
          else [])
      ++ rv :: status :: rsv :: bs ->
  if negb (rv =? SOCKS_VERSION) || negb (status =? ReplyStatus.Success)
  then
    connectAndRequest config cmd hostname port w
    = (Threw
         (Error
            (if negb (rv =? SOCKS_VERSION)
             then js "unsupported SOCKS version number: " ++ toString rv
             else decodeError status)),
       dialed w ds)
  else
    exists c',
      connectAndRequest config cmd hostname port w
      = (match decode bs with
         | Returned a => Returned {| conn := new_rid w; bound := a |}
         | Threw e => Threw e
         | Pends => Pends
         end,
         set_resources <[new_rid w := RTcp c']> (dialed w ds))
      /\ outbox c'
         = greeting config
             ++ (if m =? AuthMethod.UsernamePassword
                 then credentials config else [])
             ++ request cmd hostname port
      /\ forall a,
           decode bs = Returned a ->
           Forall is_byte bs ->
           concat (inbox c') = drop (Z.to_nat (bytesRead a)) bs.
Proof.
  intros Hdial Hcmd Hwf Hm Hscript.
  set (rid := new_rid w). set (W := dialed w ds).
  assert (resources W !! rid = None) as Hfresh by exact (new_rid_fresh w).
  assert (exists c2,
             outbox c2
             = greeting config
                 ++ (if m =? AuthMethod.UsernamePassword
                     then credentials config else [])
             /\ concat (inbox c2) = rv :: status :: rsv :: bs
             /\ connectAndRequest config cmd hostname port w
                = (writeAll rid
                       (Uint8Array_from
                          (map Int ([SOCKS_VERSION; cmd; 0]
                                      ++ serializeAddress hostname port)));;
                     let* reply := readN (conn_read rid) 3 in
                     let replyVersion := reply !!! 0%nat in
                     let status := reply !!! 1%nat in
                     (if negb (replyVersion =? SOCKS_VERSION)
                         || negb (status =? ReplyStatus.Success)
                      then
                        ignoring (Deno_close rid);;
                        throw
                          (Error
                             (if negb (replyVersion =? SOCKS_VERSION)
                              then js "unsupported SOCKS version number: "
                                     ++ toString replyVersion
                              else decodeError status))
                      else ret tt);;
                     let* a := deserializeAddress (conn_read rid) in
                     ret {| conn := rid; bound := a |})
                      (set_resources <[rid := RTcp c2]> W))
    as (c2 & Hout2 & Hin2 & Hprog).
  { unfold connectAndRequest.
    erewrite bind_Returned; [| by apply Deno_connect_accepts].
    fold rid W.
    erewrite bind_Returned; [| apply writeAll_at].
    rewrite greeting_bytes. fold (greeting config).
    cbn [inbox outbox]. rewrite app_nil_l.
    destruct (readN_at rid 2 {| inbox := script; outbox := greeting config |} W)
      as (c1 & Hr1 & Ho1 & Hi1).
    cbn [inbox outbox] in Hr1, Ho1, Hi1. rewrite Hscript in Hr1, Hi1.
    apply Z.eqb_neq in Hm.
    destruct (m =? AuthMethod.UsernamePassword) eqn:Hauth;
      cbn [length Nat.leb take drop app] in Hr1, Hi1;
      (erewrite bind_Returned; [| exact Hr1]);
      cbn [lookup_total list_lookup_total];
      change (negb (SOCKS_VERSION =? SOCKS_VERSION)) with false;
      rewrite Hm, Hauth; cbn [orb];
      (erewrite bind_Returned; [| reflexivity]).
    - rewrite bind_assoc.
      erewrite bind_Returned; [| apply writeAll_at].
      rewrite credentials_bytes by done.
      destruct (readN_at rid 2
                  {| inbox := inbox c1;
                     outbox := outbox c1 ++ credentials config |} W)
        as (c2 & Hr2 & Ho2 & Hi2).
      cbn [inbox outbox] in Hr2, Ho2, Hi2. rewrite Hi1 in Hr2, Hi2.
      cbn [length Nat.leb take drop app] in Hr2, Hi2.
      rewrite bind_assoc.
      erewrite bind_Returned; [| exact Hr2].
      cbn [lookup_total list_lookup_total].
      change (negb (USERNAME_PASSWORD_AUTH_VERSION
                    =? USERNAME_PASSWORD_AUTH_VERSION)
              || negb (ReplyStatus.Success =? ReplyStatus.Success))
        with false.
      cbv iota.
      erewrite bind_Returned; [| reflexivity].
      exists c2. split; [by rewrite Ho2, Ho1 |]. split; [done |].
      reflexivity.
    - erewrite bind_Returned; [| reflexivity].
      exists c1. rewrite app_nil_r. split; [done |]. split; [done |].
      reflexivity. }
  rewrite Hprog. clear Hprog.
  erewrite bind_Returned; [| apply writeAll_at].
  rewrite request_bytes by done.
  destruct (readN_at rid 3
              {| inbox := inbox c2;
                 outbox := outbox c2 ++ request cmd hostname port |} W)
    as (c3 & Hr3 & Ho3 & Hi3).
  cbn [inbox outbox] in Hr3, Ho3, Hi3. rewrite Hin2 in Hr3, Hi3.
  cbn [length Nat.leb take drop] in Hr3, Hi3.
  erewrite bind_Returned; [| exact Hr3].
  cbn [lookup_total list_lookup_total].
  destruct (negb (rv =? SOCKS_VERSION) || negb (status =? ReplyStatus.Success)).
  - erewrite bind_Threw; [reflexivity |]. by apply close_at.
  - erewrite bind_Returned; [| reflexivity].
    destruct (deserializeAddress_at rid c3 W) as (c4 & Hr4 & Ho4 & Hi4).
    rewrite Hi3, drop_0 in Hr4, Hi4.
    exists c4. split; [| split; [| done]].
    + unfold bind. rewrite Hr4. by destruct (decode bs).
    + by rewrite Ho4, Ho3, Hout2, app_assoc.
Qed.

(** X11: a reply to the request that is not "version 5, status 0".
    Whatever method the proxy picked (other than 0xFF) and after it has
    accepted the credentials if it asked for them, [#connectAndRequest]
    throws "unsupported SOCKS version number: <version>" when the version
    byte of the reply is not 5, otherwise the message of [decodeError] for
    the status; it has closed the connection before: the resource table
    is the one from before the call. *)
Theorem reply_rejected_closes (config : Config) (cmd : Z)
    (hostname : jsstring) (port : Z) (w : World) script ds
    (m rv status rsv : Z) (bs : list Z) :
  dials w = Accepts script :: ds ->
  is_byte cmd ->
  wf_config config ->
  m <> AuthMethod.NoneAcceptable ->
  concat script
  = SOCKS_VERSION :: m
      :: (if m =? AuthMethod.UsernamePassword
          then [USERNAME_PASSWORD_AUTH_VERSION; ReplyStatus.Success]
          else [])
      ++ rv :: status :: rsv :: bs ->
  rv <> SOCKS_VERSION \/ status <> ReplyStatus.Success ->
  connectAndRequest config cmd hostname port w
  = (Threw
       (Error
          (if negb (rv =? SOCKS_VERSION)
           then js "unsupported SOCKS version number: " ++ toString rv
           else decodeError status)),
     dialed w ds)
  /\ resources (dialed w ds) = resources w.
Proof.
  intros Hdial Hcmd Hwf Hm Hscript Hbad. split; [| done].
  pose proof (connectAndRequest_replied config cmd hostname port w script ds
                m rv status rsv bs Hdial Hcmd Hwf Hm Hscript) as H.
  assert (negb (rv =? SOCKS_VERSION) || negb (status =? ReplyStatus.Success)
          = true) as Hrej.
  { destruct Hbad as [Hv | Hs].
    - apply Z.eqb_neq in Hv. by rewrite Hv.
    - apply Z.eqb_neq in Hs. rewrite Hs. apply orb_true_r. }
  by rewrite Hrej in H.
Qed.

Lemma reply_rejected_closes_witness :
  connectAndRequest demo_config Command.Connect (js "1.2.3.4") 1234
    {| resources := ∅; next_rid := 0; heap := ∅;
       dials := [Accepts [[5; 0]; [5; 5; 0]]]; traffic := []; connects := 0 |}
  = (Threw (Error (if negb (5 =? SOCKS_VERSION)
                   then js "unsupported SOCKS version number: " ++ toString 5
                   else decodeError 5)),
     dialed
       {| resources := ∅; next_rid := 0; heap := ∅;
          dials := [Accepts [[5; 0]; [5; 5; 0]]]; traffic := [];
          connects := 0 |} [])
  /\ resources
       (dialed
          {| resources := ∅; next_rid := 0; heap := ∅;
             dials := [Accepts [[5; 0]; [5; 5; 0]]]; traffic := [];
             connects := 0 |} [])
     = ∅.
Proof.
  apply (reply_rejected_closes demo_config Command.Connect (js "1.2.3.4") 1234
           {| resources := ∅; next_rid := 0; heap := ∅;
              dials := [Accepts [[5; 0]; [5; 5; 0]]]; traffic := [];
              connects := 0 |}
           [[5; 0]; [5; 5; 0]] [] 0 5 5 0 []).
  - reflexivity.
  - unfold is_byte, Command.Connect. lia.
  - exact I.
  - vm_compute. discriminate.
  - reflexivity.
  - right. vm_compute. discriminate.
Defined.

(** X12: a successful [connect].  When the proxy picks a method other than
    0xFF, accepts the credentials if it picked username/password, and
    replies "version 5, status 0" with a bound address that decodes, the
    tunnel returned is the control connection itself, its [localAddr] is
    the bound address of the reply and its [remoteAddr] the target, with
    host 127.0.0.1 when none was given.  What was written to the proxy is
    the greeting, the credentials if asked for, and the request with
    command 1 and the target address; the bytes after the reply stay on
    the connection for the user of the tunnel. *)
Theorem connect_returns_tunnel (config : Config)
    (opts_hostname : option jsstring) (opts_port : Z) (w : World) script ds
    (m rsv : Z) (bs : list Z) (a : Address) :
  dials w = Accepts script :: ds ->
  wf_config config ->
  m <> AuthMethod.NoneAcceptable ->
  concat script
  = SOCKS_VERSION :: m
      :: (if m =? AuthMethod.UsernamePassword
          then [USERNAME_PASSWORD_AUTH_VERSION; ReplyStatus.Success]
          else [])
      ++ SOCKS_VERSION :: ReplyStatus.Success :: rsv :: bs ->
  Forall is_byte bs ->
  decode bs = Returned a ->
  exists c',
    connect config opts_hostname opts_port w
    = (Returned
         {| tunnel := new_rid w;
            localAddr := {| na_hostname := hostname a; na_port := port a;
                            na_transport := "tcp" |};
            remoteAddr := {| na_hostname :=
                               default (js "127.0.0.1") opts_hostname;
                             na_port := opts_port; na_transport := "tcp" |} |},
       set_resources <[new_rid w := RTcp c']> (dialed w ds))
    /\ outbox c'
       = greeting config
           ++ (if m =? AuthMethod.UsernamePassword
               then credentials config else [])
           ++ request Command.Connect
                (default (js "127.0.0.1") opts_hostname) opts_port
    /\ concat (inbox c') = drop (Z.to_nat (bytesRead a)) bs.
Proof.
  intros Hdial Hwf Hm Hscript Hbytes Hdec.
  pose proof (connectAndRequest_replied config Command.Connect
                (default (js "127.0.0.1") opts_hostname) opts_port
                w script ds m SOCKS_VERSION ReplyStatus.Success rsv bs
                Hdial ltac:(unfold is_byte, Command.Connect; lia) Hwf Hm Hscript)
    as H.
  cbn [negb orb] in H. change (SOCKS_VERSION =? SOCKS_VERSION) with true in H.
  change (ReplyStatus.Success =? ReplyStatus.Success) with true in H.
  cbn [negb orb] in H.
  destruct H as (c' & Hrun & Hout & Hin). rewrite Hdec in Hrun.
  exists c'. split; [| split; [done | by apply Hin]].
  unfold connect. cbn [na_hostname na_port].
  erewrite bind_Returned; [| exact Hrun]. reflexivity.
Qed.

Lemma connect_returns_tunnel_witness :
  exists c',
    connect demo_config None 80
      {| resources := ∅; next_rid := 0; heap := ∅;
         dials := [Accepts [[5; 0]; [5; 0; 0; 1; 10; 0; 0; 7; 4; 210; 72]]];
         traffic := []; connects := 0 |}
    = (Returned
         {| tunnel := 0;
            localAddr := {| na_hostname := js "10.0.0.7"; na_port := 1234;
                            na_transport := "tcp" |};
            remoteAddr := {| na_hostname := js "127.0.0.1"; na_port := 80;
                             na_transport := "tcp" |} |},
       set_resources <[0%nat := RTcp c']>
         {| resources := ∅; next_rid := 1; heap := ∅; dials := [];
            traffic := []; connects := 1 |})
    /\ outbox c' = [5; 1; 0] ++ [] ++ [5; 1; 0; 1; 127; 0; 0; 1; 0; 80]
    /\ concat (inbox c') = [72].
Proof.
  exact (connect_returns_tunnel demo_config None 80
           {| resources := ∅; next_rid := 0; heap := ∅;
              dials := [Accepts [[5; 0]; [5; 0; 0; 1; 10; 0; 0; 7; 4; 210; 72]]];
              traffic := []; connects := 0 |}
           [[5; 0]; [5; 0; 0; 1; 10; 0; 0; 7; 4; 210; 72]] [] 0 0
           [1; 10; 0; 0; 7; 4; 210; 72]
           {| hostname := js "10.0.0.7"; port := 1234; bytesRead := 7 |}
           eq_refl I ltac:(vm_compute; discriminate) eq_refl
           ltac:(repeat (apply Forall_cons_2; [unfold is_byte; lia |]);
                 apply Forall_nil_2)
           ltac:(vm_compute; reflexivity)).
Defined.

(** X13: a reply accepted, with a bound address that does not decode (the
    stream ends inside it, or its type byte is none of 1, 3 and 4).
    [#connectAndRequest] throws the error of [deserializeAddress] and does
    not close the connection: it stays in the resource table. *)
Theorem bound_address_undecodable_leaves_open (config : Config) (cmd : Z)
    (hostname : jsstring) (port : Z) (w : World) script ds
    (m rsv : Z) (bs : list Z) (e : exn) :
  dials w = Accepts script :: ds ->
  is_byte cmd ->
  wf_config config ->
  m <> AuthMethod.NoneAcceptable ->
  concat script
  = SOCKS_VERSION :: m
      :: (if m =? AuthMethod.UsernamePassword
          then [USERNAME_PASSWORD_AUTH_VERSION; ReplyStatus.Success]
          else [])
      ++ SOCKS_VERSION :: ReplyStatus.Success :: rsv :: bs ->
  decode bs = Threw e ->
  exists c',
    connectAndRequest config cmd hostname port w
    = (Threw e, set_resources <[new_rid w := RTcp c']> (dialed w ds))
    /\ resources w !! new_rid w = None
    /\ resources (set_resources <[new_rid w := RTcp c']> (dialed w ds))
         !! new_rid w = Some (RTcp c').
Proof.
  intros Hdial Hcmd Hwf Hm Hscript Hdec.
  pose proof (connectAndRequest_replied config cmd hostname port
                w script ds m SOCKS_VERSION ReplyStatus.Success rsv bs
                Hdial Hcmd Hwf Hm Hscript) as H.
  change (SOCKS_VERSION =? SOCKS_VERSION) with true in H.
  change (ReplyStatus.Success =? ReplyStatus.Success) with true in H.
  cbn [negb orb] in H.
  destruct H as (c' & Hrun & _ & _). rewrite Hdec in Hrun.
  exists c'. split; [done |]. split; [apply new_rid_fresh |].
  cbn [resources set_resources]. apply lookup_insert_eq.
Qed.

Lemma bound_address_undecodable_leaves_open_witness :
  exists c',
    connectAndRequest demo_config Command.Connect (js "1.2.3.4") 1234
      {| resources := ∅; next_rid := 0; heap := ∅;
         dials := [Accepts [[5; 0; 5; 0; 0; 2; 1; 2]]];
         traffic := []; connects := 0 |}
    = (Threw (Error (js "unexpected address type: 2")),
       set_resources <[0%nat := RTcp c']>
         {| resources := ∅; next_rid := 1; heap := ∅; dials := [];
            traffic := []; connects := 1 |})
    /\ (∅ : gmap nat Resource) !! 0%nat = None
    /\ resources
         (set_resources <[0%nat := RTcp c']>
            {| resources := ∅; next_rid := 1; heap := ∅; dials := [];
               traffic := []; connects := 1 |}) !! 0%nat
       = Some (RTcp c').
Proof.
  exact (bound_address_undecodable_leaves_open demo_config Command.Connect
           (js "1.2.3.4") 1234
           {| resources := ∅; next_rid := 0; heap := ∅;
              dials := [Accepts [[5; 0; 5; 0; 0; 2; 1; 2]]];
              traffic := []; connects := 0 |}
           [[5; 0; 5; 0; 0; 2; 1; 2]] [] 0 0 [2; 1; 2]
           (Error (js "unexpected address type: 2"))
           eq_refl ltac:(unfold is_byte, Command.Connect; lia) I
           ltac:(vm_compute; discriminate)
           eq_refl ltac:(vm_compute; reflexivity)).
Defined.

(** X14: the username/password sub-negotiation refused.  When the proxy
    picks method 2 and answers the credentials with a version byte other
    than 1, [#connectAndRequest] throws "unsupported authentication version
    number: <version>"; with version 1 and a status other than 0 it throws
    "authentication failed".  It has closed the connection before: the
    resource table is the one from before the call. *)
Theorem authentication_rejected (config : Config) (cmd : Z)
    (hostname : jsstring) (port : Z) (w : World) script ds
    (version status : Z) (rest : list Z) :
  dials w = Accepts script :: ds ->
  concat script
  = SOCKS_VERSION :: AuthMethod.UsernamePassword :: version :: status :: rest ->
  version <> USERNAME_PASSWORD_AUTH_VERSION \/ status <> ReplyStatus.Success ->
  connectAndRequest config cmd hostname port w
  = (Threw
       (Error
          (if negb (version =? USERNAME_PASSWORD_AUTH_VERSION)
           then js "unsupported authentication version number: "
                  ++ toString version
           else js "authentication failed")),
     dialed w ds)
  /\ resources (dialed w ds) = resources w.
Proof.
  intros Hdial Hscript Hbad. split; [| done].
  set (rid := new_rid w). set (W := dialed w ds).
  assert (resources W !! rid = None) as Hfresh by exact (new_rid_fresh w).
  unfold connectAndRequest.
  erewrite bind_Returned; [| by apply Deno_connect_accepts].
  fold rid W.
  erewrite bind_Returned; [| apply writeAll_at].
  match goal with
  | |- context [set_resources <[rid := RTcp ?c]> W] =>
      destruct (readN_at rid 2 c W) as (c1 & Hr1 & Ho1 & Hi1)
  end.
  cbn [inbox outbox] in Hr1, Ho1, Hi1. rewrite Hscript in Hr1, Hi1.
  cbn [length Nat.leb take drop] in Hr1, Hi1.
  erewrite bind_Returned; [| exact Hr1].
  cbn [lookup_total list_lookup_total].
  change (negb (SOCKS_VERSION =? SOCKS_VERSION)
          || (AuthMethod.UsernamePassword =? AuthMethod.NoneAcceptable))
    with false.
  change (AuthMethod.UsernamePassword =? AuthMethod.UsernamePassword)
    with true.
  cbv iota.
  erewrite bind_Returned; [| reflexivity].
  rewrite bind_assoc.
  erewrite bind_Returned; [| apply writeAll_at].
  match goal with
  | |- context [set_resources <[rid := RTcp ?c]> W] =>
      destruct (readN_at rid 2 c W) as (c2 & Hr2 & Ho2 & Hi2)
  end.
  cbn [inbox outbox] in Hr2, Ho2, Hi2. rewrite Hi1 in Hr2, Hi2.
  cbn [length Nat.leb take drop] in Hr2, Hi2.
  rewrite bind_assoc.
  erewrite bind_Returned; [| exact Hr2].
  cbn [lookup_total list_lookup_total].
  assert (negb (version =? USERNAME_PASSWORD_AUTH_VERSION)
          || negb (status =? ReplyStatus.Success) = true) as ->.
  { destruct Hbad as [Hv | Hs].
    - apply Z.eqb_neq in Hv. by rewrite Hv.
    - apply Z.eqb_neq in Hs. rewrite Hs. apply orb_true_r. }
  erewrite bind_Threw; [reflexivity |]. by apply close_at.
Qed.

Lemma authentication_rejected_witness :
  connectAndRequest
    {| proxy_hostname := js "127.0.0.1"; proxy_port := 1080;
       proxy_auth := Some (js "user", js "pass") |}
    Command.Connect (js "1.2.3.4") 1234
    {| resources := ∅; next_rid := 0; heap := ∅;
       dials := [Accepts [[5; 2]; [1; 1]]]; traffic := []; connects := 0 |}
  = (Threw
       (Error
          (if negb (1 =? USERNAME_PASSWORD_AUTH_VERSION)
           then js "unsupported authentication version number: " ++ toString 1
           else js "authentication failed")),
     dialed
       {| resources := ∅; next_rid := 0; heap := ∅;
          dials := [Accepts [[5; 2]; [1; 1]]]; traffic := []; connects := 0 |}
       [])
  /\ resources
       (dialed
          {| resources := ∅; next_rid := 0; heap := ∅;
             dials := [Accepts [[5; 2]; [1; 1]]]; traffic := [];
             connects := 0 |} [])
     = ∅.
Proof.
  apply (authentication_rejected
           {| proxy_hostname := js "127.0.0.1"; proxy_port := 1080;
              proxy_auth := Some (js "user", js "pass") |}
           Command.Connect (js "1.2.3.4") 1234
           {| resources := ∅; next_rid := 0; heap := ∅;
              dials := [Accepts [[5; 2]; [1; 1]]]; traffic := [];
              connects := 0 |}
           [[5; 2]; [1; 1]] [] 1 1 []).
  - reflexivity.
  - reflexivity.
  - right. vm_compute. discriminate.
Defined.

(** ** What [#connectAndRequest] leaves alone *)

Lemma elsewhere_refl (rid : nat) (w : World) : elsewhere rid w w.
Proof. by repeat split. Qed.

Lemma elsewhere_trans (rid : nat) (w1 w2 w3 : World) :
  elsewhere rid w1 w2 -> elsewhere rid w2 w3 -> elsewhere rid w1 w3.
Proof.
  intros (Hh1 & Ht1 & Hr1) (Hh2 & Ht2 & Hr2).
  repeat split; [congruence | congruence |].
  intros rid' Hne. by rewrite Hr2, Hr1.
Qed.

Lemma confined_ret {A} (rid : nat) (a : A) : confined rid (ret a).
Proof. intros w. apply elsewhere_refl. Qed.

Lemma confined_throw {A} (rid : nat) (e : exn) :
  confined rid (@throw World A e).
Proof. intros w. apply elsewhere_refl. Qed.

Lemma confined_bind {A B} (rid : nat) (m : M World A) (k : A -> M World B) :
  confined rid m -> (forall a, confined rid (k a)) -> confined rid (bind m k).
Proof.
  intros Hm Hk w. unfold bind. specialize (Hm w).
  destruct (m w) as [[a | e |] w1]; simpl in *; [| done | done].
  eapply elsewhere_trans; [exact Hm | apply Hk].
Qed.

Lemma confined_try_catch {A} (rid : nat) (m : M World A)
    (h : exn -> M World A) :
  confined rid m -> (forall e, confined rid (h e)) ->
  confined rid (try_catch m h).
Proof.
  intros Hm Hh w. unfold try_catch. specialize (Hm w).
  destruct (m w) as [[a | e |] w1]; simpl in *; [done | | done].
  eapply elsewhere_trans; [exact Hm | apply Hh].
Qed.

Lemma elsewhere_insert (rid : nat) (x : Resource) (w : World) :
  elsewhere rid w (set_resources <[rid := x]> w).
Proof.
  repeat split. intros rid' Hne. cbn [resources set_resources].
  by rewrite lookup_insert_ne.
Qed.

Lemma elsewhere_delete (rid : nat) (w : World) :
  elsewhere rid w (set_resources (delete rid) w).
Proof.
  repeat split. intros rid' Hne. cbn [resources set_resources].
  by rewrite lookup_delete_ne.
Qed.

Lemma confined_writeAll (rid : nat) (bytes : list Z) :
  confined rid (writeAll rid bytes).
Proof.
  intros w. unfold writeAll.
  repeat case_match; cbn [snd];
    first [apply elsewhere_insert | apply elsewhere_refl].
Qed.

Lemma confined_Deno_close (rid : nat) : confined rid (Deno_close rid).
Proof.
  intros w. unfold Deno_close.
  repeat case_match; cbn [snd];
    first [apply elsewhere_delete | apply elsewhere_refl].
Qed.

Lemma confined_conn_read (rid cap : nat) : confined rid (conn_read rid cap).
Proof.
  intros w. unfold conn_read.
  repeat case_match; cbn [snd];
    first [apply elsewhere_insert | apply elsewhere_refl].
Qed.

Lemma drain_elsewhere (rid k : nat) w cs o w' :
  drain (conn_read rid) k w cs o w' -> elsewhere rid w w'.
Proof.
  induction 1 as [| ? ? ? ? ? ? ? ? Hr ? IH | ? ? ? ? Hr | ? ? ? ? ? Hr];
    [apply elsewhere_refl | eapply elsewhere_trans; [| exact IH] | |];
    pose proof (confined_conn_read rid k s) as Hc; by rewrite Hr in Hc.
Qed.

Lemma confined_readN (rid n : nat) : confined rid (readN (conn_read rid) n).
Proof.
  intros w.
  destruct (readN_fuel_spec (conn_read rid) (conn_contract rid) n n w)
    as (cs & o & w' & Hd & Hrun & Hlen); [done |].
  unfold readN. rewrite Hrun. by eapply drain_elsewhere.
Qed.

Lemma confined_deserializeAddress (rid : nat) :
  confined rid (deserializeAddress (conn_read rid)).
Proof.
  unfold deserializeAddress, deserializeHost.
  repeat first
    [ apply confined_readN
    | apply confined_ret
    | apply confined_throw
    | apply confined_bind; [| intros]
    | match goal with |- confined _ (if ?b then _ else _) => destruct b end
    | match goal with
      | |- confined _ (let '(_, _) := ?x in _) => destruct x
      end ].
Qed.

(** X15: [#connectAndRequest] is confined to the connection it opens.
    However the call ends, it has not touched the heap, the datagrams under
    way, or any resource other than the one of its own connection. *)
Theorem connectAndRequest_confined (config : Config) (cmd : Z)
    (hostname : jsstring) (port : Z) (w : World) :
  elsewhere (new_rid w) w (snd (connectAndRequest config cmd hostname port w)).
Proof.
  destruct (connectAndRequest config cmd hostname port w) as [o' w'] eqn:Hrun.
  unfold connectAndRequest in Hrun. unfold bind at 1 in Hrun.
  destruct (Deno_connect (proxy_hostname config) (proxy_port config) w)
    as [o w1] eqn:Hdial.
  assert (elsewhere (new_rid w) w w1
          /\ match o with Returned rid => rid = new_rid w | _ => True end)
    as (Hw1 & Ho).
  { unfold Deno_connect in Hdial.
    destruct (dials w) as [|[script | msg] ds]; injection Hdial as <- <-;
      repeat split; try done.
    intros rid' Hne. cbn [resources]. by rewrite lookup_insert_ne. }
  destruct o as [rid | e |];
    [subst rid | by injection Hrun as <- <- | by injection Hrun as <- <-].
  cbn [snd].
  match type of Hrun with
  | ?m w1 = _ => enough (confined (new_rid w) m) as H1
  end.
  { specialize (H1 w1). rewrite Hrun in H1. by eapply elsewhere_trans. }
  repeat first
    [ apply confined_readN
    | apply confined_deserializeAddress
    | apply confined_writeAll
    | apply confined_ret
    | apply confined_throw
    | apply confined_try_catch; [| intros]
    | apply confined_Deno_close
    | apply confined_bind; [| intros]
    | match goal with |- confined _ (ignoring _) => unfold ignoring end
    | match goal with |- confined _ (if ?b then _ else _) => destruct b end ].
Qed.

(** ** The relay: closing *)

(** After [close], whichever way it was called, neither resource of the
    relay is in the table. *)
Lemma close_absent (r : Relay) (throwErr : bool) (w : World) :
  resources (snd (close r throwErr w)) !! udp_rid (udpConn r) = None
  /\ forall info,
       proxyInfo r = Some info ->
       resources (snd (close r throwErr w)) !! tcpConn info = None.
Proof.
  assert (forall (m : gmap nat Resource) i j,
             delete i (delete j m) !! j = None) as Hdd.
  { intros m i j. destruct (decide (i = j)) as [-> | Hne].
    - apply lookup_delete_eq.
    - rewrite lookup_delete_ne by done. apply lookup_delete_eq. }
  unfold close, bind, try_catch, ret, throw, Deno_close.
  destruct (proxyInfo r) as [info |]; simpl.
  - destruct (resources w !! tcpConn info) eqn:Ht; simpl.
    + destruct (delete (tcpConn info) (resources w) !! udp_rid (udpConn r))
        eqn:Hu; simpl; rewrite ?Hu; simpl;
        destruct throwErr; simpl;
        (split; [first [apply lookup_delete_eq | done] |]);
        intros ? [= <-]; first [apply Hdd | apply lookup_delete_eq].
    + destruct (resources w !! udp_rid (udpConn r)) eqn:Hu; simpl;
        rewrite ?Hu; simpl; destruct throwErr; simpl;
        (split; [first [apply lookup_delete_eq | done] |]);
        intros ? [= <-];
        first [ done
              | destruct (decide (udp_rid (udpConn r) = tcpConn info))
                  as [-> | Hne];
                [apply lookup_delete_eq | by rewrite lookup_delete_ne] ].
  - destruct (resources w !! udp_rid (udpConn r)) eqn:Hu; simpl;
      rewrite ?Hu; simpl; destruct throwErr; simpl;
      (split; [first [apply lookup_delete_eq | done] | done]).
Qed.

(** X16: closing twice in a row.  When [close], called with either value
    of [throwErr], is followed by [close()] on the relay in the same state
    (no negotiation has settled in between, so [proxyInfo] is what it
    was), the second call throws the "Bad resource ID" error of the
    datagram socket and changes nothing. *)
Theorem close_again_throws (r : Relay) (throwErr : bool) (w : World) :
  close r true (snd (close r throwErr w))
  = (Threw (BadResource (udp_rid (udpConn r))), snd (close r throwErr w)).
Proof.
  destruct (close_absent r throwErr w) as [Hu Ht].
  set (w' := snd (close r throwErr w)) in *.
  unfold close, bind, try_catch, ret, throw, Deno_close.
  destruct (proxyInfo r) as [info |]; simpl.
  - rewrite (Ht info eq_refl). simpl. by rewrite Hu.
  - by rewrite Hu.
Qed.

(** X17: the task that watches the control connection.  Given at least
    one more step than there are bytes still to come on the connection, it
    finishes, and when it does both resources of the relay are gone from
    the table: it closes the relay when the stream ends, and also when the
    connection was closed already and the read fails. *)
Theorem watcher_closes_relay (r : Relay) (info : UdpProxyInfo) (fuel : nat) :
  proxyInfo r = Some info ->
  forall w,
    (length (conn_stream (tcpConn info) w) < fuel)%nat ->
    fst (watch fuel r (tcpConn info) w) = Returned tt
    /\ resources (snd (watch fuel r (tcpConn info) w)) !! tcpConn info = None
    /\ resources (snd (watch fuel r (tcpConn info) w)) !! udp_rid (udpConn r)
       = None.
Proof.
  intros Hinfo. set (c := tcpConn info).
  assert (forall w0,
             fst (close r false w0) = Returned tt
             /\ resources (snd (close r false w0)) !! c = None
             /\ resources (snd (close r false w0)) !! udp_rid (udpConn r)
                = None) as Hclose.
  { intros w0. destruct (close_absent r false w0) as [Hu Ht].
    split; [apply close_quiet |]. split; [by apply Ht | done]. }
  induction fuel as [|fuel IH]; intros w Hfuel; [lia |].
  cbn [watch]. unfold bind, try_catch, conn_read.
  destruct (resources w !! c) as [[cc | u] |] eqn:Hc; [| apply Hclose ..].
  pose proof (next_chunk_spec 1024 (inbox cc) ltac:(lia)) as Hchunk.
  destruct (next_chunk 1024 (inbox cc)) as [[chunk rest] |];
    [| apply Hclose].
  destruct Hchunk as [Hlen Hcat].
  apply IH. unfold conn_stream, conn_state in *.
  cbn [resources set_resources]. rewrite lookup_insert_eq. cbn [inbox].
  rewrite Hc, Hcat, length_app in Hfuel. lia.
Qed.

Lemma watcher_closes_relay_witness :
  fst (watch 2 demo_relay 1
         (set_resources
            <[1%nat := RTcp {| inbox := [[7]]; outbox := [] |}]> ready_world))
  = Returned tt
  /\ resources
       (snd (watch 2 demo_relay 1
               (set_resources
                  <[1%nat := RTcp {| inbox := [[7]]; outbox := [] |}]>
                  ready_world))) !! 1%nat = None
  /\ resources
       (snd (watch 2 demo_relay 1
               (set_resources
                  <[1%nat := RTcp {| inbox := [[7]]; outbox := [] |}]>
                  ready_world))) !! 2%nat = None.
Proof.
  apply (watcher_closes_relay demo_relay {| tcpConn := 1; addr := demo_peer |}
           2 eq_refl
           (set_resources
              <[1%nat := RTcp {| inbox := [[7]]; outbox := [] |}]>
              ready_world)).
  vm_compute. lia.
Defined.

(** ** The relay: datagrams *)

(** X18: a datagram with a clear header whose address does not decode.
    [receive] does not pass over it as it does over a datagram with a
    header byte set: it throws the error of [deserializeAddress]
    ([UnexpectedEof], or "unexpected address type"), and the datagram is
    gone from the socket. *)
Theorem receive_rejects_undecodable (r : Relay) (p : option View) (w : World)
    info s d from rest e :
  proxyInfo r = Some info ->
  resources w !! udp_rid (udpConn r) = Some (RUdp s) ->
  queue s = (d, from) :: rest ->
  header_set d = false ->
  decode (drop 3 (take (buffer_size p) d)) = Threw e ->
  exists w',
    receive r p w = (Threw e, w')
    /\ pending (udpConn r) w' = rest.
Proof.
  intros Hinfo Hres Hq Hclear Hdec. unfold receive.
  destruct (receive_fuel_step (length (pending (udpConn r) w)) r p w info s d
              from rest Hinfo Hres Hq) as [_ ->].
  rewrite Hclear, Hdec. eexists. split; [reflexivity |].
  apply pending_arrived.
Qed.

Lemma receive_rejects_undecodable_witness :
  exists w',
    receive demo_relay None
      (set_resources
         <[2%nat := RUdp {| queue := [([0; 0; 0; 9; 1], demo_peer)];
                            sent := [] |}]> ready_world)
    = (Threw (Error (js "unexpected address type: 9")), w')
    /\ pending (udpConn demo_relay) w' = [].
Proof.
  apply (receive_rejects_undecodable demo_relay None
           (set_resources
              <[2%nat := RUdp {| queue := [([0; 0; 0; 9; 1], demo_peer)];
                                 sent := [] |}]> ready_world)
           {| tcpConn := 1; addr := demo_peer |}
           {| queue := [([0; 0; 0; 9; 1], demo_peer)]; sent := [] |}
           [0; 0; 0; 9; 1] demo_peer []).
  - reflexivity.
  - reflexivity.
  - reflexivity.
  - reflexivity.
  - vm_compute. reflexivity.
Defined.



(** ** The relay: the negotiation settling *)

Lemma close_without_proxy (r : Relay) (throwErr : bool) (w : World) :
  proxyInfo r = None ->
  snd (close r throwErr w) = set_resources (delete (udp_rid (udpConn r))) w.
Proof.
  intros Hinfo. unfold close, bind, try_catch, ret, throw, Deno_close.
  rewrite Hinfo. simpl.
  destruct (resources w !! udp_rid (udpConn r)) eqn:Hu; simpl;
    destruct throwErr; simpl; try done;
    destruct w; unfold set_resources; simpl in *; f_equal;
    symmetry; by apply delete_id.
Qed.

(** X20: a negotiation that fails.  When [#connectAndRequest] throws,
    [isReady] is rejected with its error and the datagram socket has been
    closed, and nothing else: a control connection the failed call left
    open stays open.  From then on [send] and [receive] throw that same
    error without touching anything, and [close()] throws the "Bad
    resource ID" error of the socket. *)
Theorem negotiation_failure_rejects_calls (config : Config) (r : Relay)
    (w : World) (e : exn) :
  proxyInfo r = None ->
  isReady r = Pends ->
  fst (connectAndRequest config Command.UdpAssociate
         (na_hostname (udp_addr (udpConn r)))
         (na_port (udp_addr (udpConn r))) w) = Threw e ->
  let w1 :=
    snd (connectAndRequest config Command.UdpAssociate
           (na_hostname (udp_addr (udpConn r)))
           (na_port (udp_addr (udpConn r))) w) in
  let r' := {| udpConn := udpConn r; proxyInfo := None; isReady := Threw e |} in
  let w' := set_resources (delete (udp_rid (udpConn r))) w1 in
  step config Settles (r, w) = (r', w')
  /\ (forall p to, send r' p to w' = (Threw e, w'))
  /\ (forall p, receive r' p w' = (Threw e, w'))
  /\ close r' true w' = (Threw (BadResource (udp_rid (udpConn r))), w').
Proof.
  intros Hinfo Hready Hfail w1 r' w'.
  split; [| split; [| split]].
  - cbn [step]. rewrite Hready.
    unfold negotiate, try_catch. unfold bind at 1.
    destruct (connectAndRequest config Command.UdpAssociate
                (na_hostname (udp_addr (udpConn r)))
                (na_port (udp_addr (udpConn r))) w) as [o w1'] eqn:Hrun.
    cbn [fst snd] in *. subst o. subst w1. cbn [snd] in *.
    unfold bind, throw.
    pose proof (close_quiet r w1') as [Hq _].
    pose proof (close_without_proxy r false w1' Hinfo) as Hw.
    destruct (close r false w1') as [o2 w2]. cbn [fst snd] in *. subst o2 w2.
    unfold r', w'. by rewrite Hinfo.
  - intros p to. reflexivity.
  - intros p. unfold receive. reflexivity.
  - unfold close, bind, try_catch, ret, throw, Deno_close. cbn [proxyInfo].
    simpl. unfold w'. cbn [resources set_resources].
    by rewrite lookup_delete_eq.
Qed.

Lemma negotiation_failure_rejects_calls_witness :
  step demo_config Settles
    (fst listening,
     {| resources := {[0%nat := RUdp {| queue := []; sent := [] |}]};
        next_rid := 1; heap := ∅; dials := [Accepts [[4]; [0]]];
        traffic := []; connects := 0 |})
  = ({| udpConn := udpConn (fst listening); proxyInfo := None;
        isReady := Threw (Error (js "unsupported SOCKS version number: 4")) |},
     set_resources (delete (udp_rid (udpConn (fst listening))))
       (snd (connectAndRequest demo_config Command.UdpAssociate
               (na_hostname (udp_addr (udpConn (fst listening))))
               (na_port (udp_addr (udpConn (fst listening))))
               {| resources := {[0%nat := RUdp {| queue := []; sent := [] |}]};
                  next_rid := 1; heap := ∅; dials := [Accepts [[4]; [0]]];
                  traffic := []; connects := 0 |}))).
Proof.
  refine (proj1 (negotiation_failure_rejects_calls demo_config (fst listening)
                   {| resources :=
                        {[0%nat := RUdp {| queue := []; sent := [] |}]};
                      next_rid := 1; heap := ∅; dials := [Accepts [[4]; [0]]];
                      traffic := []; connects := 0 |}
                   (Error (js "unsupported SOCKS version number: 4"))
                   _ _ _)).
  - reflexivity.
  - reflexivity.
  - vm_compute. reflexivity.
Defined.

(** X21: a negotiation that succeeds.  When the proxy picks a method other
    than 0xFF, accepts the credentials if it asked for them, and replies
    "version 5, status 0" with a bound address that decodes, [isReady] is
    fulfilled and the relay keeps the control connection open.  The
    request sent carries command 3 (UDP associate) and the address the
    local socket is bound to; [addr], which was that local address before,
    is from then on the bound address of the reply, the relay's. *)
Theorem negotiation_success_sets_addr (config : Config) (r : Relay)
    (w : World) script ds (m rsv : Z) (bs : list Z) (a : Address) :
  proxyInfo r = None ->
  isReady r = Pends ->
  dials w = Accepts script :: ds ->
  wf_config config ->
  m <> AuthMethod.NoneAcceptable ->
  concat script
  = SOCKS_VERSION :: m
      :: (if m =? AuthMethod.UsernamePassword
          then [USERNAME_PASSWORD_AUTH_VERSION; ReplyStatus.Success]
          else [])
      ++ SOCKS_VERSION :: ReplyStatus.Success :: rsv :: bs ->
  Forall is_byte bs ->
  decode bs = Returned a ->
  let r' :=
    {| udpConn := udpConn r;
       proxyInfo :=
         Some {| tcpConn := new_rid w;
                 addr := {| na_hostname := hostname a; na_port := port a;
                            na_transport := "udp" |} |};
       isReady := Returned tt |} in
  exists c',
    step config Settles (r, w)
    = (r', set_resources <[new_rid w := RTcp c']> (dialed w ds))
    /\ outbox c'
       = greeting config
           ++ (if m =? AuthMethod.UsernamePassword
               then credentials config else [])
           ++ request Command.UdpAssociate
                (na_hostname (udp_addr (udpConn r)))
                (na_port (udp_addr (udpConn r)))
    /\ get_addr r = udp_addr (udpConn r)
    /\ get_addr r' = {| na_hostname := hostname a; na_port := port a;
                        na_transport := "udp" |}.
Proof.
  intros Hinfo Hready Hdial Hwf Hm Hscript Hbytes Hdec r'.
  pose proof (connectAndRequest_replied config Command.UdpAssociate
                (na_hostname (udp_addr (udpConn r)))
                (na_port (udp_addr (udpConn r)))
                w script ds m SOCKS_VERSION ReplyStatus.Success rsv bs
                Hdial ltac:(unfold is_byte, Command.UdpAssociate; lia)
                Hwf Hm Hscript) as H.
  change (SOCKS_VERSION =? SOCKS_VERSION) with true in H.
  change (ReplyStatus.Success =? ReplyStatus.Success) with true in H.
  cbn [negb orb] in H.
  destruct H as (c' & Hrun & Hout & _). rewrite Hdec in Hrun.
  exists c'. split; [| split; [done | split]].
  - cbn [step]. rewrite Hready.
    unfold negotiate, try_catch.
    erewrite bind_Returned; [| exact Hrun].
    unfold ret. reflexivity.
  - unfold get_addr. by rewrite Hinfo.
  - reflexivity.
Qed.

Lemma negotiation_success_sets_addr_witness :
  exists c',
    step demo_config Settles listening
    = ({| udpConn := udpConn (fst listening);
          proxyInfo :=
            Some {| tcpConn := new_rid (snd listening);
                    addr := {| na_hostname := js "127.0.0.1"; na_port := 2080;
                               na_transport := "udp" |} |};
          isReady := Returned tt |},
       set_resources <[new_rid (snd listening) := RTcp c']>
         (dialed (snd listening) []))
    /\ outbox c'
       = greeting demo_config ++ []
           ++ request Command.UdpAssociate (js "0.0.0.0") 2080
    /\ get_addr (fst listening) = demo_opts
    /\ get_addr
         {| udpConn := udpConn (fst listening);
            proxyInfo :=
              Some {| tcpConn := new_rid (snd listening);
                      addr := {| na_hostname := js "127.0.0.1";
                                 na_port := 2080; na_transport := "udp" |} |};
            isReady := Returned tt |}
       = {| na_hostname := js "127.0.0.1"; na_port := 2080;
            na_transport := "udp" |}.
Proof.
  exact (negotiation_success_sets_addr demo_config (fst listening)
           (snd listening) [[5; 0]; [5; 0; 0; 1; 127; 0; 0; 1; 8; 32]] []
           0 0 [1; 127; 0; 0; 1; 8; 32]
           {| hostname := js "127.0.0.1"; port := 2080; bytesRead := 7 |}
           eq_refl eq_refl eq_refl I ltac:(vm_compute; discriminate) eq_refl
           ltac:(repeat (apply Forall_cons_2; [unfold is_byte; lia |]);
                 apply Forall_nil_2)
           ltac:(vm_compute; reflexivity)).
Defined.

(** ** [receive] on every sequence of datagrams *)

Lemma decode_settles (bs : list Z) : decode bs <> Pends.
Proof.
  destruct (decode_cases bs)
    as [(e & -> & _)
       | [(t & rest & _ & _ & _ & _ & ->)
         | [(parts & hi & lo & tail & -> & Hlen)
           | [(buff & hi & lo & tail & -> & Hlen)
             | (len & name & hi & lo & tail & -> & Hlen)]]]]; try done.
  - by rewrite decode_v4_bytes.
  - by rewrite decode_v6_bytes.
  - by rewrite decode_domain_bytes.
Qed.

(** Datagrams with a byte set in their header are passed over, and the
    first one with a clear header ends the call, whether its address
    decodes or not. *)
Lemma receive_fuel_first_clear (r : Relay) (p : option View) info d from rest :
  proxyInfo r = Some info ->
  header_set d = false ->
  forall bad fuel w s,
    resources w !! udp_rid (udpConn r) = Some (RUdp s) ->
    queue s = bad ++ (d, from) :: rest ->
    Forall (fun x => header_set (fst x) = true) bad ->
    (length bad < fuel)%nat ->
    exists w',
      pending (udpConn r) w' = rest
      /\ match decode (drop 3 (take (buffer_size p) d)) with
         | Returned a =>
             exists v,
               receive_fuel fuel r p w
               = (Returned (v, {| na_hostname := hostname a;
                                  na_port := port a;
                                  na_transport := "udp" |}), w')
               /\ contents w' v
                  = drop (Z.to_nat (3 + bytesRead a)) (take (buffer_size p) d)
         | Threw e => receive_fuel fuel r p w = (Threw e, w')
         | Pends => False
         end.
Proof.
  intros Hinfo Hclear bad.
  induction bad as [|[b from_b] bad IH]; intros fuel w s Hres Hq Hbad Hfuel.
  - destruct fuel as [|fuel]; [simpl in Hfuel; lia |].
    destruct (receive_fuel_step fuel r p w info s d from rest Hinfo Hres Hq)
      as [Hcontents ->].
    rewrite Hclear. eexists. split; [apply pending_arrived |].
    pose proof (decode_settles (drop 3 (take (buffer_size p) d))) as Hsettles.
    destruct (decode (drop 3 (take (buffer_size p) d))) as [a | e |];
      [| reflexivity | done].
    eexists. split; [reflexivity |].
    by rewrite contents_subarray, Hcontents.
  - destruct fuel as [|fuel]; [simpl in Hfuel; lia |].
    destruct (receive_fuel_step fuel r p w info s b from_b
                (bad ++ (d, from) :: rest) Hinfo Hres Hq)
      as [_ ->].
    inversion Hbad as [|? ? Hb Hbad']; subst. simpl in Hb. rewrite Hb.
    eapply IH.
    + unfold arrived. cbn [resources set_heap set_resources].
      apply lookup_insert_eq.
    + reflexivity.
    + done.
    + simpl in Hfuel. lia.
Qed.

(** While every datagram has a byte set in its header, all are passed over
    and the call waits for the next. *)
Lemma receive_fuel_all_flagged (r : Relay) (p : option View) info :
  proxyInfo r = Some info ->
  forall bad fuel w s,
    resources w !! udp_rid (udpConn r) = Some (RUdp s) ->
    queue s = bad ->
    Forall (fun x => header_set (fst x) = true) bad ->
    (length bad < fuel)%nat ->
    exists w',
      receive_fuel fuel r p w = (Pends, w')
      /\ pending (udpConn r) w' = [].
Proof.
  intros Hinfo bad.
  induction bad as [|[b from_b] bad IH]; intros fuel w s Hres Hq Hbad Hfuel.
  - destruct fuel as [|fuel]; [simpl in Hfuel; lia |].
    cbn [receive_fuel]. rewrite Hinfo.
    unfold bind, ret, new_Uint8Array, udp_receive.
    cbn [resources set_heap]. rewrite Hres, Hq.
    eexists. split; [reflexivity |].
    unfold pending. cbn [resources set_heap]. by rewrite Hres, Hq.
  - destruct fuel as [|fuel]; [simpl in Hfuel; lia |].
    destruct (receive_fuel_step fuel r p w info s b from_b bad Hinfo Hres Hq)
      as [_ ->].
    inversion Hbad as [|? ? Hb Hbad']; subst. simpl in Hb. rewrite Hb.
    eapply IH.
    + unfold arrived. cbn [resources set_heap set_resources].
      apply lookup_insert_eq.
    + reflexivity.
    + done.
    + simpl in Hfuel. lia.
Qed.

(** C5, as stated, fails: the first datagram with a clear header is not
    always returned.  Behind a flagged datagram comes one with a clear
    header and the address type 9: [receive] throws the error of
    [deserializeAddress], that datagram is gone, and the valid one behind
    it is still waiting. *)
Lemma receive_throws_on_clear_header :
  header_set [0; 0; 0; 9; 1] = false
  /\ fst (receive demo_relay (Some caller_buffer)
            (set_resources
               <[2%nat := RUdp {| queue := [(flagged, demo_peer);
                                            ([0; 0; 0; 9; 1], demo_peer);
                                            (valid, demo_peer)];
                                  sent := [] |}]> ready_world))
     = Threw (Error (js "unexpected address type: 9"))
  /\ pending (udpConn demo_relay)
       (snd (receive demo_relay (Some caller_buffer)
               (set_resources
                  <[2%nat := RUdp {| queue := [(flagged, demo_peer);
                                               ([0; 0; 0; 9; 1], demo_peer);
                                               (valid, demo_peer)];
                                     sent := [] |}]> ready_world)))
     = [(valid, demo_peer)].
Proof. repeat split; vm_compute; reflexivity. Qed.

(** C5 (amended): for a relay whose negotiation has completed and whose
    socket is open, and every sequence of waiting datagrams.  [receive()]
    passes over every datagram that has a byte set among its first three,
    and the first datagram whose header is clear ends the call: when the
    address at offset 3 decodes, [receive] returns the bytes after the
    header and the address (from offset [3 + bytesRead]) together with the
    endpoint decoded at offset 3; when it does not, [receive] throws the
    error of [deserializeAddress].  Either way that datagram is taken off
    the socket and the datagrams behind it stay queued.  While every
    datagram has a byte set, all are passed over and the call waits. *)
Theorem receive_skips_flagged (r : Relay) (p : option View) (w : World)
    info s :
  proxyInfo r = Some info ->
  resources w !! udp_rid (udpConn r) = Some (RUdp s) ->
  (forall bad d from rest,
      queue s = bad ++ (d, from) :: rest ->
      Forall (fun x => header_set (fst x) = true) bad ->
      header_set d = false ->
      exists w',
        pending (udpConn r) w' = rest
        /\ match decode (drop 3 (take (buffer_size p) d)) with
           | Returned a =>
               exists v,
                 receive r p w
                 = (Returned (v, {| na_hostname := hostname a;
                                    na_port := port a;
                                    na_transport := "udp" |}), w')
                 /\ contents w' v
                    = drop (Z.to_nat (3 + bytesRead a))
                        (take (buffer_size p) d)
           | Threw e => receive r p w = (Threw e, w')
           | Pends => False
           end)
  /\ (Forall (fun x => header_set (fst x) = true) (queue s) ->
      exists w',
        receive r p w = (Pends, w')
        /\ pending (udpConn r) w' = []).
Proof.
  intros Hinfo Hres. split.
  - intros bad d from rest Hq Hbad Hclear. unfold receive.
    eapply receive_fuel_first_clear; try done.
    unfold pending. rewrite Hres, Hq, length_app. simpl. lia.
  - intros Hbad. unfold receive.
    eapply receive_fuel_all_flagged; try done.
    unfold pending. rewrite Hres. lia.
Qed.

Lemma receive_skips_flagged_witness :
  (exists w',
      pending (udpConn demo_relay) w' = []
      /\ exists v,
           receive demo_relay (Some caller_buffer) ready_world
           = (Returned (v, {| na_hostname := js "1.2.3.4"; na_port := 1234;
                              na_transport := "udp" |}), w')
           /\ contents w' v = [9; 9])
  /\ (exists w',
        pending (udpConn demo_relay) w' = [(valid, demo_peer)]
        /\ receive demo_relay (Some caller_buffer)
             (set_resources
                <[2%nat := RUdp {| queue := [(flagged, demo_peer);
                                             ([0; 0; 0; 9; 1], demo_peer);
                                             (valid, demo_peer)];
                                   sent := [] |}]> ready_world)
           = (Threw (Error (js "unexpected address type: 9")), w')).
Proof.
  split.
  - destruct (receive_skips_flagged demo_relay (Some caller_buffer)
                ready_world {| tcpConn := 1; addr := demo_peer |} demo_socket
                eq_refl eq_refl) as [Hfirst _].
    destruct (Hfirst [(flagged, demo_peer)] valid demo_peer [])
      as (w' & Hrest & Hrun).
    + reflexivity.
    + repeat constructor.
    + reflexivity.
    + assert (decode (drop 3 (take (buffer_size (Some caller_buffer)) valid))
              = Returned {| hostname := js "1.2.3.4"; port := 1234;
                            bytesRead := 7 |}) as Hdec
        by (vm_compute; reflexivity).
      rewrite Hdec in Hrun. destruct Hrun as (v & Hrun & Hcontents).
      exists w'. split; [exact Hrest |]. exists v. split; [exact Hrun |].
      rewrite Hcontents. vm_compute. reflexivity.
  - destruct (receive_skips_flagged demo_relay (Some caller_buffer)
                (set_resources
                   <[2%nat := RUdp {| queue := [(flagged, demo_peer);
                                                ([0; 0; 0; 9; 1], demo_peer);
                                                (valid, demo_peer)];
                                      sent := [] |}]> ready_world)
                {| tcpConn := 1; addr := demo_peer |}
                {| queue := [(flagged, demo_peer);
                             ([0; 0; 0; 9; 1], demo_peer);
                             (valid, demo_peer)];
                   sent := [] |}
                eq_refl
                ltac:(cbn [resources set_resources]; apply lookup_insert_eq))
      as [Hfirst _].
    destruct (Hfirst [(flagged, demo_peer)] [0; 0; 0; 9; 1] demo_peer
                [(valid, demo_peer)])
      as (w' & Hrest & Hrun).
    + reflexivity.
    + repeat constructor.
    + reflexivity.
    + assert (decode (drop 3 (take (buffer_size (Some caller_buffer))
                                [0; 0; 0; 9; 1]))
              = Threw (Error (js "unexpected address type: 9"))) as Hdec
        by (vm_compute; reflexivity).
      rewrite Hdec in Hrun.
      exists w'. split; [exact Hrest | exact Hrun].
Defined.
